(** * jql-to-plan: the OmniPlan plan-graph builder and serializer

    A shallow embedding of [internal/omniplan] (the document types and the
    identifier counter of the package, and [serializer.go]) together with the
    properties of the builder: identifier allocation, resource derivation,
    leaf tasks and effort, epic groups and milestones, the final milestone,
    dependency resolution and the composition of the emitted lists.

    The embedding also covers [Serialize] over any writer, and the client of
    [internal/jira] that fetches the tickets the builder turns into a plan. *)

From Corelib Require Import SpecFloat.
From stdpp Require Import base list strings pretty gmap.

Local Open Scope string_scope.
Local Open Scope list_scope.
Local Open Scope Z_scope.

(** ** Machine integers and floats *)

(** Go's [int64]: a [Z] kept in range by two's complement wrap-around. *)
Definition min_int64 : Z := - 2 ^ 63.
Definition max_int64 : Z := 2 ^ 63 - 1.

Definition wrap64 (z : Z) : Z := (z + 2 ^ 63) `mod` 2 ^ 64 - 2 ^ 63.

Definition in_int64 (z : Z) : bool := (min_int64 <=? z) && (z <=? max_int64).

(** Go's [float64] is IEEE 754 binary64: 53 bits of precision, [emax] 1024. *)
Definition float64 : Type := spec_float.

Definition float64_mul : float64 → float64 → float64 := SFmul 53 1024.

(** [x > y] on [float64]; false as soon as one side is a NaN. *)
Definition float64_gt (x y : float64) : bool := SFltb y x.

(** An untyped integer constant converted to [float64]. *)
Definition float64_of_Z (z : Z) : float64 := binary_normalize 53 1024 z 0 false.

(** The integer part of a finite float, rounded toward zero. *)
Definition float64_trunc (f : float64) : option Z :=
  match f with
  | S754_zero _ => Some 0
  | S754_finite s m e =>
      let a := if 0 <=? e then Z.pos m * 2 ^ e else Z.pos m `div` 2 ^ (- e) in
      Some (if s then - a else a)
  | S754_infinity _ | S754_nan => None
  end.

(** The conversion [int64(f)]: the fraction is discarded. When the value does
    not fit (or [f] is an infinity or a NaN) Go leaves the result to the
    implementation; the model takes the one of amd64, the "integer
    indefinite" [-2^63]. *)
Definition int64_of_float64 (f : float64) : Z :=
  match float64_trunc f with
  | Some z => if in_int64 z then z else min_int64
  | None => min_int64
  end.

(** ** Formatting *)

(** The verb [%d] of [fmt.Sprintf] on an integer. *)
Definition fmt_d (z : Z) : string := pretty z.

(** ** The process: the package-level counter and standard output *)

Record World : Type := mkWorld {
  idCounter : Z;          (* var idCounter atomic.Int64 *)
  stdout : list string    (* what fmt.Printf has written, one entry per call *)
}.

Definition M (A : Type) : Type := World → A * World.

Definition ret {A} (x : A) : M A := λ w, (x, w).

Definition bind {A B} (m : M A) (k : A → M B) : M B :=
  λ w, let '(x, w') := m w in k x w'.

Declare Scope go_scope.
Notation "x <- m ;; k" := (bind m (λ x, k))
  (at level 100, m at next level, right associativity) : go_scope.
Notation "m ;;; k" := (bind m (λ _, k))
  (at level 100, right associativity) : go_scope.
Local Open Scope go_scope.

(** [idCounter.Add(delta)]: adds and returns the new value. *)
Definition idCounter_Add (delta : Z) : M Z :=
  λ w, let v := wrap64 (idCounter w + delta) in (v, mkWorld v (stdout w)).

(** [fmt.Printf] with its arguments already substituted. *)
Definition Printf (line : string) : M unit :=
  λ w, (tt, mkWorld (idCounter w) (stdout w ++ [line])).

(** A [for _, x := range xs] loop over a slice, threading the variables the
    body assigns. *)
Fixpoint forRange {S A} (xs : list A) (body : S → A → M S) (s : S) : M S :=
  match xs with
  | [] => ret s
  | x :: xs' => s' <- body s x ;; forRange xs' body s'
  end.

(** A [for k, v := range m] loop over a map. Go leaves the order of the
    iteration unspecified (and randomises it), so the order is an argument of
    the model: [order] lists the keys in the order this run visits them. *)
Definition rangeMap {V} (order : list string) (m : gmap string V) : list (string * V) :=
  omap (λ k, (λ v, (k, v)) <$> m !! k) order.

(** [order] is an iteration order of a map with these keys: every key once. *)
Definition iterationOf (order keys : list string) : Prop := order ≡ₚ keys.

(** GenerateID creates a unique ID for OmniPlan elements. *)
Definition GenerateID : M string :=
  v <- idCounter_Add 1 ;; ret ("gen" +:+ fmt_d v).

(** ** The ticket records of package jira *)

Module Ticket.
Record t : Type := mk {
  Key : string;
  Summary : string;
  Link : string;
  Assignee : string;
  Status : string;
  EffortDays : float64;            (* Effort in days from custom field *)
  EpicLink : string;               (* Key of the Epic this ticket belongs to *)
  DependencyKeys : list string     (* Keys of tickets this ticket depends on *)
}.
End Ticket.

(** ** The document types of package omniplan *)

(** Reference holds an idref attribute for linking elements. *)
Module Reference.
Record t : Type := mk { IDRef : string }.
End Reference.

(** Resource represents a project resource. *)
Module Resource.
Record t : Type := mk {
  ID : string;
  Name : string;
  Type_ : string;
  ChildResources : list Reference.t
}.
End Resource.

(** PrerequisiteTask represents a task dependency. *)
Module PrerequisiteTask.
Record t : Type := mk { IDRef : string; Kind : string }.
End PrerequisiteTask.

Module UserDataItem.
Record t : Type := mk { Key : string; Value : string }.
End UserDataItem.

Module UserData.
Record t : Type := mk { Items : list UserDataItem.t }.
End UserData.

(** Note, NoteText, NoteParagraph and NoteRun: a rich text note is a list of
    paragraphs of one literal run each. *)
Module Note.
Record t : Type := mk { Paragraphs : list string }.
End Note.

(** Task represents a project task. A nil pointer is [None]. *)
Module Task.
Record t : Type := mk {
  ID : string;
  Title : string;
  Type_ : string;
  LeveledStart : string;
  Effort : Z;
  Recalculate : string;
  StaticCost : Z;
  ChildTasks : list Reference.t;
  UserData : option UserData.t;
  Prerequisites : list PrerequisiteTask.t;
  Assignments : list Reference.t;
  Note : option Note.t
}.

(** [task.Assignments = a] *)
Definition setAssignments (a : list Reference.t) (x : t) : t :=
  mk (ID x) (Title x) (Type_ x) (LeveledStart x) (Effort x) (Recalculate x)
     (StaticCost x) (ChildTasks x) (UserData x) (Prerequisites x) a (Note x).

(** [task.Prerequisites = p] *)
Definition setPrerequisites (p : list PrerequisiteTask.t) (x : t) : t :=
  mk (ID x) (Title x) (Type_ x) (LeveledStart x) (Effort x) (Recalculate x)
     (StaticCost x) (ChildTasks x) (UserData x) p (Assignments x) (Note x).

(** [task.Prerequisites = append(task.Prerequisites, p...)] *)
Definition appendPrerequisites (p : list PrerequisiteTask.t) (x : t) : t :=
  setPrerequisites (Prerequisites x ++ p) x.
End Task.

(** Color represents an sRGB color. *)
Module Color.
Record t : Type := mk {
  Space : string;
  R : float64; G : float64; B : float64;
  H : float64; S : float64; V : float64
}.
End Color.

(** CriticalPath represents a critical path configuration. *)
Module CriticalPath.
Record t : Type := mk {
  Root : string;
  Enabled : string;
  Resources : string;
  Color : option Color.t
}.
End CriticalPath.

(** Scenario is the root element of an OmniPlan document. *)
Module Scenario.
Record t : Type := mk {
  XMLNS : string;
  OPNS : string;
  ID : string;
  Granularity : string;
  TopResource : Reference.t;
  Resources : list Resource.t;
  TopTask : Reference.t;
  Tasks : list Task.t;
  CriticalPaths : list CriticalPath.t
}.
End Scenario.

(** Namespace is the OmniPlan v2 XML namespace. *)
Definition Namespace : string := "http://www.omnigroup.com/namespace/OmniPlan/v2".

(** ** The serializer *)

(** Serializer converts Jira tickets to OmniPlan XML. *)
Module Serializer.
Record t : Type := mk {
  ProjectName : string;
  GroupByEpic : bool;
  MilestoneDone : bool
}.
End Serializer.

(** NewSerializer creates a new OmniPlan serializer: both switches are off. *)
Definition NewSerializer (projectName : string) : Serializer.t :=
  Serializer.mk projectName false false.

(** The two [range] loops over a map in [buildTasksFromTickets], each with
    the order in which the run visits the keys. With grouping on, the keys of
    both maps are the epic keys of the tickets ([childMap_keys] and
    [milestoneMap_keys] below), so an order of a run is a permutation of
    these. *)
Record MapOrders : Type := mkOrders {
  epicOrder : list string;        (* range epicToChildRefs *)
  milestoneOrder : list string    (* range epicMilestones *)
}.

Definition float64_zero : float64 := S754_zero false.
Definition float64_8 : float64 := Eval cbv in float64_of_Z 8.
Definition float64_3600 : float64 := Eval cbv in float64_of_Z 3600.

(** The local variable [effort] of the first pass: days * 8 hours/day * 3600
    seconds/hour, defaulting to 8 hours when no effort is specified. *)
Definition effort (ticket : Ticket.t) : Z :=
  if float64_gt (Ticket.EffortDays ticket) float64_zero
  then int64_of_float64
         (float64_mul (float64_mul (Ticket.EffortDays ticket) float64_8) float64_3600)
  else 28800.

(** The body of the loop of [buildScenario] that collects the unique
    assignees; the variables are [assigneeToResourceID], [staffResources] and
    [childResourceRefs]. *)
Definition staffBody
    (st : gmap string string * list Resource.t * list Reference.t)
    (ticket : Ticket.t)
    : M (gmap string string * list Resource.t * list Reference.t) :=
  let '(assigneeToResourceID, staffResources, childResourceRefs) := st in
  if decide (Ticket.Assignee ticket ≠ "") then
    match assigneeToResourceID !! Ticket.Assignee ticket with
    | None =>
        v <- idCounter_Add 1 ;;
        let resourceID := "r" +:+ fmt_d v in
        ret (<[Ticket.Assignee ticket := resourceID]> assigneeToResourceID,
             staffResources ++
               [Resource.mk resourceID (Ticket.Assignee ticket) "Staff" []],
             childResourceRefs ++ [Reference.mk resourceID])
    | Some _ => ret st
    end
  else ret st.

(** The annotation block of a task. *)
Definition jiraUserData (key link status : string) : option UserData.t :=
  Some (UserData.mk [UserDataItem.mk "Jira Key" key;
                     UserDataItem.mk "Jira Link" link;
                     UserDataItem.mk "Jira Status" status]).

(** The variables of the first pass: [jiraKeyToTaskID], [taskPtrs],
    [epicToChildRefs] and [refs]. The tasks behind [taskPtrs] are reached
    through these pointers only, so the slice of pointers is a list of tasks
    updated in place. *)
Definition Pass1 : Type :=
  gmap string string * list Task.t * gmap string (list Reference.t) * list Reference.t.

(** The task of one ticket, as the first pass leaves it: the struct literal
    and the assignment to the resource of the assignee, if there is one. *)
Definition leafTask (assigneeToResourceID : gmap string string)
    (taskID : string) (ticket : Ticket.t) : Task.t :=
  let task :=
    Task.mk taskID (Ticket.Summary ticket) "" "" (effort ticket) "duration" 0 []
      (jiraUserData (Ticket.Key ticket) (Ticket.Link ticket) (Ticket.Status ticket))
      [] [] None in
  if decide (Ticket.Assignee ticket ≠ "") then
    match assigneeToResourceID !! Ticket.Assignee ticket with
    | Some resourceID => Task.setAssignments [Reference.mk resourceID] task
    | None => task
    end
  else task.

(** Whether the first pass routes the ticket into the children of its epic. *)
Definition grouped (s : Serializer.t) (ticket : Ticket.t) : bool :=
  Serializer.GroupByEpic s && bool_decide (Ticket.EpicLink ticket ≠ "").

(** First pass: create tasks and build a map of Jira Key -> Task ID. *)
Definition leafBody (s : Serializer.t) (assigneeToResourceID : gmap string string)
    (st : Pass1) (ticket : Ticket.t) : M Pass1 :=
  let '(jiraKeyToTaskID, taskPtrs, epicToChildRefs, refs) := st in
  v <- idCounter_Add 1 ;;
  let taskID := "t" +:+ fmt_d v in
  let jiraKeyToTaskID := <[Ticket.Key ticket := taskID]> jiraKeyToTaskID in
  let task := leafTask assigneeToResourceID taskID ticket in
  let taskPtrs := taskPtrs ++ [task] in
  if grouped s ticket then
    ret (jiraKeyToTaskID, taskPtrs,
         <[Ticket.EpicLink ticket :=
             default [] (epicToChildRefs !! Ticket.EpicLink ticket)
               ++ [Reference.mk taskID]]> epicToChildRefs,
         refs)
  else
    ret (jiraKeyToTaskID, taskPtrs, epicToChildRefs, refs ++ [Reference.mk taskID]).

(** The variables of the epic loop: [tasks], [refs], [epicTasks] and
    [epicMilestones]. *)
Definition Pass2 : Type :=
  list Task.t * list Reference.t * gmap string Task.t * gmap string Task.t.

(** Retrieve epic details: summary, link and status; the key stands in for
    the summary of an epic that is not in the map. *)
Definition epicDetails (epics : gmap string Ticket.t) (epicKey : string)
    : string * string * string :=
  match epics !! epicKey with
  | Some epicTicket =>
      (Ticket.Summary epicTicket, Ticket.Link epicTicket, Ticket.Status epicTicket)
  | None => (epicKey, "", "")
  end.

Definition epicSummary (epics : gmap string Ticket.t) (epicKey : string) : string :=
  (epicDetails epics epicKey).1.1.

(** Group task for an epic. *)
Definition groupTask (epics : gmap string Ticket.t) (epicKey groupID : string)
    (children : list Reference.t) : Task.t :=
  let '(epicSummary, epicLink, epicStatus) := epicDetails epics epicKey in
  Task.mk groupID epicSummary "group" "" 0 "duration" 0 children
    (jiraUserData epicKey epicLink epicStatus) [] [] None.

(** Milestone for an epic. *)
Definition milestoneTask (epics : gmap string Ticket.t)
    (epicKey groupID milestoneID : string) : Task.t :=
  Task.mk milestoneID (epicSummary epics epicKey +:+ " Done") "milestone" ""
    0 "duration" 0 [] None [PrerequisiteTask.mk groupID ""] [] None.

(** Create the group task and the milestone of one epic. *)
Definition epicBody (epics : gmap string Ticket.t)
    (st : Pass2) (kv : string * list Reference.t) : M Pass2 :=
  let '(tasks, refs, epicTasks, epicMilestones) := st in
  let '(epicKey, children) := kv in
  v <- idCounter_Add 1 ;;
  let groupID := "t" +:+ fmt_d v in
  let group := groupTask epics epicKey groupID children in
  let epicTasks := <[epicKey := group]> epicTasks in
  let tasks := tasks ++ [group] in
  let refs := refs ++ [Reference.mk groupID] in
  v' <- idCounter_Add 1 ;;
  let milestoneID := "t" +:+ fmt_d v' in
  let milestone := milestoneTask epics epicKey groupID milestoneID in
  let epicMilestones := <[epicKey := milestone]> epicMilestones in
  let tasks := tasks ++ [milestone] in
  let refs := refs ++ [Reference.mk milestoneID] in
  ret (tasks, refs, epicTasks, epicMilestones).

(** The prerequisites collected for the "Done" milestone. *)
Definition donePrereqs (s : Serializer.t) (o : MapOrders)
    (tasks : list Task.t) (epicMilestones : gmap string Task.t)
    : list PrerequisiteTask.t :=
  if Serializer.GroupByEpic s then
    (λ kv, PrerequisiteTask.mk (Task.ID kv.2) "")
      <$> rangeMap (milestoneOrder o) epicMilestones
  else
    (λ t, PrerequisiteTask.mk (Task.ID t) "")
      <$> filter (λ t, Task.Type_ t = "milestone") tasks.

(** The "Done" milestone. *)
Definition doneTask (milestoneID : string) (prereqs : list PrerequisiteTask.t)
    : Task.t :=
  Task.mk milestoneID "Done" "milestone" "" 0 "duration" 0 [] None prereqs [] None.

Definition newline : string := String (Ascii.ascii_of_nat 10) "".

(** The warning of the second pass. *)
Definition depWarning (key depKey : string) : string :=
  "Warning: Ticket " +:+ key +:+ " depends on " +:+ depKey +:+ ", but " +:+ depKey
    +:+ " was not found in the JQL result set." +:+ newline.

(** Second pass, the inner loop: resolve one dependency key of ticket [i].
    [taskPtrs] has one task per ticket, so index [i] is in range. *)
Definition depBody (jiraKeyToTaskID : gmap string string) (i : nat)
    (ticket : Ticket.t) (taskPtrs : list Task.t) (depKey : string)
    : M (list Task.t) :=
  match jiraKeyToTaskID !! depKey with
  | Some depID =>
      ret (alter (Task.appendPrerequisites [PrerequisiteTask.mk depID ""]) i taskPtrs)
  | None => Printf (depWarning (Ticket.Key ticket) depKey) ;;; ret taskPtrs
  end.

(** Second pass, the outer loop. A ticket without dependency keys is skipped
    with [continue]; the inner loop over no keys does nothing either. *)
Definition resolveBody (jiraKeyToTaskID : gmap string string)
    (taskPtrs : list Task.t) (it : nat * Ticket.t) : M (list Task.t) :=
  forRange (Ticket.DependencyKeys it.2) (depBody jiraKeyToTaskID it.1 it.2) taskPtrs.

(** [for i, x := range xs]: the elements with their indices. *)
Definition indexed {A} (xs : list A) : list (nat * A) := imap pair xs.

(** buildTasksFromTickets converts Jira tickets to OmniPlan tasks. *)
Definition buildTasksFromTickets (s : Serializer.t) (o : MapOrders)
    (tickets : list Ticket.t) (assigneeToResourceID : gmap string string)
    (epics : gmap string Ticket.t) : M (list Task.t * list Reference.t) :=
  p1 <- forRange tickets (leafBody s assigneeToResourceID)
          ((∅, [], ∅, []) : Pass1) ;;
  let '(jiraKeyToTaskID, taskPtrs, epicToChildRefs, refs) := p1 in
  p2 <- (if Serializer.GroupByEpic s
         then forRange (rangeMap (epicOrder o) epicToChildRefs) (epicBody epics)
                (([], refs, ∅, ∅) : Pass2)
         else ret (([], refs, ∅, ∅) : Pass2)) ;;
  let '(tasks, refs, epicTasks, epicMilestones) := p2 in
  p3 <- (if Serializer.MilestoneDone s then
           let prereqs := donePrereqs s o tasks epicMilestones in
           if bool_decide (0 < length prereqs)%nat then
             v <- idCounter_Add 1 ;;
             let milestoneID := "t" +:+ fmt_d v in
             ret (tasks ++ [doneTask milestoneID prereqs],
                  refs ++ [Reference.mk milestoneID])
           else ret (tasks, refs)
         else ret (tasks, refs)) ;;
  let '(tasks, refs) := p3 in
  taskPtrs <- forRange (indexed tickets) (resolveBody jiraKeyToTaskID) taskPtrs ;;
  ret (tasks ++ taskPtrs, refs).

Definition float64_1 : float64 := Eval cbv in float64_of_Z 1.
Definition float64_half : float64 := S754_finite false 4503599627370496 (-53).

(** The top-level group task that contains all child tasks. *)
Definition topTask (childTaskRefs : list Reference.t) : Task.t :=
  Task.mk "t-1" "" "group" "" 0 "duration" 0 childTaskRefs None [] [] None.

(** The project resource with staff as children. *)
Definition projectResource (s : Serializer.t) (childResourceRefs : list Reference.t)
    : Resource.t :=
  Resource.mk "r-1" (Serializer.ProjectName s) "Project" childResourceRefs.

Definition criticalPaths : list CriticalPath.t :=
  [CriticalPath.mk "-1" "false" "false"
     (Some (Color.mk "srgb" float64_1 float64_half float64_half
              float64_zero float64_zero float64_zero))].

(** buildScenario constructs the full OmniPlan scenario from tickets. *)
Definition buildScenario (s : Serializer.t) (o : MapOrders)
    (tickets : list Ticket.t) (epics : gmap string Ticket.t) : M Scenario.t :=
  scenarioID <- GenerateID ;;
  let topResourceID := "r-1" in
  let topTaskID := "t-1" in
  st <- forRange tickets staffBody
          ((∅, [], []) : gmap string string * list Resource.t * list Reference.t) ;;
  let '(assigneeToResourceID, staffResources, childResourceRefs) := st in
  r <- buildTasksFromTickets s o tickets assigneeToResourceID epics ;;
  let '(tasks, childTaskRefs) := r in
  let allTasks := [topTask childTaskRefs] ++ tasks in
  let allResources := [projectResource s childResourceRefs] ++ staffResources in
  ret (Scenario.mk Namespace Namespace scenarioID "days"
         (Reference.mk topResourceID) allResources
         (Reference.mk topTaskID) allTasks
         criticalPaths).

(** ** The XML encoding

    [Serialize] hands the scenario to Go's [encoding/xml] with a two-space
    indent. What the encoder writes is fixed by the struct tags of the
    document types: which fields are attributes, which are child elements, in
    which order, and which are left out when empty. *)

(** An element: its name, its attributes, its character data and its child
    elements (an element of these documents has text or children, not both). *)
#[local] Unset Elimination Schemes.
Inductive XmlNode : Type :=
| XElem (name : string) (attrs : list (string * string)) (text : string)
        (children : list XmlNode).
#[local] Set Elimination Schemes.

Definition byte_string (n : nat) : string := String (Ascii.ascii_of_nat n) "".

Definition dquote : string := byte_string 34.

(** U+FFFD in UTF-8, written for a character XML does not allow. *)
Definition escFFFD : string := byte_string 239 +:+ byte_string 191 +:+ byte_string 189.

(** The escape of one byte in attribute values and character data. A byte
    from 0x80 on is copied: the texts are taken to be well-formed UTF-8. *)
Definition escapeByte (c : Ascii.ascii) : string :=
  let n := Ascii.nat_of_ascii c in
  if Nat.eqb n 34 then "&#34;"
  else if Nat.eqb n 39 then "&#39;"
  else if Nat.eqb n 38 then "&amp;"
  else if Nat.eqb n 60 then "&lt;"
  else if Nat.eqb n 62 then "&gt;"
  else if Nat.eqb n 9 then "&#x9;"
  else if Nat.eqb n 10 then "&#xA;"
  else if Nat.eqb n 13 then "&#xD;"
  else if Nat.ltb n 32 then escFFFD
  else String c "".

Fixpoint EscapeString (s : string) : string :=
  match s with
  | EmptyString => ""
  | String c s' => escapeByte c +:+ EscapeString s'
  end.

Definition encodeAttr (a : string * string) : string :=
  " " +:+ a.1 +:+ "=" +:+ dquote +:+ EscapeString a.2 +:+ dquote.

Fixpoint indentation (depth : nat) : string :=
  match depth with
  | O => ""
  | S d => "  " +:+ indentation d
  end.

Definition concatStrings (l : list string) : string := foldr String.append "" l.

(** An element on a line of its own at [depth]; the end tag goes on a new line
    only after child elements. *)
Fixpoint encodeNode (depth : nat) (n : XmlNode) : string :=
  match n with
  | XElem name attrs text children =>
      indentation depth +:+ "<" +:+ name +:+ concatStrings (encodeAttr <$> attrs)
        +:+ ">" +:+ EscapeString text
        +:+ match children with
            | [] => ""
            | _ =>
                (fix go (l : list XmlNode) : string :=
                   match l with
                   | [] => ""
                   | c :: l' => newline +:+ encodeNode (S depth) c +:+ go l'
                   end) children
                +:+ newline +:+ indentation depth
            end
        +:+ "</" +:+ name +:+ ">"
  end.

Definition textElem (name value : string) : XmlNode := XElem name [] value [].

(** A string field tagged [omitempty]. *)
Definition optElem (name value : string) : list XmlNode :=
  if decide (value = "") then [] else [textElem name value].

Definition refElem (name : string) (r : Reference.t) : XmlNode :=
  XElem name [("idref", Reference.IDRef r)] "" [].

(** [strconv.FormatFloat(f, 'g', -1, 64)] on the values a color of these
    documents holds: whole numbers and halves below 10^21. Other values are
    outside the model and give the empty string. *)
Definition formatFloat (f : float64) : string :=
  match f with
  | S754_zero s => if s then "-0" else "0"
  | S754_infinity s => if s then "-Inf" else "+Inf"
  | S754_nan => "NaN"
  | S754_finite s m e =>
      let sign := if s then "-" else "" in
      if (0 <=? e) || (Z.pos m `mod` 2 ^ (- e) =? 0) then
        sign +:+ fmt_d (default 0 (float64_trunc (S754_finite false m e)))
      else if Z.pos m `mod` 2 ^ (- e - 1) =? 0 then
        sign +:+ fmt_d (default 0 (float64_trunc (S754_finite false m e))) +:+ ".5"
      else ""
  end.

(** A float attribute tagged [omitempty]: left out when zero. *)
Definition optFloatAttr (name : string) (f : float64) : list (string * string) :=
  match f with
  | S754_zero _ => []
  | _ => [(name, formatFloat f)]
  end.

Definition ResourceXml (r : Resource.t) : XmlNode :=
  XElem "resource" [("id", Resource.ID r)] ""
    (optElem "name" (Resource.Name r) ++ optElem "type" (Resource.Type_ r)
     ++ (refElem "child-resource" <$> Resource.ChildResources r)).

Definition PrerequisiteTaskXml (p : PrerequisiteTask.t) : XmlNode :=
  XElem "prerequisite-task"
    ([("idref", PrerequisiteTask.IDRef p)]
     ++ if decide (PrerequisiteTask.Kind p = "") then []
        else [("kind", PrerequisiteTask.Kind p)])
    "" [].

(** MarshalXML implements custom marshaling for UserData to match OmniPlan
    format: nothing at all for an empty block, else alternating key and
    string elements. *)
Definition UserDataXml (u : option UserData.t) : list XmlNode :=
  match u with
  | None => []
  | Some u =>
      match UserData.Items u with
      | [] => []
      | items =>
          [XElem "user-data" [] ""
             (flat_map (λ item, [textElem "key" (UserDataItem.Key item);
                                 textElem "string" (UserDataItem.Value item)])
                       items)]
      end
  end.

Definition NoteXml (n : option Note.t) : list XmlNode :=
  match n with
  | None => []
  | Some n =>
      [XElem "note" [] ""
         [XElem "text" [] ""
            ((λ lit, XElem "p" [] "" [XElem "run" [] "" [textElem "lit" lit]])
               <$> Note.Paragraphs n)]]
  end.

Definition TaskXml (t : Task.t) : XmlNode :=
  XElem "task" [("id", Task.ID t)] ""
    (optElem "title" (Task.Title t) ++ optElem "type" (Task.Type_ t)
     ++ optElem "leveled-start" (Task.LeveledStart t)
     ++ (if Task.Effort t =? 0 then [] else [textElem "effort" (fmt_d (Task.Effort t))])
     ++ optElem "recalculate" (Task.Recalculate t)
     ++ [textElem "static-cost" (fmt_d (Task.StaticCost t))]
     ++ (refElem "child-task" <$> Task.ChildTasks t)
     ++ UserDataXml (Task.UserData t)
     ++ (PrerequisiteTaskXml <$> Task.Prerequisites t)
     ++ (refElem "assignment" <$> Task.Assignments t)
     ++ NoteXml (Task.Note t)).

Definition ColorXml (c : Color.t) : XmlNode :=
  XElem "color"
    ([("space", Color.Space c)]
     ++ optFloatAttr "r" (Color.R c) ++ optFloatAttr "g" (Color.G c)
     ++ optFloatAttr "b" (Color.B c) ++ optFloatAttr "h" (Color.H c)
     ++ optFloatAttr "s" (Color.S c) ++ optFloatAttr "v" (Color.V c))
    "" [].

Definition CriticalPathXml (p : CriticalPath.t) : XmlNode :=
  XElem "critical-path"
    [("root", CriticalPath.Root p); ("enabled", CriticalPath.Enabled p);
     ("resources", CriticalPath.Resources p)] ""
    (match CriticalPath.Color p with None => [] | Some c => [ColorXml c] end).

Definition ScenarioXml (sc : Scenario.t) : XmlNode :=
  XElem "scenario"
    [("xmlns", Scenario.XMLNS sc); ("xmlns:opns", Scenario.OPNS sc);
     ("id", Scenario.ID sc)] ""
    ([textElem "granularity" (Scenario.Granularity sc);
      refElem "top-resource" (Scenario.TopResource sc)]
     ++ (ResourceXml <$> Scenario.Resources sc)
     ++ [refElem "top-task" (Scenario.TopTask sc)]
     ++ (TaskXml <$> Scenario.Tasks sc)
     ++ (CriticalPathXml <$> Scenario.CriticalPaths sc)).

(** [xml.Header] *)
Definition xmlHeader : string :=
  "<?xml version=" +:+ dquote +:+ "1.0" +:+ dquote +:+ " encoding=" +:+ dquote
    +:+ "UTF-8" +:+ dquote +:+ "?>" +:+ newline.

(** Serialize writes Jira tickets as OmniPlan XML to the given writer. The
    writer is an in-memory buffer, whose writes do not fail; the result is
    what it holds at the end: the header, the scenario and a final newline. *)
Definition Serialize (s : Serializer.t) (o : MapOrders)
    (tickets : list Ticket.t) (epics : gmap string Ticket.t) : M string :=
  scenario <- buildScenario s o tickets epics ;;
  ret (xmlHeader +:+ encodeNode 0 (ScenarioXml scenario) +:+ newline).

(** SerializeToString is a convenience method that serializes to a string. *)
Definition SerializeToString (s : Serializer.t) (o : MapOrders)
    (tickets : list Ticket.t) : M string :=
  Serialize s o tickets ∅.

(** ** What a run allocates and builds, in closed form *)

(** The value [idCounter.Add(1)] returns when the counter holds [v]. *)
Definition nextVal (v : Z) : Z := wrap64 (v + 1).

(** The values of [n] successive calls of [idCounter.Add(1)] from [v]. *)
Fixpoint vals (v : Z) (n : nat) : list Z :=
  match n with
  | O => []
  | S n' => nextVal v :: vals (nextVal v) n'
  end.

(** The counter after [n] calls. *)
Fixpoint iterNext (n : nat) (v : Z) : Z :=
  match n with
  | O => v
  | S n' => iterNext n' (nextVal v)
  end.

Definition advance (n : nat) (w : World) : World :=
  mkWorld (iterNext n (idCounter w)) (stdout w).

Definition taskID (v : Z) : string := "t" +:+ fmt_d v.
Definition resourceID (v : Z) : string := "r" +:+ fmt_d v.

(** The elements of a list without repetition, in the order of their first
    occurrence. *)
Fixpoint distinct (l : list string) : list string :=
  match l with
  | [] => []
  | x :: l' => x :: filter (λ y, y ≠ x) (distinct l')
  end.

(** The names a loop that remembers what it has [seen] meets for the first
    time, the empty name left out. *)
Fixpoint firstSeen (seen : gset string) (l : list string) : list string :=
  match l with
  | [] => []
  | x :: l' =>
      if decide (x ≠ "" ∧ x ∉ seen) then x :: firstSeen ({[x]} ∪ seen) l'
      else firstSeen seen l'
  end.

(** The distinct non-empty assignee names, by first appearance. *)
Definition assigneeNames (tickets : list Ticket.t) : list string :=
  distinct (filter (λ a, a ≠ "") (Ticket.Assignee <$> tickets)).

(** The epic keys with at least one member ticket, by first appearance. *)
Definition epicKeys (tickets : list Ticket.t) : list string :=
  distinct (filter (λ k, k ≠ "") (Ticket.EpicLink <$> tickets)).

(** [m[k] = v] for every pair of a list, in order. *)
Definition insertAll {V} (m : gmap string V) (l : list (string * V)) : gmap string V :=
  foldl (λ m p, <[p.1 := p.2]> m) m l.

Definition staffResource (name id : string) : Resource.t :=
  Resource.mk id name "Staff" [].

(** The tickets with the task ids the first pass gives them. *)
Definition numbered (v : Z) (tickets : list Ticket.t) : list (Ticket.t * string) :=
  zip tickets (taskID <$> vals v (length tickets)).

(** [epicToChildRefs[k] = append(epicToChildRefs[k], ref)] *)
Definition addChild (e : gmap string (list Reference.t)) (p : Ticket.t * string)
    : gmap string (list Reference.t) :=
  <[Ticket.EpicLink p.1 :=
      default [] (e !! Ticket.EpicLink p.1) ++ [Reference.mk p.2]]> e.

(** The group and milestone tasks of the epic loop over [kvs], the counter
    being [v] when the loop starts. *)
Fixpoint epicBlock (epics : gmap string Ticket.t) (v : Z)
    (kvs : list (string * list Reference.t)) : list Task.t :=
  match kvs with
  | [] => []
  | kv :: kvs' =>
      let g := nextVal v in
      let m := nextVal g in
      groupTask epics kv.1 (taskID g) kv.2
        :: milestoneTask epics kv.1 (taskID g) (taskID m)
        :: epicBlock epics m kvs'
  end.

(** The entries the epic loop makes in [epicTasks] and [epicMilestones]. *)
Fixpoint epicGroupsOf (epics : gmap string Ticket.t) (v : Z)
    (kvs : list (string * list Reference.t)) : list (string * Task.t) :=
  match kvs with
  | [] => []
  | kv :: kvs' =>
      let g := nextVal v in
      (kv.1, groupTask epics kv.1 (taskID g) kv.2)
        :: epicGroupsOf epics (nextVal g) kvs'
  end.

Fixpoint epicMilestonesOf (epics : gmap string Ticket.t) (v : Z)
    (kvs : list (string * list Reference.t)) : list (string * Task.t) :=
  match kvs with
  | [] => []
  | kv :: kvs' =>
      let g := nextVal v in
      let m := nextVal g in
      (kv.1, milestoneTask epics kv.1 (taskID g) (taskID m))
        :: epicMilestonesOf epics m kvs'
  end.

(** The prerequisites the second pass resolves for a list of dependency
    keys, and the warnings it prints for them. *)
Definition resolveKeys (jiraKeyToTaskID : gmap string string) (deps : list string)
    : list PrerequisiteTask.t :=
  omap (λ depKey, (λ depID, PrerequisiteTask.mk depID "") <$> jiraKeyToTaskID !! depKey)
       deps.

Definition warnKeys (jiraKeyToTaskID : gmap string string) (key : string)
    (deps : list string) : list string :=
  depWarning key <$> filter (λ depKey, jiraKeyToTaskID !! depKey = None) deps.

Definition resolved (jiraKeyToTaskID : gmap string string) (ticket : Ticket.t)
    : list PrerequisiteTask.t :=
  resolveKeys jiraKeyToTaskID (Ticket.DependencyKeys ticket).

Definition warnings (jiraKeyToTaskID : gmap string string) (ticket : Ticket.t)
    : list string :=
  warnKeys jiraKeyToTaskID (Ticket.Key ticket) (Ticket.DependencyKeys ticket).

Section ClosedForm.
Variables (s : Serializer.t) (o : MapOrders) (tickets : list Ticket.t)
  (a2r : gmap string string) (epics : gmap string Ticket.t).
(** The counter when [buildTasksFromTickets] starts. *)
Variable c : Z.

(** [jiraKeyToTaskID] after the first pass. *)
Definition keyMap : gmap string string :=
  insertAll ∅ ((λ p, (Ticket.Key p.1, p.2)) <$> numbered c tickets).

(** [epicToChildRefs] after the first pass. *)
Definition childMap : gmap string (list Reference.t) :=
  foldl addChild ∅ (filter (λ p, grouped s p.1 = true) (numbered c tickets)).

(** [refs] after the first pass: the tickets that stay at the top level. *)
Definition topRefs : list Reference.t :=
  (λ p, Reference.mk p.2) <$> filter (λ p, grouped s p.1 = false) (numbered c tickets).

(** The pairs the epic loop visits, in the order it visits them. *)
Definition epicPairs : list (string * list Reference.t) :=
  if Serializer.GroupByEpic s then rangeMap (epicOrder o) childMap else [].

Definition afterLeaves : Z := iterNext (length tickets) c.

Definition epicPart : list Task.t := epicBlock epics afterLeaves epicPairs.

Definition milestoneMap : gmap string Task.t :=
  insertAll ∅ (epicMilestonesOf epics afterLeaves epicPairs).

Definition afterEpics : Z := iterNext (2 * length epicPairs) afterLeaves.

Definition donePart : list Task.t :=
  let prereqs := donePrereqs s o epicPart milestoneMap in
  if Serializer.MilestoneDone s && bool_decide (0 < length prereqs)%nat
  then [doneTask (taskID (nextVal afterEpics)) prereqs] else [].

(** The tasks of the tickets after the second pass. *)
Definition leafPart : list Task.t :=
  (λ p, Task.appendPrerequisites (resolved keyMap p.1) (leafTask a2r p.2 p.1))
    <$> numbered c tickets.

Definition builtTasks : list Task.t := epicPart ++ donePart ++ leafPart.

Definition builtRefs : list Reference.t :=
  topRefs ++ ((λ t, Reference.mk (Task.ID t)) <$> epicPart ++ donePart).

Definition printed : list string := flat_map (warnings keyMap) tickets.
End ClosedForm.

(** The product the first pass converts to [int64]. *)
Definition effortSeconds (ticket : Ticket.t) : float64 :=
  float64_mul (float64_mul (Ticket.EffortDays ticket) float64_8) float64_3600.

(** The nearest integer to a finite float, halves away from zero. *)
Definition float64_round (f : float64) : option Z :=
  match f with
  | S754_zero _ => Some 0
  | S754_finite s m e =>
      let a := if 0 <=? e then Z.pos m * 2 ^ e
               else (2 * Z.pos m + 2 ^ (- e)) `div` 2 ^ (- e + 1) in
      Some (if s then - a else a)
  | S754_infinity _ | S754_nan => None
  end.

(** The effort as the specification words it: the product rounded to the
    nearest second, 28800 for an effort that is not positive. *)
Definition roundedEffort (ticket : Ticket.t) : option Z :=
  if float64_gt (Ticket.EffortDays ticket) float64_zero
  then float64_round (effortSeconds ticket)
  else Some 28800.

(** A float that is zero, positive and finite, or plus infinity. *)
Definition float64_nonneg (f : float64) : Prop :=
  match f with
  | S754_zero false | S754_finite false _ _ | S754_infinity false => True
  | _ => False
  end.

(** The tasks of the tickets in an emitted task list: its last tasks, one per
    ticket. *)
Definition emittedLeaves (tickets : list Ticket.t) (tasks : list Task.t)
    : list Task.t :=
  drop (length tasks - length tickets) tasks.

(** 4.1 days and 2^-15 days as [float64]. *)
Definition days_4_1 : float64 := S754_finite false 4616189618054758 (-50).
Definition days_tiny : float64 := S754_finite false 4503599627370496 (-67).

(** The epic part of a task list: group tasks, each followed at once by its
    milestone, whose one prerequisite is the group. *)
Fixpoint groupsAndMilestones (l : list Task.t) : Prop :=
  match l with
  | [] => True
  | g :: m :: l' =>
      Task.Type_ g = "group" ∧ Task.Type_ m = "milestone"
      ∧ Task.Prerequisites m = [PrerequisiteTask.mk (Task.ID g) ""]
      ∧ groupsAndMilestones l'
  | _ => False
  end.

(** A task is that of a ticket, as far as the ticket alone decides it. *)
Definition leafOf (ticket : Ticket.t) (task : Task.t) : Prop :=
  Task.Title task = Ticket.Summary ticket
  ∧ Task.Type_ task = ""
  ∧ Task.Effort task = effort ticket
  ∧ Task.ChildTasks task = []
  ∧ Task.UserData task
    = jiraUserData (Ticket.Key ticket) (Ticket.Link ticket) (Ticket.Status ticket).

(** The order of the emitted task list as the specification words it: the
    root, the leaf tasks, then the synthetic tasks. *)
Definition leavesFirst (tickets : list Ticket.t) (tasks : list Task.t) : Prop :=
  ∃ root leaves synthetic,
    tasks = root :: leaves ++ synthetic ∧ Forall2 leafOf tickets leaves.

Section ScenarioClosedForm.
Variables (s : Serializer.t) (o : MapOrders) (tickets : list Ticket.t)
  (epics : gmap string Ticket.t).
(** The counter when [buildScenario] starts. *)
Variable c : Z.

Definition scenarioID : string := "gen" +:+ fmt_d (nextVal c).

(** The ids of the Staff resources, in the order of [assigneeNames]. *)
Definition staffIDs : list string :=
  resourceID <$> vals (nextVal c) (length (assigneeNames tickets)).

(** [assigneeToResourceID] after the loop over the tickets. *)
Definition assigneeMap : gmap string string :=
  insertAll ∅ (zip (assigneeNames tickets) staffIDs).

Definition staffPart : list Resource.t :=
  zip_with staffResource (assigneeNames tickets) staffIDs.

(** The counter when [buildTasksFromTickets] starts. *)
Definition afterStaff : Z := iterNext (length (assigneeNames tickets)) (nextVal c).

Definition builtScenario : Scenario.t :=
  Scenario.mk Namespace Namespace scenarioID "days" (Reference.mk "r-1")
    (projectResource s (Reference.mk <$> staffIDs) :: staffPart)
    (Reference.mk "t-1")
    (topTask (builtRefs s o tickets epics afterStaff)
       :: builtTasks s o tickets assigneeMap epics afterStaff)
    criticalPaths.

Definition finalWorld (w : World) : World :=
  mkWorld (iterNext (length (donePart s o tickets epics afterStaff))
             (afterEpics s o tickets afterStaff))
          (stdout w ++ printed tickets afterStaff).
End ScenarioClosedForm.

(** The references to the tasks of the tickets of epic [k], in input order. *)
Definition memberRefs (c : Z) (tickets : list Ticket.t) (k : string)
    : list Reference.t :=
  (λ p, Reference.mk p.2)
    <$> filter (λ p, Ticket.EpicLink p.1 = k) (numbered c tickets).

(** The epic loop, epic by epic: the group task and its milestone. *)
Fixpoint epicTaskPairs (epics : gmap string Ticket.t) (v : Z)
    (kvs : list (string * list Reference.t)) : list (Task.t * Task.t) :=
  match kvs with
  | [] => []
  | kv :: kvs' =>
      let g := nextVal v in
      let m := nextVal g in
      (groupTask epics kv.1 (taskID g) kv.2,
       milestoneTask epics kv.1 (taskID g) (taskID m))
        :: epicTaskPairs epics m kvs'
  end.

(** The Jira key in the annotation block of a task. *)
Definition jiraKey (t : Task.t) : option string :=
  match Task.UserData t with
  | Some (UserData.mk (item :: _)) => Some (UserDataItem.Value item)
  | _ => None
  end.

(** The epic keys of the group tasks of a task list, in the order of the
    list. *)
Definition epicGroupKeys (tasks : list Task.t) : list string :=
  omap jiraKey (filter (λ t, Task.Type_ t = "group") tasks).

(** The milestones of a task list, in the order of the list. *)
Definition milestonesOf (tasks : list Task.t) : list Task.t :=
  filter (λ t, Task.Type_ t = "milestone") tasks.

(** [n] successive calls of [GenerateID]. *)
Fixpoint generateIDs (n : nat) : M (list string) :=
  match n with
  | O => ret []
  | S n' => id <- GenerateID ;; ids <- generateIDs n' ;; ret (id :: ids)
  end.

(** Every identifier of a document: of the scenario, of the tasks and of the
    resources. *)
Definition documentIDs (sc : Scenario.t) : list string :=
  Scenario.ID sc :: (Task.ID <$> Scenario.Tasks sc)
    ++ (Resource.ID <$> Scenario.Resources sc).

(** ** Notions for the properties of the plan *)

(** The shape of a task: what the builder sets for each kind, and what it
    leaves unset for all of them. *)
Definition wellKinded (t : Task.t) : Prop :=
  Task.Note t = None ∧ Task.LeveledStart t = ""
  ∧ Task.StaticCost t = 0 ∧ Task.Recalculate t = "duration"
  ∧ Forall (λ p, PrerequisiteTask.Kind p = "") (Task.Prerequisites t)
  ∧ match Task.UserData t with
    | Some u => length (UserData.Items u) = 3%nat
    | None => True
    end
  ∧ ((Task.Type_ t = ""
      ∧ Task.ChildTasks t = [] ∧ is_Some (Task.UserData t)
      ∧ (length (Task.Assignments t) ≤ 1)%nat)
     ∨ (Task.Type_ t = "group"
        ∧ Task.Effort t = 0 ∧ Task.Prerequisites t = [] ∧ Task.Assignments t = [])
     ∨ (Task.Type_ t = "milestone"
        ∧ Task.Effort t = 0 ∧ Task.ChildTasks t = [] ∧ Task.Assignments t = []
        ∧ Task.UserData t = None ∧ Task.Prerequisites t ≠ [])).

(** What the builder reads of an epic: its summary, its link and its status. *)
Definition detailsOf (epic : option Ticket.t) : option (string * string * string) :=
  (λ e, (Ticket.Summary e, Ticket.Link e, Ticket.Status e)) <$> epic.

(** The id of the last of the [leaves] whose ticket has the key [k]. *)
Definition lastWithKey (tickets : list Ticket.t) (leaves : list Task.t) (k : string)
    : option string :=
  (λ p, Task.ID p.2) <$> last (filter (λ p, Ticket.Key p.1 = k) (zip tickets leaves)).

(** An identifier made from a value of the counter. *)
Definition generatedFrom (vs : list Z) (id : string) : Prop :=
  ∃ v, v ∈ vs ∧ (id = "gen" +:+ fmt_d v ∨ id = taskID v ∨ id = resourceID v).

(** The number of calls of [idCounter.Add] in a run of [buildScenario]. *)
Definition allocations (s : Serializer.t) (o : MapOrders) (tickets : list Ticket.t)
    (epics : gmap string Ticket.t) (c : Z) : nat :=
  let c1 := afterStaff tickets c in
  1 + length (assigneeNames tickets) + length tickets
    + 2 * length (epicPairs s o tickets c1) + length (donePart s o tickets epics c1).


(** ** Serialize over a writer

    [Serialize] writes to an [io.Writer]: the header, then the scenario
    through the encoder, then a newline, and returns the first error wrapped
    in what it was doing. A writer is its state and its [Write], which
    reports an error (its message) or none; a writer that reports none has
    taken all of [p]. The encoder buffers what it writes, so the document
    reaches the writer in pieces: [chunks] cuts it as this run does. After an
    error nothing more is written. *)

Module ToWriter.
Section Writers.
Context {W : Type}.
Variable Write : W → string → W * option string.
Variable chunks : string → list string.

(** [encoder.Encode(scenario)], as the writer sees it: the pieces of the
    document are written one after the other until a write fails. *)
Fixpoint Encode (wr : W) (ps : list string) : W * option string :=
  match ps with
  | [] => (wr, None)
  | p :: ps' =>
      match Write wr p with
      | (wr', Some err) => (wr', Some err)
      | (wr', None) => Encode wr' ps'
      end
  end.

(** Serialize writes Jira tickets as OmniPlan XML to the given writer. *)
Definition Serialize (s : Serializer.t) (o : MapOrders) (wr : W)
    (tickets : list Ticket.t) (epics : gmap string Ticket.t)
    : M (W * option string) :=
  scenario <- buildScenario s o tickets epics ;;
  match Write wr xmlHeader with
  | (wr, Some err) => ret (wr, Some ("writing XML header: " +:+ err))
  | (wr, None) =>
      match Encode wr (chunks (encodeNode 0 (ScenarioXml scenario))) with
      | (wr, Some err) => ret (wr, Some ("encoding scenario: " +:+ err))
      | (wr, None) =>
          match Write wr newline with
          | (wr, Some err) => ret (wr, Some ("writing final newline: " +:+ err))
          | (wr, None) => ret (wr, None)
          end
      end
  end.
End Writers.

(** byteSliceWriter is a simple io.Writer that writes to a byte slice: [Write]
    appends [p] and reports no error. *)
Definition byteSliceWriter_Write (buf p : string) : string * option string :=
  (buf +:+ p, None).

(** Serialize writes Jira tickets as OmniPlan XML to the given writer. *)
(** SerializeToString is a convenience method that serializes to a string:
    to a byte slice writer that starts empty, and with no epic map. *)
Definition SerializeToString (chunks : string → list string) (s : Serializer.t)
    (o : MapOrders) (tickets : list Ticket.t) : M (string * option string) :=
  r <- Serialize byteSliceWriter_Write chunks s o "" tickets ∅ ;;
  match r.2 with
  | Some err => ret ("", Some err)
  | None => ret (r.1, None)
  end.
End ToWriter.

(** A writer that appends: what it holds grows by what a [Write] accepts,
    which is all of [p] when it reports no error and the beginning of [p]
    otherwise. *)
Definition appends {W : Type} (Write : W → string → W * option string)
    (content : W → string) : Prop :=
  ∀ wr p, ∃ accepted rest,
    p = accepted +:+ rest
    ∧ content (Write wr p).1 = content wr +:+ accepted
    ∧ ((Write wr p).2 = None → rest = "").

(** ** The client of package jira *)

(** [strings.HasPrefix(s, prefix)] *)
Definition HasPrefix (s prefix : string) : bool := String.prefix prefix s.

(** [strings.Join(elems, sep)] *)
Fixpoint Join (elems : list string) (sep : string) : string :=
  match elems with
  | [] => ""
  | e :: rest =>
      match rest with
      | [] => e
      | _ => e +:+ sep +:+ Join rest sep
      end
  end.

(** [x == y] on [float64]: the two zeros are equal, a NaN equals nothing. *)
Definition float64_eq (x y : float64) : bool := SFeqb x y.

(** The value of a custom field, an [interface{}] as the JSON decoder fills
    it: nil, a [float64], a [string], or something else (a bool, a slice, a
    map); the code also expects an [int]. *)
Inductive Value : Type :=
| VNil
| VFloat64 (v : float64)
| VInt (v : Z)
| VString (v : string)
| VOther.

(** The parts of an issue of the Jira library that the client reads. A
    pointer is an option, [None] being nil. *)
Module User.
Record t : Type := mk { DisplayName : string; Name : string }.
End User.

(** [link.Type.Name] and [link.OutwardIssue], of which the key is read. *)
Module IssueLink.
Record t : Type := mk { TypeName : string; OutwardIssue : option string }.
End IssueLink.

Module IssueFields.
Record t : Type := mk {
  Summary : string;
  Assignee : option User.t;
  Status : option string;                   (* Status.Name behind the pointer *)
  IssueLinks : list (option IssueLink.t);
  Unknowns : option (gmap string Value)     (* a nil map is None *)
}.
End IssueFields.

Module Issue.
Record t : Type := mk { Key : string; Self : string; Fields : option IssueFields.t }.
End Issue.

(** The client: the handle of the library client (nil before [NewClient]) and
    the two field ids. [cloudClient] and [isCloud] are never set or read. *)
Module Client.
Record t (Handle : Type) : Type := mk {
  onpremiseClient : option Handle;
  effortCustomFieldID : string;
  epicLinkCustomFieldID : string
}.
Arguments mk {Handle}.
Arguments onpremiseClient {Handle}.
Arguments effortCustomFieldID {Handle}.
Arguments epicLinkCustomFieldID {Handle}.
End Client.

(** A search request: the JQL and the fields asked for ([StartAt] is always 0
    and [MaxResults] 1000). *)
Definition Request : Type := string * list string.

(** The process of the client: the counter and standard output, and the
    requests sent so far. *)
Record Process : Type := mkProcess {
  world : World;
  requests : list Request
}.

(** A run ends in a panic (a nil pointer is dereferenced) or returns. *)
Inductive Outcome (A : Type) : Type :=
| Panics
| Returns (a : A).
Arguments Panics {A}.
Arguments Returns {A}.

Definition J (A : Type) : Type := Process → Outcome A * Process.

Definition retJ {A} (x : A) : J A := λ p, (Returns x, p).

Definition bindJ {A B} (m : J A) (k : A → J B) : J B :=
  λ p, match m p with
       | (Returns x, p') => k x p'
       | (Panics, p') => (Panics, p')
       end.

Definition panic {A} : J A := λ p, (Panics, p).

Declare Scope jira_scope.
Notation "x <- m ;; k" := (bindJ m (λ x, k))
  (at level 100, m at next level, right associativity) : jira_scope.
Notation "m ;;; k" := (bindJ m (λ _, k))
  (at level 100, right associativity) : jira_scope.
Local Open Scope jira_scope.

(** [fmt.Printf] in the process of the client. *)
Definition PrintfJ (line : string) : J unit :=
  λ p, (Returns tt, mkProcess (Printf line (world p)).2 (requests p)).

Fixpoint forRangeJ {St A} (xs : list A) (body : St → A → J St) (s : St) : J St :=
  match xs with
  | [] => retJ s
  | x :: xs' => s' <- body s x ;; forRangeJ xs' body s'
  end.

(** The prefix that [NewClient] puts before a field id given as a bare
    number; the empty id stays empty. *)
Definition withPrefix (id : string) : string :=
  if bool_decide (id ≠ "") && negb (HasPrefix id "customfield_")
  then "customfield_" +:+ id else id.

(** The warning for a ticket without effort. *)
Definition effortWarning (key summary : string) : string :=
  "Warning: Ticket " +:+ key +:+ ": " +:+ summary +:+ " has missing or 0 effort"
    +:+ newline.

(** The warning for a batch of epics that could not be fetched. *)
Definition epicWarning (err : string) : string :=
  "Warning: Failed to fetch epic details: " +:+ err +:+ newline.

(** The assignee of an issue: the display name, or the name when the display
    name is empty. *)
Definition assigneeOf (fields : IssueFields.t) : string :=
  match IssueFields.Assignee fields with
  | Some user =>
      if decide (User.DisplayName user = "") then User.Name user
      else User.DisplayName user
  | None => ""
  end.

(** The epic link of an issue: the value of the epic link field when the
    field is configured and holds a string. *)
Definition epicLinkOf (epicLinkCustomFieldID : string) (fields : IssueFields.t)
    : string :=
  if decide (epicLinkCustomFieldID ≠ "") then
    match default ∅ (IssueFields.Unknowns fields) !! epicLinkCustomFieldID with
    | Some (VString strVal) => strVal
    | _ => ""
    end
  else "".

(** The body of the loop over the links of an issue. *)
Definition linkBody (dependencyKeys : list string) (link : option IssueLink.t)
    : J (list string) :=
  match link with
  | None => panic
  | Some link =>
      if decide (IssueLink.TypeName link = "Dependent") then
        match IssueLink.OutwardIssue link with
        | Some key => retJ (dependencyKeys ++ [key])
        | None => retJ dependencyKeys
        end
      else retJ dependencyKeys
  end.

(** The fields asked for in the search for the tickets. *)
Definition ticketFields {Handle} (c : Client.t Handle) : list string :=
  ["summary"; "assignee"; "status"; "issuelinks"; Client.effortCustomFieldID c]
    ++ (if decide (Client.epicLinkCustomFieldID c ≠ "")
        then [Client.epicLinkCustomFieldID c] else []).

Definition epicFields : list string := ["summary"; "status"; "issuelinks"].

(** The JQL that asks for a batch of epics. *)
Definition epicQuery (batchKeys : list string) : string :=
  "key in (" +:+ Join batchKeys "," +:+ ")".

(** The loop [for i := 0; i < len(epicKeys); i += chunkSize] with its slice
    [epicKeys[i:end]], where [end] is [i + chunkSize] cut at the length. The
    loop ends when [i] reaches the length; [fuel] bounds the number of
    rounds, and the length is enough. *)
Definition chunkSize : nat := 50.

Fixpoint forChunks {St} (fuel i : nat) (epicKeys : list string)
    (body : St → list string → J St) (s : St) : J St :=
  match fuel with
  | O => retJ s
  | S fuel' =>
      if (i <? length epicKeys)%nat then
        let end_ := if (length epicKeys <? i + chunkSize)%nat
                    then length epicKeys else (i + chunkSize)%nat in
        let batchKeys := take (end_ - i) (drop i epicKeys) in
        s' <- body s batchKeys ;;
        forChunks fuel' (i + chunkSize) epicKeys body s'
      else retJ s
  end.

Section Client.
Context {Handle : Type}.
(** The library: [onpremise.NewClient] with the endpoint and the token the
    transport adds to every request, either an error (its message) or a
    client; [fmt.Sscanf] with the verb [%f]; and the server behind
    [Issue.Search], which answers a request, knowing the requests before it,
    with an error or with issues. *)
Variable onpremise_NewClient : string → string → string + Handle.
Variable Sscanf_f : string → option float64.
Variable Search : Handle → list Request → string + list Issue.t.

(** NewClient creates a new Jira client. *)
Definition NewClient (endpoint pat effortCustomFieldID epicLinkCustomFieldID : string)
    : string + Client.t Handle :=
  match onpremise_NewClient endpoint pat with
  | inl err => inl err
  | inr client =>
      inr (Client.mk (Some client) (withPrefix effortCustomFieldID)
             (withPrefix epicLinkCustomFieldID))
  end.

(** extractEffortDays extracts the effort in days from the custom field map. *)
Definition extractEffortDays (unknowns : option (gmap string Value))
    (effortFieldID : string) : float64 * bool :=
  match unknowns with
  | None => (float64_zero, false)
  | Some unknowns =>
      match unknowns !! effortFieldID with
      | None | Some VNil => (float64_zero, false)
      | Some (VFloat64 v) => (v, true)
      | Some (VInt v) => (float64_of_Z v, true)
      | Some (VString v) =>
          match Sscanf_f v with
          | Some f => (f, true)
          | None => (float64_zero, false)
          end
      | Some VOther => (float64_zero, false)
      end
  end.

(** [c.onpremiseClient.Issue.Search]: the request is sent and answered. *)
Definition IssueSearch (client : Handle) (jql : string) (fields : list string)
    : J (string + list Issue.t) :=
  λ p, let sent := requests p ++ [(jql, fields)] in
       (Returns (Search client sent), mkProcess (world p) sent).

(** The body of the loop over the issues: one ticket per issue. *)
Definition ticketBody (c : Client.t Handle) (tickets : list Ticket.t) (i : Issue.t)
    : J (list Ticket.t) :=
  match Issue.Fields i with
  | None => panic
  | Some fields =>
      let assignee := assigneeOf fields in
      let '(effortDays, found) :=
        extractEffortDays (IssueFields.Unknowns fields) (Client.effortCustomFieldID c) in
      (if negb found || float64_eq effortDays float64_zero
       then PrintfJ (effortWarning (Issue.Key i) (IssueFields.Summary fields))
       else retJ tt) ;;;
      let epicLink := epicLinkOf (Client.epicLinkCustomFieldID c) fields in
      dependencyKeys <- forRangeJ (IssueFields.IssueLinks fields) linkBody [] ;;
      match IssueFields.Status fields with
      | None => panic
      | Some status =>
          retJ (tickets ++
                  [Ticket.mk (Issue.Key i) (IssueFields.Summary fields) (Issue.Self i)
                     assignee status effortDays epicLink dependencyKeys])
      end
  end.

(** The body of the loop over the epics of a batch. *)
Definition epicEntry (epicMap : gmap string Ticket.t) (e : Issue.t)
    : J (gmap string Ticket.t) :=
  match Issue.Fields e with
  | None => panic
  | Some fields =>
      match IssueFields.Status fields with
      | None => panic
      | Some status =>
          retJ (<[Issue.Key e :=
                    Ticket.mk (Issue.Key e) (IssueFields.Summary fields) (Issue.Self e)
                      "" status float64_zero "" []]> epicMap)
      end
  end.

(** One batch: the epics are fetched and entered; a failed search is
    reported and the loop goes on. *)
Definition epicBatch (client : Handle) (epicMap : gmap string Ticket.t)
    (batchKeys : list string) : J (gmap string Ticket.t) :=
  r <- IssueSearch client (epicQuery batchKeys) epicFields ;;
  match r with
  | inl err => PrintfJ (epicWarning err) ;;; retJ epicMap
  | inr epics => forRangeJ epics epicEntry epicMap
  end.

(** [uniqueEpics] after the loop over the tickets. *)
Definition uniqueEpicsOf (tickets : list Ticket.t) : gmap string bool :=
  foldl (λ uniqueEpics t,
           if decide (Ticket.EpicLink t ≠ "")
           then <[Ticket.EpicLink t := true]> uniqueEpics else uniqueEpics)
        ∅ tickets.

(** GetTickets fetches the tickets of a JQL query and the epics they link
    to. [order] is the order in which the run ranges over [uniqueEpics]. *)
Definition GetTickets (order : list string) (c : Client.t Handle) (jql : string)
    : J (string + list Ticket.t * gmap string Ticket.t) :=
  match Client.onpremiseClient c with
  | None => retJ (inl "client not initialized")
  | Some client =>
      r <- IssueSearch client jql (ticketFields c) ;;
      match r with
      | inl err => retJ (inl err)
      | inr issues =>
          tickets <- forRangeJ issues (ticketBody c) [] ;;
          epicMap <-
            (if decide (Client.epicLinkCustomFieldID c ≠ "") then
               let uniqueEpics := uniqueEpicsOf tickets in
               if bool_decide (0 < size uniqueEpics)%nat then
                 let epicKeys := (rangeMap order uniqueEpics).*1 in
                 forChunks (length epicKeys) 0 epicKeys (epicBatch client) ∅
               else retJ ∅
             else retJ ∅) ;;
          retJ (inr (tickets, epicMap))
      end
  end.
End Client.

(** *** The client in closed form *)

(** The dependency keys of the links of an issue. *)
Definition dependencyKeysOf (links : list (option IssueLink.t)) : list string :=
  omap (λ link, link ≫= λ link,
          if decide (IssueLink.TypeName link = "Dependent")
          then IssueLink.OutwardIssue link else None)
       links.

(** An issue with everything the client dereferences. *)
Definition wellFormed (i : Issue.t) : Prop :=
  match Issue.Fields i with
  | Some fields =>
      is_Some (IssueFields.Status fields)
      ∧ Forall is_Some (IssueFields.IssueLinks fields)
  | None => False
  end.

(** The batches of the loop over the epic keys. *)
Fixpoint batchesFrom (fuel i : nat) (epicKeys : list string) : list (list string) :=
  match fuel with
  | O => []
  | S fuel' =>
      if (i <? length epicKeys)%nat then
        let end_ := if (length epicKeys <? i + chunkSize)%nat
                    then length epicKeys else (i + chunkSize)%nat in
        take (end_ - i) (drop i epicKeys) :: batchesFrom fuel' (i + chunkSize) epicKeys
      else []
  end.

Definition batches (epicKeys : list string) : list (list string) :=
  batchesFrom (length epicKeys) 0 epicKeys.

(** The ticket of an epic. *)
Definition epicTicket (e : Issue.t) : Ticket.t :=
  Ticket.mk (Issue.Key e) (default "" (IssueFields.Summary <$> Issue.Fields e))
    (Issue.Self e) ""
    (default "" (Issue.Fields e ≫= IssueFields.Status)) float64_zero "" [].

(** The effort warnings for a list of tickets. *)
Definition effortWarnings (tickets : list Ticket.t) : list string :=
  (λ t, effortWarning (Ticket.Key t) (Ticket.Summary t))
    <$> filter (λ t, float64_eq (Ticket.EffortDays t) float64_zero = true) tickets.

Section ClientClosedForm.
Context {Handle : Type}.
Variable Sscanf_f : string → option float64.
Variable Search : Handle → list Request → string + list Issue.t.

(** The ticket of a well-formed issue. *)
Definition ticketOf (c : Client.t Handle) (i : Issue.t) : Ticket.t :=
  let fields := Issue.Fields i in
  Ticket.mk (Issue.Key i) (default "" (IssueFields.Summary <$> fields)) (Issue.Self i)
    (default "" (assigneeOf <$> fields))
    (default "" (fields ≫= IssueFields.Status))
    (extractEffortDays Sscanf_f (fields ≫= IssueFields.Unknowns)
       (Client.effortCustomFieldID c)).1
    (default "" (epicLinkOf (Client.epicLinkCustomFieldID c) <$> fields))
    (dependencyKeysOf (default [] (IssueFields.IssueLinks <$> fields))).

(** The server answers with well-formed issues only. *)
Definition answersWellFormed (client : Handle) : Prop :=
  ∀ sent, match Search client sent with
          | inr issues => Forall wellFormed issues
          | inl _ => True
          end.

(** The epic phase over a list of batches: the epic map, the warnings and
    the requests at its end. *)
Fixpoint epicPhase (client : Handle) (bs : list (list string)) (sent : list Request)
    (epicMap : gmap string Ticket.t)
    : gmap string Ticket.t * list string * list Request :=
  match bs with
  | [] => (epicMap, [], sent)
  | b :: bs' =>
      let sent' := sent ++ [(epicQuery b, epicFields)] in
      match Search client sent' with
      | inl err =>
          let '(m, ws, sent'') := epicPhase client bs' sent' epicMap in
          (m, epicWarning err :: ws, sent'')
      | inr epics =>
          epicPhase client bs' sent'
            (insertAll epicMap ((λ e, (Issue.Key e, epicTicket e)) <$> epics))
      end
  end.
End ClientClosedForm.
Local Close Scope jira_scope.

(** What the process prints is appended to its standard output. *)
Definition printed_more (lines : list string) (p : Process) : Process :=
  mkProcess (mkWorld (idCounter (world p)) (stdout (world p) ++ lines)) (requests p).

(** An entry of the epic map: the ticket of an epic that an answer to one of
    the epic queries holds, under the key of that epic. *)
Definition epicEntryOf {Handle : Type}
    (Search : Handle → list Request → string + list Issue.t) (client : Handle)
    (k : string) (t : Ticket.t) : Prop :=
  ∃ sent b epics e,
    Search client (sent ++ [(epicQuery b, epicFields)]) = inr epics
    ∧ e ∈ epics ∧ Issue.Key e = k ∧ t = epicTicket e.

(** ** Sample inputs, after the tests of the package *)

Definition sampleTicket (key summary assignee epicLink : string)
    (effortDays : float64) (deps : list string) : Ticket.t :=
  Ticket.mk key summary ("http://jira/" +:+ key) assignee "Open" effortDays
    epicLink deps.

Definition sampleEpic (key summary : string) : Ticket.t :=
  Ticket.mk key summary ("http://jira/" +:+ key) "" "In Progress" float64_zero "" [].

(** TestSerializer_Serialize_WithEpicGrouping: one ticket in an epic, one
    outside. *)
Definition groupingTickets : list Ticket.t :=
  [sampleTicket "TASK-1" "Task in Epic" "" "EPIC-1" float64_zero [];
   sampleTicket "TASK-2" "Task No Epic" "" "" float64_zero []].

Definition groupingEpics : gmap string Ticket.t :=
  {[ "EPIC-1" := sampleEpic "EPIC-1" "Big Project Epic" ]}.

(** Tickets of two epics, the second one depending on the first. *)
Definition twoEpicTickets : list Ticket.t :=
  [sampleTicket "TASK-1" "First Task" "Alice Smith" "EPIC-1" (float64_of_Z 2) [];
   sampleTicket "TASK-2" "Second Task" "Bob Jones" "EPIC-2" (float64_of_Z 5)
     ["TASK-1"; "TASK-9"];
   sampleTicket "TASK-3" "Third Task" "Alice Smith" "EPIC-1" float64_zero []].

Definition twoEpics : gmap string Ticket.t :=
  {[ "EPIC-1" := sampleEpic "EPIC-1" "Epic 1";
     "EPIC-2" := sampleEpic "EPIC-2" "Epic 2" ]}.

(** TestSerializer_Serialize: three tickets of two assignees, the second
    depending on the first, the third without effort. *)
Definition testTickets : list Ticket.t :=
  [Ticket.mk "TEST-1" "First Task" "https://jira.example.com/browse/TEST-1"
     "Alice Smith" "" (float64_of_Z 2) "" [];
   Ticket.mk "TEST-2" "Second Task" "https://jira.example.com/browse/TEST-2"
     "Bob Jones" "" (float64_of_Z 5) "" ["TEST-1"];
   Ticket.mk "TEST-3" "Third Task" "https://jira.example.com/browse/TEST-3"
     "Alice Smith" "" float64_zero "" []].

(** [strings.Contains(s, sub)] *)
Definition Contains (s sub : string) : bool :=
  match String.index 0 sub s with Some _ => true | None => false end.

(** A process that has not yet allocated an identifier. *)
Definition freshWorld : World := mkWorld 0 [].

(** An epic map with an epic that no ticket links to, and with another key
    and assignee for the epic of the first ticket. *)
Definition otherEpics : gmap string Ticket.t :=
  {[ "EPIC-1" := Ticket.mk "EPIC-0" "Big Project Epic" "http://jira/EPIC-1"
                   "Carol White" "In Progress" (float64_of_Z 3) "" ["TASK-2"];
     "EPIC-2" := sampleEpic "EPIC-2" "Epic 2" ]}.

(** An encoder that writes the first byte of the document on its own. *)
Definition firstByteApart (document : string) : list string :=
  match document with
  | "" => []
  | String a rest => [String a ""; rest]
  end.

(** A writer of at most [n] bytes: it holds what it has accepted and how many
    more bytes fit. *)
Definition boundedWrite (wr : string * nat) (p : string)
    : (string * nat) * option string :=
  if (String.length p <=? wr.2)%nat
  then ((wr.1 +:+ p, (wr.2 - String.length p)%nat), None)
  else ((wr.1 +:+ String.substring 0 wr.2 p, 0%nat), Some "no space left on device").

(** Two issues as a search returns them, the first in an epic and depending
    on the second, the second without effort. *)
Definition sampleIssues : list Issue.t :=
  [Issue.mk "PROJ-1" "https://jira.example.com/rest/api/2/issue/10001"
     (Some (IssueFields.mk "First Task" (Some (User.mk "Alice Smith" "asmith"))
              (Some "Open")
              [Some (IssueLink.mk "Dependent" (Some "PROJ-2"));
               Some (IssueLink.mk "Relates" (Some "PROJ-9"))]
              (Some {[ "customfield_10105" := VFloat64 (float64_of_Z 2);
                       "customfield_10106" := VString "EPIC-1" ]})));
   Issue.mk "PROJ-2" "https://jira.example.com/rest/api/2/issue/10002"
     (Some (IssueFields.mk "Second Task" (Some (User.mk "" "bjones"))
              (Some "Open") [] (Some {[ "customfield_10105" := VNil ]})))].

Definition sampleEpicIssues : list Issue.t :=
  [Issue.mk "EPIC-1" "https://jira.example.com/rest/api/2/issue/10000"
     (Some (IssueFields.mk "Big Project Epic" None (Some "In Progress") [] None))].

(** A server for the examples: the first request is answered with the two
    issues, the second with the epic of the first issue, any other with an
    error. *)
Definition sampleSearch (client : unit) (sent : list Request)
    : string + list Issue.t :=
  match sent with
  | [_] => inr sampleIssues
  | [_; _] => inr sampleEpicIssues
  | _ => inl "timeout"
  end.

Definition sampleClient : Client.t unit :=
  Client.mk (Some tt) "customfield_10105" "customfield_10106".

(** A process that has sent no request yet. *)
Definition freshProcess : Process := mkProcess freshWorld [].

(** ** Loops and the counter *)

Lemma idCounter_Add_1 (w : World) :
  idCounter_Add 1 w = (nextVal (idCounter w), advance 1 w).
Proof. reflexivity. Qed.

Lemma iterNext_add (n k : nat) (v : Z) :
  iterNext (n + k) v = iterNext k (iterNext n v).
Proof. revert v. induction n as [|n IH]; intros v; simpl; auto. Qed.

Lemma advance_advance (n k : nat) (w : World) :
  advance k (advance n w) = advance (n + k) w.
Proof. unfold advance; simpl. by rewrite iterNext_add. Qed.

Lemma advance_0 (w : World) : advance 0 w = w.
Proof. by destruct w. Qed.

Lemma length_vals (v : Z) (n : nat) : length (vals v n) = n.
Proof. revert v. induction n as [|n IH]; intros v; simpl; auto. Qed.

Lemma vals_app (v : Z) (n k : nat) :
  vals v (n + k) = vals v n ++ vals (iterNext n v) k.
Proof.
  revert v. induction n as [|n IH]; intros v; simpl; [done|].
  by rewrite IH.
Qed.

(** ** Resource derivation *)

Lemma staff_loop (tickets : list Ticket.t) (a2r : gmap string string)
    (staff : list Resource.t) (refs : list Reference.t) (w : World) :
  forRange tickets staffBody (a2r, staff, refs) w =
  let names := firstSeen (dom a2r) (Ticket.Assignee <$> tickets) in
  let ids := resourceID <$> vals (idCounter w) (length names) in
  ((insertAll a2r (zip names ids),
    staff ++ zip_with staffResource names ids,
    refs ++ (Reference.mk <$> ids)),
   advance (length names) w).
Proof.
  revert a2r staff refs w.
  induction tickets as [|t ts IH]; intros a2r staff refs w; simpl.
  - unfold ret. by rewrite !app_nil_r, advance_0.
  - unfold bind, staffBody at 1.
    destruct (decide (Ticket.Assignee t ≠ "")) as [Hne|He].
    + destruct (a2r !! Ticket.Assignee t) as [rid|] eqn:Hl.
      * unfold ret. rewrite IH.
        rewrite decide_False; [done|].
        intros [_ Hn]. apply Hn, elem_of_dom. eauto.
      * unfold bind. rewrite idCounter_Add_1. unfold ret. rewrite IH.
        rewrite dom_insert_L.
        rewrite decide_True by (split; [done|]; by apply not_elem_of_dom).
        simpl. rewrite advance_advance. simpl.
        by rewrite <-!app_assoc.
    + unfold ret. rewrite IH.
      rewrite decide_False; [done|]. intros [? _]. done.
Qed.

(** ** The first pass *)

Lemma numbered_cons (v : Z) (t : Ticket.t) (ts : list Ticket.t) :
  numbered v (t :: ts) = (t, taskID (nextVal v)) :: numbered (nextVal v) ts.
Proof. reflexivity. Qed.

Lemma length_numbered (v : Z) (ts : list Ticket.t) :
  length (numbered v ts) = length ts.
Proof.
  unfold numbered. rewrite length_zip_with, length_fmap, length_vals. lia.
Qed.

Lemma fst_numbered (v : Z) (ts : list Ticket.t) : (numbered v ts).*1 = ts.
Proof.
  unfold numbered. apply fst_zip. rewrite length_fmap, length_vals. lia.
Qed.

Lemma leaf_loop (s : Serializer.t) (a2r : gmap string string)
    (tickets : list Ticket.t) (m : gmap string string) (ptrs : list Task.t)
    (e2c : gmap string (list Reference.t)) (refs : list Reference.t) (w : World) :
  forRange tickets (leafBody s a2r) (m, ptrs, e2c, refs) w =
  let nb := numbered (idCounter w) tickets in
  ((insertAll m ((λ p, (Ticket.Key p.1, p.2)) <$> nb),
    ptrs ++ ((λ p, leafTask a2r p.2 p.1) <$> nb),
    foldl addChild e2c (filter (λ p, grouped s p.1 = true) nb),
    refs ++ ((λ p, Reference.mk p.2) <$> filter (λ p, grouped s p.1 = false) nb)),
   advance (length tickets) w).
Proof.
  revert m ptrs e2c refs w.
  induction tickets as [|t ts IH]; intros m ptrs e2c refs w.
  - simpl. unfold ret. by rewrite !app_nil_r, advance_0.
  - cbn [forRange]. unfold bind at 1, leafBody at 1.
    unfold bind at 1. rewrite idCounter_Add_1.
    rewrite numbered_cons. cbn zeta.
    destruct (grouped s t) eqn:Hg; unfold ret; rewrite IH; cbn zeta;
      rewrite advance_advance; simpl idCounter;
      rewrite !fmap_cons, !filter_cons; simpl fst; simpl snd; rewrite Hg.
    + rewrite decide_True by done. rewrite decide_False by done.
      simpl. by rewrite <-!app_assoc.
    + rewrite decide_False by done. rewrite decide_True by done.
      simpl. by rewrite <-!app_assoc.
Qed.

(** ** The epic loop *)

Lemma groupTask_ID epics k gid ch : Task.ID (groupTask epics k gid ch) = gid.
Proof. unfold groupTask. by destruct (epicDetails epics k) as [[??]?]. Qed.

Lemma epic_loop (epics : gmap string Ticket.t) (kvs : list (string * list Reference.t))
    (tasks : list Task.t) (refs : list Reference.t)
    (et em : gmap string Task.t) (w : World) :
  forRange kvs (epicBody epics) (tasks, refs, et, em) w =
  ((tasks ++ epicBlock epics (idCounter w) kvs,
    refs ++ ((λ t, Reference.mk (Task.ID t)) <$> epicBlock epics (idCounter w) kvs),
    insertAll et (epicGroupsOf epics (idCounter w) kvs),
    insertAll em (epicMilestonesOf epics (idCounter w) kvs)),
   advance (2 * length kvs) w).
Proof.
  revert tasks refs et em w.
  induction kvs as [|[k ch] kvs IH]; intros tasks refs et em w.
  - simpl. unfold ret. by rewrite !app_nil_r, advance_0.
  - cbn [forRange]. unfold bind at 1, epicBody at 1.
    unfold bind at 1. rewrite idCounter_Add_1.
    unfold bind at 1. rewrite idCounter_Add_1. unfold ret.
    rewrite IH. rewrite !advance_advance. simpl idCounter.
    cbn [epicBlock epicGroupsOf epicMilestonesOf fst snd fmap list_fmap].
    cbn zeta. rewrite groupTask_ID. simpl Task.ID.
    replace (2 * length ((k, ch) :: kvs))%nat with (1 + 1 + 2 * length kvs)%nat
      by (simpl; lia).
    unfold taskID. by rewrite <-!app_assoc.
Qed.

(** ** The second pass *)

Lemma appendPrerequisites_nil (t : Task.t) : Task.appendPrerequisites [] t = t.
Proof.
  destruct t. unfold Task.appendPrerequisites, Task.setPrerequisites; simpl.
  by rewrite app_nil_r.
Qed.

Lemma appendPrerequisites_app (p q : list PrerequisiteTask.t) (t : Task.t) :
  Task.appendPrerequisites q (Task.appendPrerequisites p t)
  = Task.appendPrerequisites (p ++ q) t.
Proof.
  destruct t. unfold Task.appendPrerequisites, Task.setPrerequisites; simpl.
  by rewrite app_assoc.
Qed.

Lemma dep_loop (m : gmap string string) (i : nat) (t : Ticket.t)
    (deps : list string) (ptrs : list Task.t) (w : World) :
  forRange deps (depBody m i t) ptrs w =
  (alter (Task.appendPrerequisites (resolveKeys m deps)) i ptrs,
   mkWorld (idCounter w) (stdout w ++ warnKeys m (Ticket.Key t) deps)).
Proof.
  revert ptrs w. induction deps as [|d ds IH]; intros ptrs w.
  - simpl. unfold ret, warnKeys. simpl. rewrite app_nil_r. destruct w; simpl.
    f_equal. symmetry. apply list_alter_id. intros. apply appendPrerequisites_nil.
  - cbn [forRange]. unfold bind at 1, depBody at 1, resolveKeys, warnKeys.
    simpl omap. rewrite filter_cons.
    destruct (m !! d) as [depID|] eqn:Hd; simpl.
    + unfold ret. rewrite IH. f_equal.
      rewrite list_alter_alter_eq. apply list_alter_ext; [|done].
      intros x _. simpl. by rewrite appendPrerequisites_app.
    + unfold bind, Printf, ret. rewrite IH. simpl.
      unfold warnKeys. by rewrite <-app_assoc.
Qed.

Lemma resolve_loop (m : gmap string string) (tickets : list Ticket.t)
    (pre ptrs : list Task.t) (w : World) :
  length ptrs = length tickets →
  forRange (imap (λ i, pair (length pre + i)%nat) tickets) (resolveBody m)
    (pre ++ ptrs) w =
  (pre ++ zip_with (λ t task, Task.appendPrerequisites (resolved m t) task)
            tickets ptrs,
   mkWorld (idCounter w) (stdout w ++ flat_map (warnings m) tickets)).
Proof.
  revert pre ptrs w.
  induction tickets as [|t ts IH]; intros pre ptrs w Hlen.
  - destruct ptrs; [|done]. simpl. unfold ret. rewrite !app_nil_r. by destruct w.
  - destruct ptrs as [|p ps]; [done|]. injection Hlen as Hlen.
    cbn [imap forRange]. unfold bind at 1, resolveBody at 1. simpl fst; simpl snd.
    rewrite dep_loop.
    rewrite alter_app_r. cbn [alter list_alter].
    rewrite (cons_middle _ pre ps), app_assoc.
    rewrite (imap_ext _ (λ i, pair (length (pre ++ [Task.appendPrerequisites
                (resolveKeys m (Ticket.DependencyKeys t)) p]) + i)%nat)).
    + rewrite IH by done. simpl. rewrite <-!app_assoc. done.
    + intros i x _. simpl. rewrite length_app. simpl. f_equal. lia.
Qed.

(** ** [buildTasksFromTickets] in closed form *)

Lemma zip_with_fmap_zip {A B C D} (f : A → C → D) (g : A * B → C)
    (xs : list A) (ys : list B) :
  zip_with f xs (g <$> zip xs ys) = (λ p, f p.1 (g p)) <$> zip xs ys.
Proof.
  revert ys. induction xs as [|x xs IH]; intros [|y ys]; simpl; try done.
  by rewrite IH.
Qed.

Lemma epic_phase (s : Serializer.t) (o : MapOrders) (tickets : list Ticket.t)
    (epics : gmap string Ticket.t) (c : Z) (w : World) :
  idCounter w = afterLeaves tickets c →
  (if Serializer.GroupByEpic s
   then forRange (rangeMap (epicOrder o) (childMap s tickets c)) (epicBody epics)
          (([], topRefs s tickets c, ∅, ∅) : Pass2)
   else ret (([], topRefs s tickets c, ∅, ∅) : Pass2)) w =
  ((epicPart s o tickets epics c,
    topRefs s tickets c
      ++ ((λ t, Reference.mk (Task.ID t)) <$> epicPart s o tickets epics c),
    insertAll ∅ (epicGroupsOf epics (afterLeaves tickets c) (epicPairs s o tickets c)),
    milestoneMap s o tickets epics c),
   advance (2 * length (epicPairs s o tickets c)) w).
Proof.
  intros Hc. unfold epicPart, milestoneMap, epicPairs.
  destruct (Serializer.GroupByEpic s).
  - rewrite epic_loop, Hc. done.
  - unfold ret. simpl. by rewrite app_nil_r, advance_0.
Qed.

Lemma buildTasksFromTickets_eq (s : Serializer.t) (o : MapOrders)
    (tickets : list Ticket.t) (a2r : gmap string string)
    (epics : gmap string Ticket.t) (w : World) :
  buildTasksFromTickets s o tickets a2r epics w =
  let c := idCounter w in
  ((builtTasks s o tickets a2r epics c, builtRefs s o tickets epics c),
   mkWorld (iterNext (length (donePart s o tickets epics c))
              (afterEpics s o tickets c))
           (stdout w ++ printed tickets c)).
Proof.
  unfold buildTasksFromTickets. unfold bind at 1. rewrite leaf_loop. cbn zeta.
  rewrite !app_nil_l.
  fold (childMap s tickets (idCounter w)) (topRefs s tickets (idCounter w))
       (keyMap tickets (idCounter w)).
  unfold bind at 1.
  rewrite (epic_phase s o tickets epics (idCounter w)) by done.
  rewrite advance_advance.
  set (w2 := advance _ w).
  assert (Hw2 : idCounter w2 = afterEpics s o tickets (idCounter w)).
  { unfold w2, afterEpics, afterLeaves, advance. cbn [idCounter].
    apply iterNext_add. }
  assert (Hs2 : stdout w2 = stdout w) by done.
  clearbody w2.
  unfold builtTasks, builtRefs, donePart. cbn zeta.
  set (prereqs := donePrereqs s o _ _).
  unfold indexed.
  pose proof (resolve_loop (keyMap tickets (idCounter w)) tickets []
    ((λ p, leafTask a2r p.2 p.1) <$> numbered (idCounter w) tickets)) as Hres.
  simpl in Hres.
  assert (Hleaf : zip_with (λ t task, Task.appendPrerequisites
                     (resolved (keyMap tickets (idCounter w)) t) task) tickets
                   ((λ p, leafTask a2r p.2 p.1) <$> numbered (idCounter w) tickets)
                  = leafPart tickets a2r (idCounter w)).
  { unfold numbered. by rewrite zip_with_fmap_zip. }
  unfold bind at 1.
  destruct (Serializer.MilestoneDone s); simpl andb.
  - destruct (bool_decide (0 < length prereqs)%nat).
    + unfold bind at 1. rewrite idCounter_Add_1. unfold ret at 1.
      unfold bind. rewrite Hres by (by rewrite length_fmap, length_numbered).
      unfold ret. rewrite Hleaf.
      cbn [advance idCounter stdout iterNext length]. rewrite Hw2, Hs2.
      rewrite fmap_app. unfold printed, taskID. simpl.
      by rewrite <-!app_assoc.
    + unfold ret at 1. unfold bind.
      rewrite Hres by (by rewrite length_fmap, length_numbered).
      unfold ret. rewrite Hleaf.
      cbn [advance idCounter stdout iterNext length app]. rewrite Hw2, Hs2.
      by rewrite !app_nil_r.
  - unfold ret at 1. unfold bind.
    rewrite Hres by (by rewrite length_fmap, length_numbered).
    unfold ret. rewrite Hleaf.
    cbn [advance idCounter stdout iterNext length app]. rewrite Hw2, Hs2.
    by rewrite !app_nil_r.
Qed.

(** ** [buildScenario] in closed form *)

Lemma filter_all {A} (P : A → Prop) `{∀ x, Decision (P x)} (l : list A) :
  (∀ x, x ∈ l → P x) → filter P l = l.
Proof.
  induction l as [|x l IH]; intros HP; [done|].
  rewrite filter_cons_True by (apply HP; left).
  f_equal. apply IH. intros y Hy. apply HP. by right.
Qed.

Lemma firstSeen_filter (S : gset string) (l : list string) :
  firstSeen S l = filter (λ x, x ∉ S) (distinct (filter (λ a, a ≠ "") l)).
Proof.
  revert S. induction l as [|x l IH]; intros S; [done|].
  cbn [firstSeen]. rewrite filter_cons.
  destruct (decide (x ≠ "")) as [Hx|Hx].
  - cbn [distinct]. rewrite filter_cons, list_filter_filter.
    destruct (decide (x ∉ S)) as [HS|HS].
    + rewrite decide_True by done. rewrite IH. f_equal.
      apply list_filter_iff. intros y.
      rewrite not_elem_of_union, not_elem_of_singleton. tauto.
    + rewrite decide_False by tauto. rewrite IH.
      apply list_filter_iff. intros y. split; [|tauto].
      intros Hy. split; [done|]. by intros ->.
  - rewrite decide_False by tauto. apply IH.
Qed.

Lemma firstSeen_empty (l : list string) :
  firstSeen ∅ l = distinct (filter (λ a, a ≠ "") l).
Proof.
  rewrite firstSeen_filter. apply filter_all. set_solver.
Qed.

Lemma buildScenario_eq (s : Serializer.t) (o : MapOrders)
    (tickets : list Ticket.t) (epics : gmap string Ticket.t) (w : World) :
  buildScenario s o tickets epics w =
  (builtScenario s o tickets epics (idCounter w),
   finalWorld s o tickets epics (idCounter w) w).
Proof.
  unfold buildScenario, GenerateID.
  unfold bind at 1. unfold bind at 1. rewrite idCounter_Add_1. unfold ret at 1.
  unfold bind at 1. rewrite staff_loop. cbn zeta.
  rewrite dom_empty_L, firstSeen_empty.
  fold (assigneeNames tickets). rewrite !app_nil_l, advance_advance.
  cbn [advance idCounter iterNext Nat.add].
  fold (staffIDs tickets (idCounter w)) (afterStaff tickets (idCounter w)).
  fold (assigneeMap tickets (idCounter w)).
  unfold bind at 1. rewrite buildTasksFromTickets_eq. cbn zeta.
  unfold ret. reflexivity.
Qed.

(** ** The fields of the tasks *)

Lemma leafTask_fields (a2r : gmap string string) (id : string) (t : Ticket.t) :
  Task.ID (leafTask a2r id t) = id
  ∧ leafOf t (leafTask a2r id t)
  ∧ Task.Prerequisites (leafTask a2r id t) = []
  ∧ Task.Assignments (leafTask a2r id t)
    = (if decide (Ticket.Assignee t ≠ "")
       then match a2r !! Ticket.Assignee t with
            | Some rid => [Reference.mk rid]
            | None => []
            end
       else []).
Proof.
  unfold leafTask, leafOf.
  destruct (decide (Ticket.Assignee t ≠ "")); [|done].
  by destruct (a2r !! Ticket.Assignee t).
Qed.

Lemma appendPrerequisites_fields (p : list PrerequisiteTask.t) (x : Task.t) :
  Task.ID (Task.appendPrerequisites p x) = Task.ID x
  ∧ (∀ t, leafOf t x → leafOf t (Task.appendPrerequisites p x))
  ∧ Task.Type_ (Task.appendPrerequisites p x) = Task.Type_ x
  ∧ Task.ChildTasks (Task.appendPrerequisites p x) = Task.ChildTasks x
  ∧ Task.Prerequisites (Task.appendPrerequisites p x) = Task.Prerequisites x ++ p
  ∧ Task.Assignments (Task.appendPrerequisites p x) = Task.Assignments x.
Proof. by destruct x. Qed.

Lemma leafTask_ID (a2r : gmap string string) (id : string) (t : Ticket.t) :
  Task.ID (leafTask a2r id t) = id.
Proof. apply leafTask_fields. Qed.

Lemma appendPrerequisites_ID (p : list PrerequisiteTask.t) (x : Task.t) :
  Task.ID (Task.appendPrerequisites p x) = Task.ID x.
Proof. by destruct x. Qed.

Lemma groupTask_fields epics k gid ch :
  Task.Type_ (groupTask epics k gid ch) = "group"
  ∧ Task.Title (groupTask epics k gid ch) = epicSummary epics k
  ∧ Task.ChildTasks (groupTask epics k gid ch) = ch
  ∧ Task.Prerequisites (groupTask epics k gid ch) = []
  ∧ Task.Assignments (groupTask epics k gid ch) = []
  ∧ Task.UserData (groupTask epics k gid ch)
    = jiraUserData k (epicDetails epics k).1.2 (epicDetails epics k).2.
Proof.
  unfold groupTask, epicSummary. by destruct (epicDetails epics k) as [[??]?].
Qed.

Lemma Forall2_fmap_zip {A B C} (P : A → C → Prop) (f : A * B → C)
    (xs : list A) (ys : list B) :
  length xs = length ys →
  (∀ x y, x ∈ xs → P x (f (x, y))) →
  Forall2 P xs (f <$> zip xs ys).
Proof.
  revert ys. induction xs as [|x xs IH]; intros [|y ys] Hlen HP;
    simplify_eq/=; constructor.
  - apply HP. left.
  - apply IH; [done|]. intros. apply HP. by right.
Qed.

Lemma leafPart_Forall2 (P : Ticket.t → Task.t → Prop)
    (tickets : list Ticket.t) (a2r : gmap string string) (c : Z) :
  (∀ t id, t ∈ tickets →
     P t (Task.appendPrerequisites (resolved (keyMap tickets c) t) (leafTask a2r id t))) →
  Forall2 P tickets (leafPart tickets a2r c).
Proof.
  intros HP. unfold leafPart, numbered. apply Forall2_fmap_zip.
  - by rewrite length_fmap, length_vals.
  - intros t id ?. by apply HP.
Qed.

Lemma leafPart_leafOf (tickets : list Ticket.t) (a2r : gmap string string) (c : Z) :
  Forall2 leafOf tickets (leafPart tickets a2r c).
Proof.
  apply leafPart_Forall2. intros t id _.
  apply appendPrerequisites_fields, leafTask_fields.
Qed.

Lemma epicBlock_groupsAndMilestones epics v kvs :
  groupsAndMilestones (epicBlock epics v kvs).
Proof.
  revert v. induction kvs as [|[k ch] kvs IH]; intros v; simpl; [done|].
  split_and!; try done.
  - apply groupTask_fields.
  - by rewrite groupTask_ID.
Qed.

Lemma filter_fmap {A B} (f : A → B) (P : B → Prop) `{∀ x, Decision (P x)}
    (l : list A) :
  filter P (f <$> l) = f <$> filter (λ x, P (f x)) l.
Proof.
  induction l as [|x l IH]; [done|].
  rewrite fmap_cons, !filter_cons, IH. by destruct (decide (P (f x))).
Qed.

(** The ids of the leaf tasks of the tickets a predicate selects. *)
Lemma leafPart_ids (P1 : Ticket.t * Task.t → Prop) (P2 : Ticket.t * string → Prop)
    `{∀ p, Decision (P1 p)} `{∀ p, Decision (P2 p)}
    (tickets : list Ticket.t) (a2r : gmap string string) (c : Z) :
  (∀ t x y, P1 (t, x) ↔ P2 (t, y)) →
  (λ p, Task.ID p.2) <$> filter P1 (zip tickets (leafPart tickets a2r c))
  = snd <$> filter P2 (numbered c tickets).
Proof.
  intros HP. unfold leafPart, numbered. rewrite (zip_with_fmap_zip pair).
  rewrite filter_fmap, <-list_fmap_compose.
  rewrite (list_filter_iff _ P2) by (intros [t id]; apply HP).
  apply list_fmap_ext. intros _ [t id] _. cbn [fst snd compose].
  by rewrite appendPrerequisites_ID, leafTask_ID.
Qed.

(** C2 (amended): the emitted task list is the synthetic root group, whose
    children are all the top-level references of the build (the tickets
    outside an epic group, then every epic group and milestone, then the
    final milestone), followed by the epic groups each with its milestone,
    then the final "Done" milestone if there is one, and last the leaf tasks
    in the order of the tickets. *)
Theorem task_list_composition (s : Serializer.t) (o : MapOrders)
    (tickets : list Ticket.t) (epics : gmap string Ticket.t) (w : World) :
  ∃ refs epicTasks doneTasks leaves,
    Scenario.Tasks (buildScenario s o tickets epics w).1
      = topTask refs :: epicTasks ++ doneTasks ++ leaves
    ∧ Reference.IDRef <$> refs
      = ((λ p, Task.ID p.2)
           <$> filter (λ p, grouped s p.1 = false) (zip tickets leaves))
        ++ (Task.ID <$> epicTasks ++ doneTasks)
    ∧ groupsAndMilestones epicTasks
    ∧ (doneTasks = [] ∨ ∃ id prereqs, doneTasks = [doneTask id prereqs])
    ∧ Forall2 leafOf tickets leaves.
Proof.
  rewrite buildScenario_eq. cbn [fst builtScenario Scenario.Tasks].
  set (c := afterStaff tickets (idCounter w)).
  set (a2r := assigneeMap tickets (idCounter w)).
  exists (builtRefs s o tickets epics c), (epicPart s o tickets epics c),
         (donePart s o tickets epics c), (leafPart tickets a2r c).
  split_and!.
  - reflexivity.
  - unfold builtRefs, topRefs. rewrite fmap_app, <-!list_fmap_compose.
    f_equal. symmetry.
    etrans; [by apply (leafPart_ids _ (λ p, grouped s p.1 = false))|].
    by apply list_fmap_ext.
  - apply epicBlock_groupsAndMilestones.
  - unfold donePart. cbn zeta.
    destruct (Serializer.MilestoneDone s && _); eauto.
  - apply leafPart_leafOf.
Qed.

(** C2, as the specification words it, fails on the tickets of the grouping
    test: the task after the root is the group of the epic, not the leaf of
    the first ticket. *)
Lemma leaves_are_not_first :
  ¬ leavesFirst groupingTickets
      (Scenario.Tasks
         (buildScenario (Serializer.mk "Epic Project" true false)
            (mkOrders ["EPIC-1"] ["EPIC-1"]) groupingTickets groupingEpics
            freshWorld).1).
Proof.
  intros (root & leaves & synthetic & Heq & Hleaves).
  apply Forall2_cons_inv_l in Hleaves as (l1 & leaves' & Hl1 & _ & ->).
  vm_compute in Heq. injection Heq as _ <- _.
  destruct Hl1 as (_ & Htype & _). discriminate Htype.
Qed.

(** ** Without epic grouping *)

(** C10: when groupByEpic is false no task of the emitted list has the kind
    "milestone"; the prerequisites collected for the "Done" milestone from
    what the run has built at that point are none, and the tasks built are
    the leaf tasks alone; and setting addDoneMilestone changes nothing: the
    run is the run with both switches off. *)
Theorem no_milestone_without_grouping (s : Serializer.t) (o : MapOrders)
    (tickets : list Ticket.t) (epics : gmap string Ticket.t) (w : World) :
  Serializer.GroupByEpic s = false →
  (∀ t, t ∈ Scenario.Tasks (buildScenario s o tickets epics w).1 →
        Task.Type_ t ≠ "milestone")
  ∧ (∀ a2r c, donePrereqs s o (epicPart s o tickets epics c)
                (milestoneMap s o tickets epics c) = []
              ∧ builtTasks s o tickets a2r epics c = leafPart tickets a2r c)
  ∧ buildScenario s o tickets epics w
    = buildScenario (Serializer.mk (Serializer.ProjectName s) false false)
        o tickets epics w.
Proof.
  intros HG.
  assert (Hparts : ∀ a2r c,
    donePrereqs s o (epicPart s o tickets epics c)
      (milestoneMap s o tickets epics c) = []
    ∧ builtTasks s o tickets a2r epics c = leafPart tickets a2r c).
  { intros a2r c.
    unfold builtTasks, donePart, donePrereqs, epicPart, milestoneMap, epicPairs.
    rewrite HG. simpl. by rewrite andb_false_r. }
  split_and!.
  - rewrite buildScenario_eq. cbn [fst builtScenario Scenario.Tasks].
    intros t [->|Ht]%elem_of_cons; [done|].
    rewrite (proj2 (Hparts _ _)) in Ht.
    pose proof (leafPart_leafOf tickets (assigneeMap tickets (idCounter w))
                  (afterStaff tickets (idCounter w))) as HF.
    apply list_elem_of_lookup in Ht as [i Hi].
    destruct (Forall2_lookup_r _ _ _ _ _ HF Hi) as (tk & _ & _ & Htype & _).
    by rewrite Htype.
  - done.
  - rewrite !buildScenario_eq. destruct s as [name g m]. simpl in HG. subst g.
    unfold builtScenario, finalWorld, builtRefs, builtTasks, donePart,
      donePrereqs, epicPart, milestoneMap, epicPairs, afterEpics, topRefs,
      grouped, projectResource. simpl.
    by rewrite !andb_false_r.
Qed.

(** The grouping test with both switches set the other way: no grouping, but
    the final milestone asked for. *)
Lemma no_milestone_without_grouping_witness :
  Forall (λ t, Task.Type_ t ≠ "milestone")
    (Scenario.Tasks
       (buildScenario (Serializer.mk "Epic Project" false true)
          (mkOrders [] []) groupingTickets groupingEpics freshWorld).1).
Proof.
  apply Forall_forall.
  exact (proj1 (no_milestone_without_grouping
                  (Serializer.mk "Epic Project" false true) (mkOrders [] [])
                  groupingTickets groupingEpics freshWorld eq_refl)).
Defined.

(** ** Effort *)

Lemma iter_pos_inv {A} (P : A → Prop) (f : A → A) :
  (∀ x, P x → P (f x)) → ∀ n x, P x → P (SpecFloat.iter_pos f n x).
Proof.
  intros Hf. induction n as [n IH|n IH|]; intros x Hx; simpl; auto.
Qed.

Lemma shr_1_nonneg (mrs : shr_record) : 0 ≤ shr_m mrs → 0 ≤ shr_m (shr_1 mrs).
Proof.
  destruct mrs as [m r t]. simpl.
  destruct m as [|[p|p|]|[p|p|]]; simpl; lia.
Qed.

Lemma shr_fexp_nonneg (m e : Z) (l : location) :
  0 ≤ m → 0 ≤ shr_m (shr_fexp 53 1024 m e l).1.
Proof.
  intros Hm. unfold shr_fexp, shr.
  assert (H0 : 0 ≤ shr_m (shr_record_of_loc m l)) by (by destruct l as [|[]]).
  destruct (_ - e) as [|n|n]; simpl; try done.
  by apply iter_pos_inv; [apply shr_1_nonneg|].
Qed.

Lemma binary_round_aux_nonneg (m e : Z) (l : location) :
  0 ≤ m → float64_nonneg (binary_round_aux 53 1024 false m e l).
Proof.
  intros Hm. unfold binary_round_aux.
  pose proof (shr_fexp_nonneg m e l Hm) as H1.
  destruct (shr_fexp 53 1024 m e l) as [mrs1 e1]. simpl in H1.
  assert (H2 : 0 ≤ round_nearest_even (shr_m mrs1) (loc_of_shr_record mrs1)).
  { unfold round_nearest_even.
    destruct (loc_of_shr_record mrs1) as [|[]]; try done; [|lia].
    destruct (Z.even _); lia. }
  pose proof (shr_fexp_nonneg _ e1 loc_Exact H2) as H3.
  destruct (shr_fexp 53 1024 _ e1 loc_Exact) as [mrs2 e2]. simpl in H3.
  destruct (shr_m mrs2) as [|p|p]; simpl; try done; try lia.
  by destruct (e2 <=? _).
Qed.

Lemma float64_mul_nonneg (x : float64) (m : positive) (e : Z) :
  float64_nonneg x → float64_nonneg (float64_mul x (S754_finite false m e)).
Proof.
  destruct x as [[]|[]| |[] mx ex]; simpl; try done.
  intros _. apply binary_round_aux_nonneg. lia.
Qed.

Lemma effortSeconds_nonneg (ticket : Ticket.t) :
  float64_gt (Ticket.EffortDays ticket) float64_zero = true →
  float64_nonneg (effortSeconds ticket).
Proof.
  intros Hgt. unfold effortSeconds.
  apply float64_mul_nonneg, float64_mul_nonneg.
  by destruct (Ticket.EffortDays ticket) as [[]|[]| |[] mx ex].
Qed.

Lemma emittedLeaves_scenario (s : Serializer.t) (o : MapOrders)
    (tickets : list Ticket.t) (epics : gmap string Ticket.t) (w : World) :
  emittedLeaves tickets (Scenario.Tasks (buildScenario s o tickets epics w).1)
  = leafPart tickets (assigneeMap tickets (idCounter w))
      (afterStaff tickets (idCounter w)).
Proof.
  rewrite buildScenario_eq. cbn [fst builtScenario Scenario.Tasks].
  unfold emittedLeaves, builtTasks.
  set (lp := leafPart _ _ _).
  assert (Hlen : length lp = length tickets).
  { unfold lp, leafPart. by rewrite length_fmap, length_numbered. }
  rewrite app_comm_cons, app_assoc. rewrite length_app, Hlen.
  rewrite Nat.add_sub. by rewrite drop_app_length.
Qed.

Lemma effort_default (ticket : Ticket.t) :
  float64_gt (Ticket.EffortDays ticket) float64_zero = false →
  effort ticket = 28800.
Proof. intros Hgt. unfold effort. by rewrite Hgt. Qed.

Lemma effort_truncates (ticket : Ticket.t) :
  float64_gt (Ticket.EffortDays ticket) float64_zero = true →
  match effortSeconds ticket with
  | S754_zero false => effort ticket = 0
  | S754_finite false m e =>
      (0 ≤ e → Z.pos m * 2 ^ e ≤ max_int64 → effort ticket = Z.pos m * 2 ^ e)
      ∧ (e < 0 → Z.pos m < 2 ^ 63 →
         0 ≤ effort ticket
         ∧ effort ticket * 2 ^ (- e) ≤ Z.pos m < (effort ticket + 1) * 2 ^ (- e))
  | S754_infinity false => True
  | _ => False
  end.
Proof.
  intros Hgt. pose proof (effortSeconds_nonneg ticket Hgt) as Hnn.
  unfold effort. rewrite Hgt. fold (effortSeconds ticket).
  destruct (effortSeconds ticket) as [[]|[]| |[] m e]; try done.
  unfold int64_of_float64, float64_trunc, in_int64, min_int64, max_int64.
  split.
  - intros He Hmax. rewrite (proj2 (Z.leb_le 0 e)) by done.
    assert (0 < 2 ^ e) by (apply Z.pow_pos_nonneg; lia).
    rewrite andb_true_intro; [done|]. split; apply Z.leb_le; nia.
  - intros He Hm. rewrite (proj2 (Z.leb_gt 0 e)) by done.
    assert (Hk : 0 < 2 ^ (- e)) by (apply Z.pow_pos_nonneg; lia).
    pose proof (Z.div_mod (Z.pos m) (2 ^ (- e)) ltac:(lia)) as Hdm.
    pose proof (Z.mod_pos_bound (Z.pos m) (2 ^ (- e)) Hk) as Hmod.
    assert (Hq : 0 ≤ Z.pos m `div` 2 ^ (- e)) by (apply Z.div_pos; lia).
    assert (Hle : Z.pos m `div` 2 ^ (- e) ≤ Z.pos m)
      by (apply Z.div_le_upper_bound; nia).
    rewrite andb_true_intro by (split; apply Z.leb_le; lia).
    split; [done|]. nia.
Qed.

(** C3 (amended): the leaf task of a ticket carries the effort of the ticket.
    That effort is 28800 seconds when effortDays is not greater than zero,
    and otherwise it is the float64 product effortDays * 8 * 3600 with its
    fraction cut off (not rounded): the product itself when it is a whole
    number that fits an int64, and else the whole number [n] with
    n <= product < n + 1, which is never negative. In particular 2 days give
    57600, 5 days give 144000 and an unset (zero) effort gives 28800. *)
Theorem leaf_effort (s : Serializer.t) (o : MapOrders)
    (tickets : list Ticket.t) (epics : gmap string Ticket.t) (w : World)
    (i : nat) (ticket : Ticket.t) :
  tickets !! i = Some ticket →
  ∃ leaf,
    emittedLeaves tickets (Scenario.Tasks (buildScenario s o tickets epics w).1) !! i
      = Some leaf
    ∧ Task.Effort leaf = effort ticket
    ∧ (float64_gt (Ticket.EffortDays ticket) float64_zero = false →
       effort ticket = 28800)
    ∧ (float64_gt (Ticket.EffortDays ticket) float64_zero = true →
       match effortSeconds ticket with
       | S754_zero false => effort ticket = 0
       | S754_finite false m e =>
           (0 ≤ e → Z.pos m * 2 ^ e ≤ max_int64 → effort ticket = Z.pos m * 2 ^ e)
           ∧ (e < 0 → Z.pos m < 2 ^ 63 →
              0 ≤ effort ticket
              ∧ effort ticket * 2 ^ (- e) ≤ Z.pos m
                < (effort ticket + 1) * 2 ^ (- e))
       | S754_infinity false => True
       | _ => False
       end)
    ∧ (Ticket.EffortDays ticket = float64_of_Z 2 → effort ticket = 57600)
    ∧ (Ticket.EffortDays ticket = float64_of_Z 5 → effort ticket = 144000)
    ∧ (Ticket.EffortDays ticket = float64_zero → effort ticket = 28800).
Proof.
  intros Hi. rewrite emittedLeaves_scenario.
  pose proof (leafPart_leafOf tickets (assigneeMap tickets (idCounter w))
                (afterStaff tickets (idCounter w))) as HF.
  destruct (Forall2_lookup_l _ _ _ _ _ HF Hi) as (leaf & Hleaf & Hof).
  exists leaf. split; [done|]. split; [apply Hof|].
  split; [apply effort_default|]. split; [apply effort_truncates|].
  unfold effort. split_and!; intros ->; reflexivity.
Qed.

(** The second of the three sample tickets: 5 days. *)
Lemma leaf_effort_witness :
  ∃ leaf,
    emittedLeaves twoEpicTickets
      (Scenario.Tasks
         (buildScenario (Serializer.mk "Test Project" true true)
            (mkOrders ["EPIC-1"; "EPIC-2"] ["EPIC-1"; "EPIC-2"])
            twoEpicTickets twoEpics freshWorld).1) !! 1%nat = Some leaf
    ∧ Task.Effort leaf = 144000.
Proof.
  destruct (leaf_effort (Serializer.mk "Test Project" true true)
              (mkOrders ["EPIC-1"; "EPIC-2"] ["EPIC-1"; "EPIC-2"])
              twoEpicTickets twoEpics freshWorld 1
              (sampleTicket "TASK-2" "Second Task" "Bob Jones" "EPIC-2"
                 (float64_of_Z 5) ["TASK-1"; "TASK-9"]) eq_refl)
    as (leaf & Hleaf & Heff & _ & _ & _ & H5 & _).
  exists leaf. split; [exact Hleaf|]. rewrite Heff. apply H5. reflexivity.
Defined.

(** C3, as the specification words it, fails: 4.1 days are 118079 seconds for
    the code and 118080 rounded, and a positive effort of 2^-15 days is
    0 seconds, which is not positive. *)
Lemma effort_is_not_rounded :
  let t := sampleTicket "TASK-1" "First Task" "" "" days_4_1 [] in
  let t' := sampleTicket "TASK-2" "Second Task" "" "" days_tiny [] in
  float64_gt (Ticket.EffortDays t) float64_zero = true
  ∧ effort t = 118079 ∧ roundedEffort t = Some 118080
  ∧ float64_gt (Ticket.EffortDays t') float64_zero = true
  ∧ effort t' = 0 ∧ roundedEffort t' = Some 1.
Proof. vm_compute. by repeat split. Qed.

(** ** Maps filled by a loop *)

Lemma insertAll_eq {V} (m : gmap string V) (l : list (string * V)) :
  insertAll m l = list_to_map (reverse l) ∪ m.
Proof.
  revert m. induction l as [|[k v] l IH]; intros m.
  - simpl. by rewrite (left_id_L ∅ (∪)).
  - unfold insertAll in *. cbn [foldl]. rewrite IH.
    rewrite reverse_cons, list_to_map_app. simpl.
    rewrite <-(assoc_L (∪)). f_equal.
    by rewrite insert_empty, <-insert_union_singleton_l.
Qed.

Lemma insertAll_lookup_None {V} (l : list (string * V)) (k : string) :
  insertAll ∅ l !! k = None ↔ k ∉ l.*1.
Proof.
  rewrite insertAll_eq, (right_id_L ∅ (∪)), <-not_elem_of_list_to_map.
  by rewrite fmap_reverse, elem_of_reverse.
Qed.

Lemma insertAll_lookup_Some {V} (l : list (string * V)) (k : string) (v : V) :
  insertAll ∅ l !! k = Some v → (k, v) ∈ l.
Proof.
  rewrite insertAll_eq, (right_id_L ∅ (∪)).
  intros H%elem_of_list_to_map_2. by apply elem_of_reverse.
Qed.

Lemma insertAll_lookup_NoDup {V} (l : list (string * V)) (k : string) (v : V) :
  NoDup l.*1 → (k, v) ∈ l → insertAll ∅ l !! k = Some v.
Proof.
  intros Hnd Hin. rewrite insertAll_eq, (right_id_L ∅ (∪)).
  apply elem_of_list_to_map_1.
  - by rewrite fmap_reverse, reverse_Permutation.
  - by apply elem_of_reverse.
Qed.

Lemma elem_of_distinct (l : list string) (x : string) : x ∈ distinct l ↔ x ∈ l.
Proof.
  induction l as [|y l IH]; [done|]. cbn [distinct].
  rewrite !elem_of_cons, list_elem_of_filter, IH.
  destruct (decide (x = y)); tauto.
Qed.

Lemma NoDup_distinct (l : list string) : NoDup (distinct l).
Proof.
  induction l as [|y l IH]; [constructor|]. cbn [distinct]. constructor.
  - rewrite list_elem_of_filter. tauto.
  - by apply NoDup_filter.
Qed.

Lemma elem_of_assigneeNames (tickets : list Ticket.t) (t : Ticket.t) :
  t ∈ tickets → Ticket.Assignee t ≠ "" →
  Ticket.Assignee t ∈ assigneeNames tickets.
Proof.
  intros Ht Hne. unfold assigneeNames.
  rewrite elem_of_distinct, list_elem_of_filter. split; [done|].
  by apply list_elem_of_fmap_2.
Qed.

Lemma length_staffIDs (tickets : list Ticket.t) (c : Z) :
  length (staffIDs tickets c) = length (assigneeNames tickets).
Proof. unfold staffIDs. by rewrite length_fmap, length_vals. Qed.

Lemma assigneeMap_lookup (tickets : list Ticket.t) (c : Z) (j : nat)
    (name id : string) :
  assigneeNames tickets !! j = Some name →
  staffIDs tickets c !! j = Some id →
  assigneeMap tickets c !! name = Some id.
Proof.
  intros Hn Hi. apply insertAll_lookup_NoDup.
  - rewrite fst_zip by (rewrite length_staffIDs; lia). apply NoDup_distinct.
  - by apply (elem_of_lookup_zip_with_2 pair _ _ _ _ (name, id) j).
Qed.

(** ** Resources and assignments *)

(** C7: the emitted resource list is the one Project resource followed by one
    Staff resource, without children, per distinct non-empty assignee name,
    in the order of first appearance; the children of the Project resource
    are the ids of these Staff resources in that order. The leaf task of a
    ticket without assignee has no assignment, and the leaf task of a ticket
    with an assignee has exactly one, the Staff resource of that name, so
    tickets with the same assignee share it. *)
Theorem resources_of_assignees (s : Serializer.t) (o : MapOrders)
    (tickets : list Ticket.t) (epics : gmap string Ticket.t) (w : World) :
  ∃ ids : list string,
    length ids = length (assigneeNames tickets)
    ∧ NoDup (assigneeNames tickets)
    ∧ (∀ name, name ∈ assigneeNames tickets
         ↔ name ≠ "" ∧ ∃ t, t ∈ tickets ∧ Ticket.Assignee t = name)
    ∧ Scenario.Resources (buildScenario s o tickets epics w).1
      = Resource.mk "r-1" (Serializer.ProjectName s) "Project" (Reference.mk <$> ids)
          :: zip_with (λ name id, Resource.mk id name "Staff" [])
               (assigneeNames tickets) ids
    ∧ Forall2
        (λ t leaf,
           if decide (Ticket.Assignee t = "") then Task.Assignments leaf = []
           else ∃ j id, assigneeNames tickets !! j = Some (Ticket.Assignee t)
                        ∧ ids !! j = Some id
                        ∧ Task.Assignments leaf = [Reference.mk id])
        tickets
        (emittedLeaves tickets
           (Scenario.Tasks (buildScenario s o tickets epics w).1)).
Proof.
  exists (staffIDs tickets (idCounter w)).
  split; [apply length_staffIDs|]. split; [apply NoDup_distinct|].
  split.
  { intros name. unfold assigneeNames.
    rewrite elem_of_distinct, list_elem_of_filter, list_elem_of_fmap.
    split; (intros [Hne (t & H1 & H2)]; split; [done|]; by exists t). }
  split.
  { by rewrite buildScenario_eq. }
  rewrite emittedLeaves_scenario. apply leafPart_Forall2. intros t id Ht.
  destruct (appendPrerequisites_fields
              (resolved (keyMap tickets (afterStaff tickets (idCounter w))) t)
              (leafTask (assigneeMap tickets (idCounter w)) id t))
    as (_ & _ & _ & _ & _ & ->).
  destruct (leafTask_fields (assigneeMap tickets (idCounter w)) id t)
    as (_ & _ & _ & ->).
  destruct (decide (Ticket.Assignee t = "")) as [He|Hne].
  - by rewrite decide_False by (intros H; by apply H).
  - rewrite decide_True by done.
    pose proof (elem_of_assigneeNames tickets t Ht Hne) as Hin.
    apply list_elem_of_lookup in Hin as [j Hj].
    destruct (lookup_lt_is_Some_2 (staffIDs tickets (idCounter w)) j) as [rid Hrid].
    { rewrite length_staffIDs. by eapply lookup_lt_Some. }
    exists j, rid. rewrite (assigneeMap_lookup _ _ _ _ _ Hj Hrid). done.
Qed.

(** ** Dependency resolution *)

Lemma keyMap_lookup_None (tickets : list Ticket.t) (c : Z) (k : string) :
  keyMap tickets c !! k = None ↔ k ∉ Ticket.Key <$> tickets.
Proof.
  unfold keyMap. rewrite insertAll_lookup_None, <-list_fmap_compose.
  by rewrite <-(fst_numbered c tickets) at 2; rewrite <-list_fmap_compose.
Qed.

Lemma keyMap_lookup_Some (tickets : list Ticket.t) (c : Z) (k id : string) :
  keyMap tickets c !! k = Some id →
  ∃ j t, numbered c tickets !! j = Some (t, id) ∧ Ticket.Key t = k.
Proof.
  intros H%insertAll_lookup_Some.
  apply list_elem_of_fmap in H as ([t id'] & [= -> ->] & Hin).
  apply list_elem_of_lookup in Hin as [j Hj]. by exists j, t.
Qed.

Lemma numbered_lookup (tickets : list Ticket.t) (a2r : gmap string string)
    (c : Z) (j : nat) (t : Ticket.t) (id : string) :
  numbered c tickets !! j = Some (t, id) →
  tickets !! j = Some t
  ∧ ∃ leaf, leafPart tickets a2r c !! j = Some leaf ∧ Task.ID leaf = id.
Proof.
  intros Hj. split.
  - rewrite <-(fst_numbered c tickets), list_lookup_fmap, Hj. done.
  - eexists. unfold leafPart. rewrite list_lookup_fmap, Hj. split; [done|].
    cbn [fst snd]. by rewrite appendPrerequisites_ID, leafTask_ID.
Qed.

(** C5: there is a map from ticket keys to task ids, defined exactly on the
    keys of the input tickets and sending a key to the id of the leaf task of
    a ticket with that key, such that the prerequisites of the leaf task of
    every ticket are, for its dependency keys in listed order, one entry with
    the mapped id for each key the map holds and none for a key it does not
    hold; the run ends normally, and what it prints is, ticket by ticket and
    key by key, one warning naming the ticket key and the missing key for
    each dependency key the map does not hold. *)
Theorem dependencies_resolved (s : Serializer.t) (o : MapOrders)
    (tickets : list Ticket.t) (epics : gmap string Ticket.t) (w : World) :
  let r := buildScenario s o tickets epics w in
  let leaves := emittedLeaves tickets (Scenario.Tasks r.1) in
  ∃ key2id : gmap string string,
    (∀ k, key2id !! k = None ↔ k ∉ Ticket.Key <$> tickets)
    ∧ (∀ k id, key2id !! k = Some id →
         ∃ j t leaf, tickets !! j = Some t ∧ Ticket.Key t = k
                     ∧ leaves !! j = Some leaf ∧ Task.ID leaf = id)
    ∧ Forall2
        (λ t leaf,
           Task.Prerequisites leaf
           = omap (λ depKey, (λ id, PrerequisiteTask.mk id "") <$> key2id !! depKey)
                  (Ticket.DependencyKeys t))
        tickets leaves
    ∧ stdout r.2
      = stdout w
        ++ flat_map
             (λ t, depWarning (Ticket.Key t)
                     <$> filter (λ depKey, key2id !! depKey = None)
                                (Ticket.DependencyKeys t))
             tickets.
Proof.
  cbn zeta. rewrite emittedLeaves_scenario, buildScenario_eq.
  set (c := afterStaff tickets (idCounter w)).
  set (a2r := assigneeMap tickets (idCounter w)).
  exists (keyMap tickets c). split_and!.
  - apply keyMap_lookup_None.
  - intros k id (j & t & Hj & Hk)%keyMap_lookup_Some.
    destruct (numbered_lookup tickets a2r c j t id Hj) as (Ht & leaf & Hl & Hid).
    by exists j, t, leaf.
  - apply leafPart_Forall2. intros t id _.
    destruct (appendPrerequisites_fields (resolved (keyMap tickets c) t)
                (leafTask a2r id t)) as (_ & _ & _ & _ & -> & _).
    destruct (leafTask_fields a2r id t) as (_ & _ & -> & _). done.
  - reflexivity.
Qed.

(** ** Ranging over a map *)

Lemma elem_of_rangeMap {V} (order : list string) (m : gmap string V)
    (k : string) (v : V) :
  (k, v) ∈ rangeMap order m → m !! k = Some v.
Proof.
  unfold rangeMap. rewrite list_elem_of_omap. intros (k' & _ & Hk).
  destruct (m !! k') as [v'|] eqn:Hm; simplify_eq/=. done.
Qed.

Lemma length_rangeMap {V} (order : list string) (m : gmap string V) :
  (length (rangeMap order m) ≤ length order)%nat.
Proof.
  unfold rangeMap. induction order as [|k order IH]; csimpl; [done|].
  destruct (m !! k); csimpl; lia.
Qed.

Lemma rangeMap_total {V} (order : list string) (m : gmap string V)
    (f : string → V) :
  (∀ k, k ∈ order → m !! k = Some (f k)) →
  rangeMap order m = (λ k, (k, f k)) <$> order.
Proof.
  unfold rangeMap. induction order as [|k order IH]; intros Hm; [done|].
  simpl. rewrite (Hm k) by left. simpl. f_equal.
  apply IH. intros k' Hk'. apply Hm. by right.
Qed.

Lemma rangeMap_insertAll {V} (order : list string) (l : list (string * V)) :
  NoDup l.*1 → order ≡ₚ l.*1 → rangeMap order (insertAll ∅ l) ≡ₚ l.
Proof.
  intros Hnd Hperm. unfold rangeMap. rewrite Hperm.
  assert (Hall : ∀ p, p ∈ l → insertAll ∅ l !! p.1 = Some p.2).
  { intros [k v] Hp. by apply insertAll_lookup_NoDup. }
  clear Hperm Hnd. revert Hall. generalize (insertAll ∅ l) as m. intros m.
  induction l as [|[k v] l IH]; intros Hall; [done|].
  pose proof (Hall (k, v) ltac:(left)) as Hkv. simpl in Hkv.
  csimpl. rewrite Hkv. csimpl.
  rewrite IH; [done|]. intros p Hp. apply Hall. by right.
Qed.

(** ** The children of the epics *)

Lemma addChild_fold (e : gmap string (list Reference.t))
    (l : list (Ticket.t * string)) (k : string) :
  foldl addChild e l !! k =
  match (λ p, Reference.mk p.2) <$> filter (λ p, Ticket.EpicLink p.1 = k) l with
  | [] => e !! k
  | new => Some (default [] (e !! k) ++ new)
  end.
Proof.
  revert e. induction l as [|p l IH]; intros e; [done|].
  cbn [foldl]. rewrite IH, filter_cons. unfold addChild.
  destruct (decide (Ticket.EpicLink p.1 = k)) as [->|Hne].
  - rewrite lookup_insert_eq, fmap_cons. cbn [default].
    destruct (_ <$> filter _ l); simpl; [done|].
    by rewrite <-app_assoc.
  - by rewrite lookup_insert_ne.
Qed.

Lemma filter_epic_grouped (s : Serializer.t) (k : string)
    (l : list (Ticket.t * string)) :
  filter (λ p, Ticket.EpicLink p.1 = k) (filter (λ p, grouped s p.1 = true) l)
  = if Serializer.GroupByEpic s && bool_decide (k ≠ "")
    then filter (λ p, Ticket.EpicLink p.1 = k) l else [].
Proof.
  rewrite list_filter_filter. unfold grouped.
  destruct (Serializer.GroupByEpic s); simpl.
  - case_bool_decide as Hk.
    + apply list_filter_iff. intros p. split; [tauto|].
      intros Hp. split; [done|]. apply bool_decide_eq_true. congruence.
    + induction l as [|p l IH]; [done|].
      rewrite filter_cons_False; [done|].
      intros [Hp Hg]. apply bool_decide_eq_true in Hg. congruence.
  - induction l as [|p l IH]; [done|].
    rewrite filter_cons_False; [done|]. intros [_ ?]. done.
Qed.

Lemma childMap_lookup (s : Serializer.t) (tickets : list Ticket.t) (c : Z)
    (k : string) :
  childMap s tickets c !! k =
  if Serializer.GroupByEpic s && bool_decide (k ≠ "")
  then match memberRefs c tickets k with
       | [] => None
       | refs => Some refs
       end
  else None.
Proof.
  unfold childMap. rewrite addChild_fold, filter_epic_grouped, lookup_empty.
  unfold memberRefs.
  destruct (Serializer.GroupByEpic s && bool_decide (k ≠ "")); [|done].
  by destruct (_ <$> _).
Qed.

Lemma memberRefs_nonempty (c : Z) (tickets : list Ticket.t) (k : string) :
  k ∈ Ticket.EpicLink <$> tickets → memberRefs c tickets k ≠ [].
Proof.
  intros (t & -> & Ht)%list_elem_of_fmap.
  rewrite <-(fst_numbered c tickets) in Ht.
  apply list_elem_of_fmap in Ht as ([t' id] & -> & Hp).
  unfold memberRefs. intros Hnil%fmap_nil_inv.
  by eapply (filter_nil_not_elem_of _ _ (t', id)) in Hnil.
Qed.

Lemma elem_of_epicKeys (tickets : list Ticket.t) (k : string) :
  k ∈ epicKeys tickets ↔ k ≠ "" ∧ k ∈ Ticket.EpicLink <$> tickets.
Proof.
  unfold epicKeys. by rewrite elem_of_distinct, list_elem_of_filter.
Qed.

(** With grouping on, a valid iteration order visits every epic key with its
    member references. *)
Lemma epicPairs_valid (s : Serializer.t) (o : MapOrders)
    (tickets : list Ticket.t) (c : Z) :
  Serializer.GroupByEpic s = true →
  iterationOf (epicOrder o) (epicKeys tickets) →
  epicPairs s o tickets c = (λ k, (k, memberRefs c tickets k)) <$> epicOrder o.
Proof.
  intros HG Hperm. unfold epicPairs. rewrite HG.
  apply rangeMap_total. intros k Hk.
  rewrite Hperm in Hk. apply elem_of_epicKeys in Hk as [Hne Hin].
  rewrite childMap_lookup, HG, bool_decide_eq_true_2 by done. simpl.
  pose proof (memberRefs_nonempty c tickets k Hin).
  by destruct (memberRefs c tickets k).
Qed.

(** ** The tasks of the epics *)

Lemma elem_of_flat_map {A B} (f : A → list B) (l : list A) (y : B) :
  y ∈ flat_map f l ↔ ∃ x, x ∈ l ∧ y ∈ f x.
Proof.
  induction l as [|x l IH]; simpl.
  - split; [by inversion 1|]. intros (x & Hx & _). by inversion Hx.
  - rewrite elem_of_app, IH. setoid_rewrite elem_of_cons. split.
    + intros [H|(x' & ? & ?)]; eauto.
    + intros (x' & [->|?] & ?); eauto.
Qed.

Lemma epicBlock_pairs epics v kvs :
  epicBlock epics v kvs = flat_map (λ p, [p.1; p.2]) (epicTaskPairs epics v kvs).
Proof.
  revert v. induction kvs as [|kv kvs IH]; intros v; simpl; [done|].
  by rewrite IH.
Qed.

Lemma epicMilestonesOf_pairs epics v kvs :
  epicMilestonesOf epics v kvs = zip kvs.*1 (epicTaskPairs epics v kvs).*2.
Proof.
  revert v. induction kvs as [|kv kvs IH]; intros v; simpl; [done|].
  by rewrite IH.
Qed.

Lemma length_epicTaskPairs epics v kvs :
  length (epicTaskPairs epics v kvs) = length kvs.
Proof.
  revert v. induction kvs as [|kv kvs IH]; intros v; simpl; [done|].
  by rewrite IH.
Qed.

Lemma epicBlock_IDs epics v kvs :
  Task.ID <$> epicBlock epics v kvs = taskID <$> vals v (2 * length kvs).
Proof.
  revert v. induction kvs as [|kv kvs IH]; intros v; [done|].
  replace (2 * length (kv :: kvs))%nat with (S (S (2 * length kvs)))
    by (simpl; lia).
  cbn [epicBlock vals]. rewrite !fmap_cons, IH, groupTask_ID. done.
Qed.

Lemma milestonesOf_epicBlock epics v kvs :
  milestonesOf (epicBlock epics v kvs) = (epicTaskPairs epics v kvs).*2.
Proof.
  revert v. induction kvs as [|kv kvs IH]; intros v; [done|].
  cbn [epicBlock epicTaskPairs]. unfold milestonesOf in *.
  rewrite filter_cons_False.
  2:{ intros H. destruct (groupTask_fields epics kv.1 (taskID (nextVal v)) kv.2)
        as (Ht & _). rewrite Ht in H. discriminate. }
  rewrite filter_cons_True by done.
  rewrite fmap_cons. simpl. f_equal. apply IH.
Qed.

(** What the tasks of the epic loop refer to. *)
Lemma epicBlock_refs epics v kvs t :
  t ∈ epicBlock epics v kvs →
  Task.Assignments t = []
  ∧ (∀ p, p ∈ Task.Prerequisites t →
          PrerequisiteTask.IDRef p ∈ Task.ID <$> epicBlock epics v kvs)
  ∧ (∀ r, r ∈ Task.ChildTasks t → ∃ kv, kv ∈ kvs ∧ r ∈ kv.2).
Proof.
  revert v. induction kvs as [|kv kvs IH]; intros v Ht; [by inversion Ht|].
  cbn [epicBlock] in *. rewrite !elem_of_cons in Ht.
  destruct Ht as [->|[->|Ht]].
  - destruct (groupTask_fields epics kv.1 (taskID (nextVal v)) kv.2)
      as (_ & _ & Hch & Hpre & Has & _).
    rewrite Hch, Hpre, Has. split_and!; [done|by inversion 1|].
    intros r Hr. exists kv. split; [left|done].
  - simpl. split_and!; [done| |by inversion 1].
    intros p ->%list_elem_of_singleton. cbn [PrerequisiteTask.IDRef].
    rewrite groupTask_ID. left.
  - destruct (IH _ Ht) as (Has & Hpre & Hch). split_and!; [done| |].
    + intros p Hp. rewrite !fmap_cons. do 2 right. by apply Hpre.
    + intros r Hr. destruct (Hch r Hr) as (kv' & ? & ?).
      exists kv'. split; [by right|done].
Qed.

Lemma leafPart_IDs (tickets : list Ticket.t) (a2r : gmap string string) (c : Z) :
  Task.ID <$> leafPart tickets a2r c = (numbered c tickets).*2.
Proof.
  unfold leafPart. rewrite <-list_fmap_compose. apply list_fmap_ext.
  intros _ [t id] _. cbn [compose fst snd].
  by rewrite appendPrerequisites_ID, leafTask_ID.
Qed.

Lemma snd_numbered (c : Z) (tickets : list Ticket.t) :
  (numbered c tickets).*2 = taskID <$> vals c (length tickets).
Proof.
  unfold numbered. apply snd_zip. by rewrite length_fmap, length_vals.
Qed.

Lemma assigneeMap_range (tickets : list Ticket.t) (c : Z) (name rid : string) :
  assigneeMap tickets c !! name = Some rid → rid ∈ staffIDs tickets c.
Proof. intros H%insertAll_lookup_Some. by eapply elem_of_zip_r. Qed.

Lemma staffPart_IDs (tickets : list Ticket.t) (c : Z) :
  Resource.ID <$> staffPart tickets c = staffIDs tickets c.
Proof.
  unfold staffPart. pose proof (length_staffIDs tickets c) as Hlen.
  revert Hlen. generalize (staffIDs tickets c) as ids, (assigneeNames tickets) as names.
  induction ids as [|id ids IH]; intros [|n names] Hlen; simplify_eq/=; [done|].
  f_equal. by apply IH.
Qed.

(** What the tasks of the tickets refer to. *)
Lemma leafPart_refs (tickets : list Ticket.t) (a2r : gmap string string) (c : Z)
    (t : Task.t) :
  t ∈ leafPart tickets a2r c →
  Task.ChildTasks t = []
  ∧ (∀ p, p ∈ Task.Prerequisites t →
          PrerequisiteTask.IDRef p ∈ (numbered c tickets).*2)
  ∧ (∀ r, r ∈ Task.Assignments t →
          ∃ name, a2r !! name = Some (Reference.IDRef r)).
Proof.
  unfold leafPart. intros ([tk id] & -> & _)%list_elem_of_fmap. cbn [fst snd].
  destruct (appendPrerequisites_fields (resolved (keyMap tickets c) tk)
              (leafTask a2r id tk)) as (_ & _ & _ & -> & -> & ->).
  destruct (leafTask_fields a2r id tk) as (_ & Hof & -> & ->).
  split_and!.
  - apply Hof.
  - intros p Hp. simpl in Hp. unfold resolved, resolveKeys in Hp.
    apply list_elem_of_omap in Hp as (depKey & _ & Hd).
    destruct (keyMap tickets c !! depKey) as [depID|] eqn:Hm; simplify_eq/=.
    apply keyMap_lookup_Some in Hm as (j & tj & Hj & _).
    apply list_elem_of_fmap. exists (tj, depID). split; [done|].
    by eapply list_elem_of_lookup_2.
  - intros r Hr. destruct (decide (Ticket.Assignee tk ≠ "")); [|by inversion Hr].
    destruct (a2r !! Ticket.Assignee tk) as [rid|] eqn:Ha; [|by inversion Hr].
    apply list_elem_of_singleton in Hr as ->. eauto.
Qed.

(** What the "Done" milestone refers to. *)
Lemma donePart_refs (s : Serializer.t) (o : MapOrders) (tickets : list Ticket.t)
    (epics : gmap string Ticket.t) (c : Z) (t : Task.t) :
  t ∈ donePart s o tickets epics c →
  Task.ChildTasks t = [] ∧ Task.Assignments t = []
  ∧ (∀ p, p ∈ Task.Prerequisites t →
          PrerequisiteTask.IDRef p ∈ Task.ID <$> epicPart s o tickets epics c).
Proof.
  unfold donePart. cbn zeta.
  destruct (Serializer.MilestoneDone s && _); [|by inversion 1].
  intros ->%list_elem_of_singleton. split_and!; [done..|].
  simpl. unfold donePrereqs. intros p Hp.
  destruct (Serializer.GroupByEpic s).
  - apply list_elem_of_fmap in Hp as ([k m] & -> & Hkm). simpl.
    apply elem_of_rangeMap, insertAll_lookup_Some in Hkm.
    unfold epicPart. rewrite epicBlock_pairs.
    rewrite epicMilestonesOf_pairs in Hkm. apply elem_of_zip_r in Hkm.
    apply list_elem_of_fmap in Hkm as ([g m'] & -> & Hgm).
    apply list_elem_of_fmap. exists m'. split; [done|].
    apply elem_of_flat_map. exists (g, m'). split; [done|].
    simpl. right. left.
  - apply list_elem_of_fmap in Hp as (m & -> & Hm).
    apply list_elem_of_filter in Hm as [_ Hm]. simpl.
    by apply list_elem_of_fmap_2.
Qed.

Lemma epicPairs_refs (s : Serializer.t) (o : MapOrders) (tickets : list Ticket.t)
    (c : Z) (kv : string * list Reference.t) (r : Reference.t) :
  kv ∈ epicPairs s o tickets c → r ∈ kv.2 →
  Reference.IDRef r ∈ (numbered c tickets).*2.
Proof.
  unfold epicPairs. destruct kv as [k ch].
  destruct (Serializer.GroupByEpic s) eqn:HG; [|by inversion 1].
  intros Hkv%elem_of_rangeMap Hr. rewrite childMap_lookup in Hkv.
  destruct (_ && _); [|done].
  assert (ch = memberRefs c tickets k) as ->
    by (destruct (memberRefs c tickets k); by simplify_eq/=).
  unfold memberRefs in Hr. simpl in Hr.
  apply list_elem_of_fmap in Hr as (p & -> & Hp).
  apply list_elem_of_filter in Hp as [_ Hp]. simpl.
  by apply list_elem_of_fmap_2.
Qed.

(** ** Referential integrity *)

(** C6: in the scenario a run builds, the top task and the top resource
    exist, every prerequisite and every child of every task is the id of a
    task of the emitted task list, every assignment of every task is the id
    of a resource of the emitted resource list, and every child of every
    resource is the id of such a resource; a dependency key without a ticket
    leaves no reference behind, since every prerequisite that is there
    resolves. *)
Theorem references_resolve (s : Serializer.t) (o : MapOrders)
    (tickets : list Ticket.t) (epics : gmap string Ticket.t) (w : World) :
  let sc := (buildScenario s o tickets epics w).1 in
  let taskIDs := Task.ID <$> Scenario.Tasks sc in
  let resourceIDs := Resource.ID <$> Scenario.Resources sc in
  Reference.IDRef (Scenario.TopTask sc) ∈ taskIDs
  ∧ Reference.IDRef (Scenario.TopResource sc) ∈ resourceIDs
  ∧ (∀ t, t ∈ Scenario.Tasks sc →
       (∀ p, p ∈ Task.Prerequisites t → PrerequisiteTask.IDRef p ∈ taskIDs)
       ∧ (∀ r, r ∈ Task.ChildTasks t → Reference.IDRef r ∈ taskIDs)
       ∧ (∀ r, r ∈ Task.Assignments t → Reference.IDRef r ∈ resourceIDs))
  ∧ (∀ x, x ∈ Scenario.Resources sc →
       ∀ r, r ∈ Resource.ChildResources x → Reference.IDRef r ∈ resourceIDs).
Proof.
  cbn zeta. rewrite buildScenario_eq.
  cbn [fst builtScenario Scenario.Tasks Scenario.Resources Scenario.TopTask
       Scenario.TopResource Reference.IDRef].
  set (c := afterStaff tickets (idCounter w)).
  set (a2r := assigneeMap tickets (idCounter w)).
  rewrite !fmap_cons. unfold builtTasks. rewrite !fmap_app, staffPart_IDs.
  cbn [Task.ID topTask Resource.ID projectResource].
  assert (HL : ∀ id, id ∈ (numbered c tickets).*2 →
    id ∈ "t-1" :: (Task.ID <$> epicPart s o tickets epics c)
           ++ (Task.ID <$> donePart s o tickets epics c)
           ++ (Task.ID <$> leafPart tickets a2r c)).
  { intros id Hid. right. rewrite !elem_of_app, leafPart_IDs. auto. }
  assert (HE : ∀ id, id ∈ Task.ID <$> epicPart s o tickets epics c →
    id ∈ "t-1" :: (Task.ID <$> epicPart s o tickets epics c)
           ++ (Task.ID <$> donePart s o tickets epics c)
           ++ (Task.ID <$> leafPart tickets a2r c)).
  { intros id Hid. right. rewrite !elem_of_app. auto. }
  split; [left|]. split; [left|]. split.
  - intros t. rewrite elem_of_cons, !elem_of_app.
    intros [->|[Ht|[Ht|Ht]]].
    + split_and!; [by inversion 1| |by inversion 1].
      cbn [topTask Task.ChildTasks]. unfold builtRefs, topRefs.
      intros r. rewrite elem_of_app, !list_elem_of_fmap.
      intros [(p & -> & Hp)|(t' & -> & Ht')].
      * apply HL. apply list_elem_of_filter in Hp as [_ Hp]. simpl.
        by apply list_elem_of_fmap_2.
      * simpl. right. rewrite app_assoc, elem_of_app, <-fmap_app. left.
        by apply list_elem_of_fmap_2.
    + destruct (epicBlock_refs _ _ _ _ Ht) as (Has & Hpre & Hch).
      split_and!.
      * intros p Hp. by apply HE, Hpre.
      * intros r Hr. destruct (Hch r Hr) as (kv & Hkv & Hin).
        by apply HL, (epicPairs_refs s o tickets c kv).
      * rewrite Has. by inversion 1.
    + destruct (donePart_refs _ _ _ _ _ _ Ht) as (Hch & Has & Hpre).
      rewrite Hch, Has. split_and!; [|by inversion 1..].
      intros p Hp. by apply HE, Hpre.
    + destruct (leafPart_refs _ _ _ _ Ht) as (Hch & Hpre & Has).
      rewrite Hch. split_and!; [|by inversion 1|].
      * intros p Hp. by apply HL, Hpre.
      * intros r Hr. destruct (Has r Hr) as (name & Hname).
        right. by eapply assigneeMap_range.
  - intros x. rewrite elem_of_cons. intros [->|Hx] r Hr.
    + cbn [projectResource Resource.ChildResources] in Hr.
      apply list_elem_of_fmap in Hr as (id & -> & Hid). by right.
    + unfold staffPart in Hx. apply elem_of_zip_with in Hx as (n & id & -> & _).
      by inversion Hr.
Qed.

(** ** Epic materialization *)

Lemma fmap_flat_map_pairs {A B} (g : A → B) (l : list (A * A)) :
  g <$> flat_map (λ p, [p.1; p.2]) l = flat_map (λ p, [g p.1; g p.2]) l.
Proof.
  induction l as [|p l IH]; [done|]. cbn [flat_map]. by rewrite fmap_app, IH.
Qed.

Lemma epicDetails_default (epics : gmap string Ticket.t) (k : string) :
  epicDetails epics k
  = (default k (Ticket.Summary <$> epics !! k),
     default "" (Ticket.Link <$> epics !! k),
     default "" (Ticket.Status <$> epics !! k)).
Proof. unfold epicDetails. by destruct (epics !! k). Qed.

Lemma epicTaskPairs_Forall2 (epics : gmap string Ticket.t) (v : Z)
    (f : string → list Reference.t) (Q : string → Prop) (order : list string) :
  (∀ k, k ∈ order → Q k) →
  Forall2 (λ k p, Q k
                  ∧ p.1 = groupTask epics k (Task.ID p.1) (f k)
                  ∧ p.2 = milestoneTask epics k (Task.ID p.1) (Task.ID p.2))
          order (epicTaskPairs epics v ((λ k, (k, f k)) <$> order)).
Proof.
  revert v. induction order as [|k order IH]; intros v HQ; [constructor|].
  rewrite fmap_cons. cbn [epicTaskPairs fst snd]. constructor.
  - cbn [fst snd]. rewrite groupTask_ID. split; [apply HQ; left|done].
  - apply IH. intros k' Hk'. apply HQ. by right.
Qed.

Lemma memberRefs_leaves (tickets : list Ticket.t) (a2r : gmap string string)
    (c : Z) (k : string) :
  memberRefs c tickets k
  = (λ q, Reference.mk (Task.ID q.2))
      <$> filter (λ q, Ticket.EpicLink q.1 = k) (zip tickets (leafPart tickets a2r c)).
Proof.
  unfold memberRefs.
  pose proof (leafPart_ids (λ q, Ticket.EpicLink q.1 = k)
                (λ q, Ticket.EpicLink q.1 = k) tickets a2r c
                (λ _ _ _, reflexivity _)) as H.
  trans (Reference.mk
           <$> (filter (λ q, Ticket.EpicLink q.1 = k) (numbered c tickets)).*2).
  { by rewrite <-list_fmap_compose. }
  rewrite <-H. by rewrite <-list_fmap_compose.
Qed.

Lemma donePart_cases (s : Serializer.t) (o : MapOrders) (tickets : list Ticket.t)
    (epics : gmap string Ticket.t) (c : Z) :
  let prereqs := donePrereqs s o (epicPart s o tickets epics c)
                   (milestoneMap s o tickets epics c) in
  (donePart s o tickets epics c = []
   ∧ (Serializer.MilestoneDone s = false ∨ prereqs = []))
  ∨ (donePart s o tickets epics c
       = [doneTask (taskID (nextVal (afterEpics s o tickets c))) prereqs]
     ∧ Serializer.MilestoneDone s = true ∧ prereqs ≠ []).
Proof.
  cbn zeta. unfold donePart. cbn zeta.
  destruct (Serializer.MilestoneDone s); [|left; auto].
  destruct (donePrereqs s o _ _) as [|p ps]; [left; auto|right]. done.
Qed.

(** C1 (amended): with groupByEpic on, the keys of the epics with at least one
    member ticket are visited once each, in the order of the iteration over
    the map of their children (any order; not always that of first
    appearance). In that order the task list holds, for each key, one group
    task (title: the summary of the epic, or the key when the epic map lacks
    it; kind "group"; children: the task ids of the member tickets in input
    order; annotation: key, link, status) immediately followed by one
    milestone titled "<summary> Done" whose one prerequisite is the group
    task; no other task is a group apart from the root. The top-level
    references are the tickets without epic, then for each epic the group
    and its milestone, then the final milestone if any. *)
Theorem epic_materialization (s : Serializer.t) (o : MapOrders)
    (tickets : list Ticket.t) (epics : gmap string Ticket.t) (w : World) :
  Serializer.GroupByEpic s = true →
  iterationOf (epicOrder o) (epicKeys tickets) →
  ∃ refs (pairs : list (Task.t * Task.t)) doneTasks leaves,
    Scenario.Tasks (buildScenario s o tickets epics w).1
      = topTask refs :: flat_map (λ p, [p.1; p.2]) pairs ++ doneTasks ++ leaves
    ∧ length leaves = length tickets
    ∧ Forall (λ t, Task.Type_ t ≠ "group") (doneTasks ++ leaves)
    ∧ NoDup (epicOrder o)
    ∧ (∀ k, k ∈ epicOrder o ↔ k ≠ "" ∧ k ∈ Ticket.EpicLink <$> tickets)
    ∧ Forall2
        (λ k p,
           Task.Type_ p.1 = "group"
           ∧ Task.Title p.1 = default k (Ticket.Summary <$> epics !! k)
           ∧ Task.ChildTasks p.1
             = (λ q, Reference.mk (Task.ID q.2))
                 <$> filter (λ q, Ticket.EpicLink q.1 = k) (zip tickets leaves)
           ∧ Task.ChildTasks p.1 ≠ []
           ∧ Task.UserData p.1
             = jiraUserData k (default "" (Ticket.Link <$> epics !! k))
                 (default "" (Ticket.Status <$> epics !! k))
           ∧ Task.Type_ p.2 = "milestone"
           ∧ Task.Title p.2 = default k (Ticket.Summary <$> epics !! k) +:+ " Done"
           ∧ Task.Prerequisites p.2 = [PrerequisiteTask.mk (Task.ID p.1) ""])
        (epicOrder o) pairs
    ∧ Reference.IDRef <$> refs
      = ((λ q, Task.ID q.2)
           <$> filter (λ q, Ticket.EpicLink q.1 = "") (zip tickets leaves))
        ++ flat_map (λ p, [Task.ID p.1; Task.ID p.2]) pairs
        ++ (Task.ID <$> doneTasks).
Proof.
  intros HG Hperm. rewrite buildScenario_eq.
  cbn [fst builtScenario Scenario.Tasks].
  set (c := afterStaff tickets (idCounter w)).
  set (a2r := assigneeMap tickets (idCounter w)).
  set (f := memberRefs c tickets).
  set (pairs := epicTaskPairs epics (afterLeaves tickets c)
                  ((λ k, (k, f k)) <$> epicOrder o)).
  assert (Hep : epicPart s o tickets epics c = flat_map (λ p, [p.1; p.2]) pairs).
  { unfold epicPart. rewrite (epicPairs_valid s o tickets c HG Hperm).
    apply epicBlock_pairs. }
  exists (builtRefs s o tickets epics c), pairs,
         (donePart s o tickets epics c), (leafPart tickets a2r c).
  split_and!.
  - unfold builtTasks. by rewrite Hep.
  - unfold leafPart. by rewrite length_fmap, length_numbered.
  - apply Forall_app. split.
    + destruct (donePart_cases s o tickets epics c) as [[-> _]|[-> _]];
        by repeat constructor.
    + apply Forall_forall. intros t Ht.
      apply list_elem_of_lookup in Ht as [i Hi].
      destruct (Forall2_lookup_r _ _ _ _ _ (leafPart_leafOf tickets a2r c) Hi)
        as (tk & _ & _ & Htype & _).
      by rewrite Htype.
  - unfold iterationOf in Hperm. rewrite Hperm. apply NoDup_distinct.
  - intros k. unfold iterationOf in Hperm. rewrite Hperm. apply elem_of_epicKeys.
  - eapply Forall2_impl;
      [apply (epicTaskPairs_Forall2 epics _ f (λ k, f k ≠ []))|].
    { intros k Hk. unfold iterationOf in Hperm. rewrite Hperm in Hk.
      apply elem_of_epicKeys in Hk as [_ Hk]. by apply memberRefs_nonempty. }
    intros k [g m]. cbn [fst snd]. intros (Hk & Hg & Hm).
    destruct (groupTask_fields epics k (Task.ID g) (f k))
      as (Ht & Htitle & Hch & _ & _ & Hud).
    rewrite <-Hg in Ht, Htitle, Hch, Hud.
    unfold epicSummary in Htitle. rewrite epicDetails_default in Htitle, Hud.
    rewrite Hm. cbn [Task.Type_ Task.Title Task.Prerequisites milestoneTask].
    unfold epicSummary. rewrite epicDetails_default. cbn [fst snd].
    split_and!; try done.
    + rewrite Hch. apply memberRefs_leaves.
    + by rewrite Hch.
  - unfold builtRefs. rewrite fmap_app, Hep, <-!list_fmap_compose. f_equal.
    + unfold topRefs. rewrite <-list_fmap_compose.
      etrans; [|symmetry;
                apply (leafPart_ids (λ q, Ticket.EpicLink q.1 = "")
                         (λ q, Ticket.EpicLink q.1 = "") tickets a2r c); done].
      cbn [compose Reference.IDRef]. f_equal.
      apply list_filter_iff. intros [t id]. unfold grouped. rewrite HG. simpl.
      rewrite bool_decide_eq_false. split; [apply dec_stable|auto].
    + rewrite fmap_app. f_equal. apply (fmap_flat_map_pairs Task.ID).
Qed.

(** The three sample tickets, the map visited from its second epic on. *)
Lemma epic_materialization_witness :
  iterationOf ["EPIC-2"; "EPIC-1"] (epicKeys twoEpicTickets)
  ∧ ∃ refs pairs doneTasks leaves,
      Scenario.Tasks
        (buildScenario (Serializer.mk "Test Project" true false)
           (mkOrders ["EPIC-2"; "EPIC-1"] []) twoEpicTickets twoEpics
           freshWorld).1
      = topTask refs :: flat_map (λ p, [p.1; p.2]) pairs ++ doneTasks ++ leaves
      ∧ length leaves = length twoEpicTickets
      ∧ length pairs = 2%nat.
Proof.
  assert (Hperm : iterationOf ["EPIC-2"; "EPIC-1"] (epicKeys twoEpicTickets))
    by apply perm_swap.
  split; [exact Hperm|].
  destruct (epic_materialization (Serializer.mk "Test Project" true false)
              (mkOrders ["EPIC-2"; "EPIC-1"] []) twoEpicTickets twoEpics
              freshWorld eq_refl Hperm)
    as (refs & pairs & doneTasks & leaves & Htasks & Hlen & _ & _ & _ & Hpairs & _).
  exists refs, pairs, doneTasks, leaves.
  split; [exact Htasks|]. split; [exact Hlen|].
  symmetry. exact (Forall2_length _ _ _ Hpairs).
Defined.

(** C1, as the specification words it, fails: the iteration over the map may
    visit the second epic first, and then its group comes first in the task
    list, while the order of first appearance is EPIC-1, EPIC-2. *)
Lemma epic_order_is_not_first_appearance :
  iterationOf ["EPIC-2"; "EPIC-1"] (epicKeys twoEpicTickets)
  ∧ epicKeys twoEpicTickets = ["EPIC-1"; "EPIC-2"]
  ∧ epicGroupKeys
      (Scenario.Tasks
         (buildScenario (Serializer.mk "Test Project" true false)
            (mkOrders ["EPIC-2"; "EPIC-1"] []) twoEpicTickets twoEpics
            freshWorld).1)
    = ["EPIC-2"; "EPIC-1"].
Proof.
  split; [apply perm_swap|]. split; vm_compute; reflexivity.
Qed.

(** ** The final milestone *)

Lemma fst_epicMilestonesOf epics v kvs :
  (epicMilestonesOf epics v kvs).*1 = kvs.*1.
Proof.
  rewrite epicMilestonesOf_pairs. apply fst_zip.
  by rewrite !length_fmap, length_epicTaskPairs.
Qed.

Lemma snd_epicMilestonesOf epics v kvs :
  (epicMilestonesOf epics v kvs).*2 = milestonesOf (epicBlock epics v kvs).
Proof.
  rewrite epicMilestonesOf_pairs, milestonesOf_epicBlock. apply snd_zip.
  by rewrite !length_fmap, length_epicTaskPairs.
Qed.

Lemma memberRefs_member (c : Z) (tickets : list Ticket.t) (k : string) :
  memberRefs c tickets k ≠ [] → k ∈ Ticket.EpicLink <$> tickets.
Proof.
  unfold memberRefs. intros Hne.
  destruct (filter _ (numbered c tickets)) as [|p ps] eqn:Hf; [done|].
  assert (Hp : p ∈ filter (λ p, Ticket.EpicLink p.1 = k) (numbered c tickets))
    by (rewrite Hf; left).
  apply list_elem_of_filter in Hp as [<- Hp].
  apply list_elem_of_fmap_2. rewrite <-(fst_numbered c tickets).
  by apply list_elem_of_fmap_2.
Qed.

(** The keys of [epicToChildRefs] after the first pass are the epic keys of
    the tickets. *)
Lemma childMap_keys (s : Serializer.t) (tickets : list Ticket.t) (c : Z)
    (k : string) :
  Serializer.GroupByEpic s = true →
  is_Some (childMap s tickets c !! k) ↔ k ∈ epicKeys tickets.
Proof.
  intros HG. rewrite childMap_lookup, HG, elem_of_epicKeys. simpl.
  case_bool_decide as Hk.
  - split.
    + intros Hsome. split; [done|]. apply (memberRefs_member c).
      intros Hnil. rewrite Hnil in Hsome. by destruct Hsome.
    + intros [_ Hin]. pose proof (memberRefs_nonempty c tickets k Hin).
      by destruct (memberRefs c tickets k).
  - split; [by intros []|tauto].
Qed.

(** So are the keys of [epicMilestones] after an epic loop that visited
    every key. *)
Lemma milestoneMap_keys (s : Serializer.t) (o : MapOrders)
    (tickets : list Ticket.t) (epics : gmap string Ticket.t) (c : Z) (k : string) :
  Serializer.GroupByEpic s = true →
  iterationOf (epicOrder o) (epicKeys tickets) →
  is_Some (milestoneMap s o tickets epics c !! k) ↔ k ∈ epicKeys tickets.
Proof.
  intros HG Hperm. unfold milestoneMap.
  rewrite <-not_eq_None_Some, insertAll_lookup_None.
  assert (Hfst : (epicMilestonesOf epics (afterLeaves tickets c)
                    (epicPairs s o tickets c)).*1 = epicOrder o).
  { rewrite fst_epicMilestonesOf, (epicPairs_valid s o tickets c HG Hperm).
    rewrite <-list_fmap_compose. apply list_fmap_id. }
  rewrite Hfst. unfold iterationOf in Hperm. rewrite Hperm.
  split; [apply dec_stable|auto].
Qed.

Lemma donePrereqs_perm (s : Serializer.t) (o : MapOrders)
    (tickets : list Ticket.t) (epics : gmap string Ticket.t) (c : Z) :
  (Serializer.GroupByEpic s = true →
   iterationOf (epicOrder o) (epicKeys tickets)
   ∧ iterationOf (milestoneOrder o) (epicKeys tickets)) →
  donePrereqs s o (epicPart s o tickets epics c) (milestoneMap s o tickets epics c)
  ≡ₚ (λ m, PrerequisiteTask.mk (Task.ID m) "")
       <$> milestonesOf (epicPart s o tickets epics c).
Proof.
  intros Hvalid. unfold donePrereqs.
  destruct (Serializer.GroupByEpic s) eqn:HG; [|done].
  destruct (Hvalid eq_refl) as [H1 H2]. unfold milestoneMap, epicPart.
  rewrite <-snd_epicMilestonesOf, <-list_fmap_compose.
  assert (Hfst : (epicMilestonesOf epics (afterLeaves tickets c)
                    (epicPairs s o tickets c)).*1 = epicOrder o).
  { rewrite fst_epicMilestonesOf, (epicPairs_valid s o tickets c HG H1).
    rewrite <-list_fmap_compose. apply list_fmap_id. }
  rewrite rangeMap_insertAll; [done| |].
  - rewrite Hfst. unfold iterationOf in H1. rewrite H1. apply NoDup_distinct.
  - rewrite Hfst. unfold iterationOf in *. by rewrite H1, H2.
Qed.

(** C4 (amended): when addDoneMilestone is true (and, with grouping on, both
    iterations over the maps visit every epic key once), the prerequisites
    of the final milestone are the milestones of the task list built so far:
    with grouping on these are the epic milestones, each once, in the order
    of a second iteration over a map (any order; not always the order of
    their creation), and with grouping off the list built so far is empty.
    When there is no such milestone no "Done" task is created; otherwise
    exactly one milestone titled "Done" follows the epic tasks, and it is the
    last top-level reference. *)
Theorem final_milestone (s : Serializer.t) (o : MapOrders)
    (tickets : list Ticket.t) (epics : gmap string Ticket.t) (w : World) :
  Serializer.MilestoneDone s = true →
  (Serializer.GroupByEpic s = true →
   iterationOf (epicOrder o) (epicKeys tickets)
   ∧ iterationOf (milestoneOrder o) (epicKeys tickets)) →
  ∃ refs epicTasks doneTasks leaves,
    Scenario.Tasks (buildScenario s o tickets epics w).1
      = topTask refs :: epicTasks ++ doneTasks ++ leaves
    ∧ length leaves = length tickets
    ∧ groupsAndMilestones epicTasks
    ∧ (Serializer.GroupByEpic s = false → epicTasks = [])
    ∧ (Serializer.GroupByEpic s = true →
       length epicTasks = (2 * length (epicKeys tickets))%nat)
    ∧ (milestonesOf epicTasks = [] → doneTasks = [])
    ∧ (milestonesOf epicTasks ≠ [] →
       ∃ d, doneTasks = [d]
            ∧ Task.Title d = "Done" ∧ Task.Type_ d = "milestone"
            ∧ Task.Prerequisites d
              ≡ₚ (λ m, PrerequisiteTask.mk (Task.ID m) "")
                   <$> milestonesOf epicTasks
            ∧ last refs = Some (Reference.mk (Task.ID d))).
Proof.
  intros HM Hvalid. rewrite buildScenario_eq.
  cbn [fst builtScenario Scenario.Tasks].
  set (c := afterStaff tickets (idCounter w)).
  set (a2r := assigneeMap tickets (idCounter w)).
  exists (builtRefs s o tickets epics c), (epicPart s o tickets epics c),
         (donePart s o tickets epics c), (leafPart tickets a2r c).
  pose proof (donePrereqs_perm s o tickets epics c Hvalid) as Hperm.
  split_and!.
  - done.
  - unfold leafPart. by rewrite length_fmap, length_numbered.
  - apply epicBlock_groupsAndMilestones.
  - intros HG. unfold epicPart, epicPairs. by rewrite HG.
  - intros HG. destruct (Hvalid HG) as [H1 _].
    pose proof (epicBlock_IDs epics (afterLeaves tickets c)
                  (epicPairs s o tickets c)) as Hids.
    apply (f_equal length) in Hids.
    rewrite !length_fmap, length_vals in Hids.
    unfold epicPart. rewrite Hids, (epicPairs_valid s o tickets c HG H1).
    rewrite length_fmap. unfold iterationOf in H1. by rewrite H1.
  - intros Hnil. rewrite Hnil in Hperm. apply Permutation_nil_r in Hperm.
    destruct (donePart_cases s o tickets epics c) as [[-> _]|(_ & _ & Hne)];
      [done|]. by destruct Hne.
  - intros Hne.
    destruct (donePart_cases s o tickets epics c) as [[_ [Hf|Hnil]]|(Hd & _ & _)].
    + congruence.
    + rewrite Hnil in Hperm. symmetry in Hperm. apply Permutation_nil_r in Hperm.
      apply fmap_nil_inv in Hperm. by destruct Hne.
    + eexists. split; [exact Hd|]. split_and!; [done..|exact Hperm|].
      unfold builtRefs. rewrite Hd, fmap_app, app_assoc. apply last_snoc.
Qed.

(** The three sample tickets; the two iterations visit the epics in opposite
    orders. *)
Lemma final_milestone_witness :
  iterationOf ["EPIC-1"; "EPIC-2"] (epicKeys twoEpicTickets)
  ∧ iterationOf ["EPIC-2"; "EPIC-1"] (epicKeys twoEpicTickets)
  ∧ ∃ refs epicTasks doneTasks leaves,
      Scenario.Tasks
        (buildScenario (Serializer.mk "Test Project" true true)
           (mkOrders ["EPIC-1"; "EPIC-2"] ["EPIC-2"; "EPIC-1"])
           twoEpicTickets twoEpics freshWorld).1
      = topTask refs :: epicTasks ++ doneTasks ++ leaves
      ∧ length leaves = length twoEpicTickets
      ∧ length epicTasks = 4%nat.
Proof.
  assert (H1 : iterationOf ["EPIC-1"; "EPIC-2"] (epicKeys twoEpicTickets))
    by reflexivity.
  assert (H2 : iterationOf ["EPIC-2"; "EPIC-1"] (epicKeys twoEpicTickets))
    by apply perm_swap.
  split; [exact H1|]. split; [exact H2|].
  destruct (final_milestone (Serializer.mk "Test Project" true true)
              (mkOrders ["EPIC-1"; "EPIC-2"] ["EPIC-2"; "EPIC-1"])
              twoEpicTickets twoEpics freshWorld eq_refl (λ _, conj H1 H2))
    as (refs & epicTasks & doneTasks & leaves & Htasks & Hlen & _ & _ & Hl & _).
  exists refs, epicTasks, doneTasks, leaves.
  split; [exact Htasks|]. split; [exact Hlen|]. exact (Hl eq_refl).
Defined.

(** C4, as the specification words it, fails: with the second iteration
    visiting EPIC-2 first, the prerequisites of the "Done" milestone are the
    milestone of EPIC-2 and then that of EPIC-1, the reverse of the order in
    which the first iteration created them. *)
Lemma done_prerequisites_not_in_creation_order :
  let o := mkOrders ["EPIC-1"; "EPIC-2"] ["EPIC-2"; "EPIC-1"] in
  let tasks :=
    Scenario.Tasks
      (buildScenario (Serializer.mk "Test Project" true true) o
         twoEpicTickets twoEpics freshWorld).1 in
  iterationOf (epicOrder o) (epicKeys twoEpicTickets)
  ∧ iterationOf (milestoneOrder o) (epicKeys twoEpicTickets)
  ∧ (Task.Title <$> milestonesOf tasks) = ["Epic 1 Done"; "Epic 2 Done"; "Done"]
  ∧ (Task.ID <$> milestonesOf tasks) = ["t8"; "t10"; "t11"]
  ∧ ((λ t, PrerequisiteTask.IDRef <$> Task.Prerequisites t)
       <$> filter (λ t, Task.Title t = "Done") tasks) = [["t10"; "t8"]].
Proof.
  cbn zeta. split; [reflexivity|]. split; [apply perm_swap|].
  vm_compute. by repeat split.
Qed.

(** ** Identifiers *)

Lemma wrap64_small (z : Z) : min_int64 ≤ z ≤ max_int64 → wrap64 z = z.
Proof.
  unfold wrap64, min_int64, max_int64. intros Hz.
  rewrite Z.mod_small by lia. lia.
Qed.

(** Below the largest [int64] the counter counts up without wrap-around. *)
Lemma vals_range (v : Z) (n : nat) :
  0 ≤ v → v + Z.of_nat n ≤ max_int64 →
  NoDup (vals v n) ∧ ∀ x, x ∈ vals v n → v < x ≤ v + Z.of_nat n.
Proof.
  revert v. induction n as [|n IH]; intros v Hv Hmax.
  - split; [constructor|]. by inversion 1.
  - cbn [vals]. assert (Hnext : nextVal v = v + 1).
    { apply wrap64_small. unfold min_int64, max_int64 in *. lia. }
    rewrite Hnext. destruct (IH (v + 1)) as [Hnd Hin]; [lia..|].
    split.
    + constructor; [|done]. intros Hx%Hin. lia.
    + intros x [->|Hx%Hin]%elem_of_cons; lia.
Qed.

Lemma taskID_inj : Inj (=) (=) taskID.
Proof. intros x y [= H]. by apply (inj pretty). Qed.

Lemma resourceID_inj : Inj (=) (=) resourceID.
Proof. intros x y [= H]. by apply (inj pretty). Qed.

Lemma generateIDs_eq (n : nat) (w : World) :
  generateIDs n w
  = ((λ v, "gen" +:+ fmt_d v) <$> vals (idCounter w) n, advance n w).
Proof.
  revert w. induction n as [|n IH]; intros w.
  - simpl. unfold ret. by rewrite advance_0.
  - cbn [generateIDs]. unfold bind at 1, GenerateID. unfold bind at 1.
    rewrite idCounter_Add_1. unfold ret at 1. unfold bind. rewrite IH.
    unfold ret. by rewrite advance_advance.
Qed.

(** The counter values behind the identifiers of a built scenario are those
    of one run of successive calls. *)
Lemma scenario_vals (s : Serializer.t) (o : MapOrders) (tickets : list Ticket.t)
    (epics : gmap string Ticket.t) (c : Z) :
  let m := length (assigneeNames tickets) in
  let c1 := afterStaff tickets c in
  let e := length (epicPairs s o tickets c1) in
  let d := length (donePart s o tickets epics c1) in
  vals c (1 + m + length tickets + 2 * e + d)
  = [nextVal c] ++ vals (nextVal c) m ++ vals c1 (length tickets)
      ++ vals (afterLeaves tickets c1) (2 * e)
      ++ vals (afterEpics s o tickets c1) d.
Proof.
  cbn zeta. rewrite <-!Nat.add_assoc. rewrite !vals_app. reflexivity.
Qed.

Lemma donePart_IDs (s : Serializer.t) (o : MapOrders) (tickets : list Ticket.t)
    (epics : gmap string Ticket.t) (c : Z) :
  Task.ID <$> donePart s o tickets epics c
  = taskID <$> vals (afterEpics s o tickets c) (length (donePart s o tickets epics c)).
Proof.
  by destruct (donePart_cases s o tickets epics c) as [[-> _]|[-> _]].
Qed.

Lemma length_donePart (s : Serializer.t) (o : MapOrders) (tickets : list Ticket.t)
    (epics : gmap string Ticket.t) (c : Z) :
  (length (donePart s o tickets epics c) ≤ 1)%nat.
Proof.
  destruct (donePart_cases s o tickets epics c) as [[-> _]|[-> _]]; simpl; lia.
Qed.

Lemma length_epicPairs (s : Serializer.t) (o : MapOrders) (tickets : list Ticket.t)
    (c : Z) :
  (length (epicPairs s o tickets c) ≤ length (epicOrder o))%nat.
Proof.
  unfold epicPairs. destruct (Serializer.GroupByEpic s); simpl; [|lia].
  apply length_rangeMap.
Qed.

Lemma length_assigneeNames (tickets : list Ticket.t) :
  (length (assigneeNames tickets) ≤ length tickets)%nat.
Proof.
  unfold assigneeNames.
  assert (Hd : ∀ l, (length (distinct l) ≤ length l)%nat).
  { induction l as [|x l IH]; simpl; [done|].
    pose proof (length_filter (λ y, y ≠ x) (distinct l)). lia. }
  etrans; [apply Hd|]. etrans; [apply length_filter|]. by rewrite length_fmap.
Qed.

(** C9: while the counter has not reached the largest int64 (it starts at
    zero and a run adds one per identifier), successive calls of the
    generator return pairwise distinct strings, and the identifiers of one
    emitted document, the scenario id, the task ids with the fixed root
    "t-1" and the resource ids with the fixed root "r-1", are pairwise
    distinct. *)
Theorem identifiers_distinct (s : Serializer.t) (o : MapOrders)
    (tickets : list Ticket.t) (epics : gmap string Ticket.t) (w : World)
    (n : nat) :
  0 ≤ idCounter w →
  idCounter w + Z.of_nat n ≤ max_int64 →
  idCounter w + Z.of_nat (2 * length tickets + 2 * length (epicOrder o) + 2)
    ≤ max_int64 →
  NoDup (generateIDs n w).1
  ∧ NoDup (documentIDs (buildScenario s o tickets epics w).1).
Proof.
  intros H0 Hn Hmax. split.
  { rewrite generateIDs_eq. cbn [fst]. apply NoDup_fmap_2.
    - intros x y [= H]. by apply (inj pretty).
    - by apply vals_range. }
  rewrite buildScenario_eq. unfold documentIDs.
  cbn [fst builtScenario Scenario.ID Scenario.Tasks Scenario.Resources].
  set (c := idCounter w) in *. set (c1 := afterStaff tickets c).
  rewrite !fmap_cons, staffPart_IDs. unfold builtTasks, epicPart.
  rewrite !fmap_app, epicBlock_IDs, donePart_IDs, leafPart_IDs, snd_numbered.
  cbn [Task.ID topTask Resource.ID projectResource]. unfold staffIDs, scenarioID.
  set (m := length (assigneeNames tickets)).
  set (e := length (epicPairs s o tickets c1)).
  set (d := length (donePart s o tickets epics c1)).
  set (Vs := vals (nextVal c) m). set (Vl := vals c1 (length tickets)).
  set (Ve := vals (afterLeaves tickets c1) (2 * e)).
  set (Vd := vals (afterEpics s o tickets c1) d).
  pose proof (scenario_vals s o tickets epics c) as HV. cbn zeta in HV.
  fold c1 m e d Vs Vl Ve Vd in HV.
  pose proof (length_assigneeNames tickets) as Hm. fold m in Hm.
  pose proof (length_epicPairs s o tickets c1) as He. fold e in He.
  pose proof (length_donePart s o tickets epics c1) as Hd. fold d in Hd.
  destruct (vals_range c (1 + m + length tickets + 2 * e + d)) as [Hnd Hgt];
    [done|lia|].
  rewrite HV in Hnd, Hgt. clear HV.
  assert (Hpos : ∀ x, x ∈ Vs ++ Vl ++ Ve ++ Vd → x ≠ -1).
  { intros x Hx. assert (c < x); [|lia]. apply Hgt. rewrite elem_of_app. by right. }
  apply NoDup_app in Hnd as (_ & _ & Hnd).
  assert (HT : NoDup (-1 :: Ve ++ Vd ++ Vl)).
  { constructor.
    - intros Hin. apply (Hpos (-1)); [|done]. rewrite !elem_of_app in *. tauto.
    - apply NoDup_app in Hnd as (_ & _ & Hnd).
      by rewrite (assoc_L (++) Ve), (comm (++) _ Vl). }
  assert (HR : NoDup (-1 :: Vs)).
  { constructor.
    - intros Hin. apply (Hpos (-1)); [|done]. rewrite !elem_of_app. tauto.
    - by apply NoDup_app in Hnd as (Hnd & _). }
  change "t-1" with (taskID (-1)). change "r-1" with (resourceID (-1)).
  rewrite <-!fmap_app, <-!fmap_cons.
  constructor.
  - rewrite elem_of_app, !list_elem_of_fmap.
    intros [(x & Hx & _)|(x & Hx & _)]; discriminate Hx.
  - apply NoDup_app. split_and!.
    + by apply (NoDup_fmap_2 _).
    + intros id (x & -> & _)%list_elem_of_fmap (y & Hy & _)%list_elem_of_fmap.
      discriminate Hy.
    + by apply (NoDup_fmap_2 _).
Qed.

(** Three calls of the generator and the document of the three sample
    tickets, in a process that starts. *)
Lemma identifiers_distinct_witness :
  NoDup (generateIDs 3 freshWorld).1
  ∧ NoDup (documentIDs
             (buildScenario (Serializer.mk "Test Project" true true)
                (mkOrders ["EPIC-2"; "EPIC-1"] ["EPIC-1"; "EPIC-2"])
                twoEpicTickets twoEpics freshWorld).1).
Proof.
  apply (identifiers_distinct (Serializer.mk "Test Project" true true)
           (mkOrders ["EPIC-2"; "EPIC-1"] ["EPIC-1"; "EPIC-2"])
           twoEpicTickets twoEpics freshWorld 3);
    vm_compute; discriminate.
Defined.

(** ** Determinism *)

Lemma builtScenario_orders (s : Serializer.t) (o1 o2 : MapOrders)
    (tickets : list Ticket.t) (epics : gmap string Ticket.t) (c : Z) (w : World) :
  (Serializer.GroupByEpic s = true → epicOrder o1 = epicOrder o2) →
  (Serializer.GroupByEpic s = true → Serializer.MilestoneDone s = true →
   milestoneOrder o1 = milestoneOrder o2) →
  builtScenario s o1 tickets epics c = builtScenario s o2 tickets epics c
  ∧ finalWorld s o1 tickets epics c w = finalWorld s o2 tickets epics c w.
Proof.
  intros He Hm. destruct o1 as [e1 m1], o2 as [e2 m2]. cbn in He, Hm.
  unfold builtScenario, finalWorld, builtRefs, builtTasks, donePart, afterEpics,
    epicPart, milestoneMap, epicPairs, donePrereqs. cbn [epicOrder milestoneOrder].
  destruct (Serializer.GroupByEpic s); [|done].
  rewrite (He eq_refl).
  destruct (Serializer.MilestoneDone s); [|done].
  by rewrite (Hm eq_refl eq_refl).
Qed.

Lemma iterationOf_short (order1 order2 keys : list string) :
  (length keys ≤ 1)%nat →
  iterationOf order1 keys → iterationOf order2 keys → order1 = order2.
Proof.
  unfold iterationOf. intros Hlen H1 H2.
  destruct keys as [|k [|k' keys]]; [| |simpl in Hlen; lia].
  - apply Permutation_nil_r in H1, H2. congruence.
  - apply Permutation_singleton_r in H1, H2. congruence.
Qed.

(** C8 (amended): the output of build-then-serialize is a function of the
    tickets, the epic map, the options, the state of the identifier counter
    and the orders in which the run iterates over its two maps. When
    groupByEpic is false, or the tickets name at most one epic, that output
    (and what the run prints and leaves in the counter) is the same for all
    iteration orders, so two runs agree byte for byte. *)
Theorem serialize_deterministic (s : Serializer.t) (o1 o2 : MapOrders)
    (tickets : list Ticket.t) (epics : gmap string Ticket.t) (w : World) :
  (Serializer.GroupByEpic s = true →
   (length (epicKeys tickets) ≤ 1)%nat
   ∧ iterationOf (epicOrder o1) (epicKeys tickets)
   ∧ iterationOf (epicOrder o2) (epicKeys tickets)
   ∧ (Serializer.MilestoneDone s = true →
      iterationOf (milestoneOrder o1) (epicKeys tickets)
      ∧ iterationOf (milestoneOrder o2) (epicKeys tickets))) →
  Serialize s o1 tickets epics w = Serialize s o2 tickets epics w.
Proof.
  intros Hvalid. unfold Serialize, bind. rewrite !buildScenario_eq.
  destruct (builtScenario_orders s o1 o2 tickets epics (idCounter w) w)
    as [-> ->]; [| |done].
  - intros HG. destruct (Hvalid HG) as (Hlen & H1 & H2 & _).
    by apply (iterationOf_short _ _ (epicKeys tickets)).
  - intros HG HM. destruct (Hvalid HG) as (Hlen & _ & _ & Hms).
    destruct (Hms HM) as [H1 H2].
    by apply (iterationOf_short _ _ (epicKeys tickets)).
Qed.

(** The tickets of the grouping test, which name one epic, without the final
    milestone: the second iteration does not take place, whatever its order
    is taken to be. *)
Lemma serialize_deterministic_witness :
  (length (epicKeys groupingTickets) ≤ 1)%nat
  ∧ iterationOf ["EPIC-1"] (epicKeys groupingTickets)
  ∧ Serialize (Serializer.mk "Epic Project" true false)
      (mkOrders ["EPIC-1"] []) groupingTickets groupingEpics freshWorld
    = Serialize (Serializer.mk "Epic Project" true false)
        (mkOrders ["EPIC-1"] ["EPIC-1"]) groupingTickets groupingEpics freshWorld.
Proof.
  assert (Hlen : (length (epicKeys groupingTickets) ≤ 1)%nat) by (vm_compute; lia).
  assert (H1 : iterationOf ["EPIC-1"] (epicKeys groupingTickets)) by reflexivity.
  split; [exact Hlen|]. split; [exact H1|].
  apply (serialize_deterministic (Serializer.mk "Epic Project" true false)
           (mkOrders ["EPIC-1"] []) (mkOrders ["EPIC-1"] ["EPIC-1"])
           groupingTickets groupingEpics freshWorld).
  intros _. split; [exact Hlen|]. split; [exact H1|]. split; [exact H1|].
  intros HM. discriminate HM.
Defined.

(** C8, as the specification words it, fails: on the three sample tickets,
    which name two epics, two runs that iterate over the map of the epics in
    different orders write different documents. *)
Lemma serialization_depends_on_map_order :
  let s := Serializer.mk "Test Project" true true in
  let o1 := mkOrders ["EPIC-1"; "EPIC-2"] ["EPIC-1"; "EPIC-2"] in
  let o2 := mkOrders ["EPIC-2"; "EPIC-1"] ["EPIC-1"; "EPIC-2"] in
  iterationOf (epicOrder o1) (epicKeys twoEpicTickets)
  ∧ iterationOf (milestoneOrder o1) (epicKeys twoEpicTickets)
  ∧ iterationOf (epicOrder o2) (epicKeys twoEpicTickets)
  ∧ iterationOf (milestoneOrder o2) (epicKeys twoEpicTickets)
  ∧ (Serialize s o1 twoEpicTickets twoEpics freshWorld).1
    ≠ (Serialize s o2 twoEpicTickets twoEpics freshWorld).1.
Proof.
  cbn zeta. split; [reflexivity|]. split; [reflexivity|].
  split; [apply perm_swap|]. split; [reflexivity|].
  apply String.eqb_neq. vm_compute. reflexivity.
Qed.

(** ** The tests of the package, run on the model *)

(** TestSerializer_Serialize *)
Example test_Serialize :
  let output :=
    (Serialize (NewSerializer "Test Project") (mkOrders [] []) testTickets ∅
       freshWorld).1 in
  String.prefix
    ("<?xml version=" +:+ dquote +:+ "1.0" +:+ dquote +:+ " encoding=" +:+ dquote
       +:+ "UTF-8" +:+ dquote +:+ "?>") output
  && Contains output
       ("xmlns=" +:+ dquote +:+ "http://www.omnigroup.com/namespace/OmniPlan/v2"
          +:+ dquote)
  && forallb (Contains output)
       ["<granularity>days</granularity>"; "<title>First Task</title>";
        "<title>Second Task</title>"; "<string>TEST-1</string>";
        "<string>TEST-2</string>"; "<top-task"; "<effort>57600</effort>";
        "<effort>144000</effort>"; "<effort>28800</effort>";
        "<name>Alice Smith</name>"; "<name>Bob Jones</name>";
        "<type>Staff</type>"; "<assignment"; "<prerequisite-task"]
  = true.
Proof. vm_compute. reflexivity. Qed.

(** TestSerializer_EmptyTickets *)
Example test_EmptyTickets :
  Contains (Serialize (NewSerializer "Empty Project") (mkOrders [] []) [] ∅
              freshWorld).1 "<scenario" = true.
Proof. vm_compute. reflexivity. Qed.

(** TestSerializer_Serialize_WithEpicGrouping and
    TestSerializer_Serialize_WithMilestoneDone *)
Example test_WithEpicGrouping :
  let output :=
    (Serialize (Serializer.mk "Epic Project" true true)
       (mkOrders ["EPIC-1"] ["EPIC-1"]) groupingTickets groupingEpics
       freshWorld).1 in
  forallb (Contains output)
    ["<title>Big Project Epic</title>"; "<type>group</type>";
     "<string>EPIC-1</string>"; "<string>In Progress</string>";
     "<title>Big Project Epic Done</title>"; "<type>milestone</type>";
     "<prerequisite-task"; "<title>Done</title>"]
  = true.
Proof. vm_compute. reflexivity. Qed.

(** * Further properties *)

(** ** The empty plan *)

Lemma rangeMap_empty {V} (order : list string) :
  rangeMap order (∅ : gmap string V) = [].
Proof.
  unfold rangeMap. induction order as [|k order IH]; [done|].
  cbn [omap list_omap]. by rewrite lookup_empty.
Qed.

(** X1: without tickets the scenario holds the root group without children and
    the project resource without child resources, whatever the switches, the
    epic map and the iteration orders are; the run allocates one identifier,
    that of the scenario, and prints nothing. *)
Theorem empty_plan (s : Serializer.t) (o : MapOrders)
    (epics : gmap string Ticket.t) (w : World) :
  buildScenario s o [] epics w =
  (Scenario.mk Namespace Namespace ("gen" +:+ fmt_d (nextVal (idCounter w))) "days"
     (Reference.mk "r-1")
     [Resource.mk "r-1" (Serializer.ProjectName s) "Project" []]
     (Reference.mk "t-1")
     [Task.mk "t-1" "" "group" "" 0 "duration" 0 [] None [] [] None]
     criticalPaths,
   mkWorld (nextVal (idCounter w)) (stdout w)).
Proof.
  rewrite buildScenario_eq.
  assert (Hp : ∀ c, epicPairs s o [] c = []).
  { intros c. unfold epicPairs. destruct (Serializer.GroupByEpic s); [|done].
    apply rangeMap_empty. }
  assert (Hd : ∀ c, donePart s o [] epics c = []).
  { intros c. unfold donePart, donePrereqs, epicPart, milestoneMap. rewrite Hp.
    cbn [epicBlock epicMilestonesOf insertAll foldl].
    rewrite rangeMap_empty. rewrite filter_nil.
    by destruct (Serializer.GroupByEpic s), (Serializer.MilestoneDone s). }
  unfold builtScenario, finalWorld, builtTasks, builtRefs, epicPart, afterEpics, printed.
  rewrite !Hd, !Hp. destruct w as [c out]. cbn. by rewrite app_nil_r.
Qed.

(** ** What a run allocates *)

Lemma iterNext_small (n : nat) (v : Z) :
  0 ≤ v → v + Z.of_nat n ≤ max_int64 → iterNext n v = v + Z.of_nat n.
Proof.
  revert v. induction n as [|n IH]; intros v Hv Hmax; [simpl; lia|].
  cbn [iterNext]. assert (Hnext : nextVal v = v + 1).
  { apply wrap64_small. unfold min_int64, max_int64 in *. lia. }
  rewrite Hnext, IH; lia.
Qed.

Lemma length_epicBlock epics v kvs :
  length (epicBlock epics v kvs) = (2 * length kvs)%nat.
Proof.
  rewrite <-(length_fmap Task.ID), epicBlock_IDs, length_fmap. apply length_vals.
Qed.

Lemma length_leafPart (tickets : list Ticket.t) (a2r : gmap string string) (c : Z) :
  length (leafPart tickets a2r c) = length tickets.
Proof. unfold leafPart. by rewrite length_fmap, length_numbered. Qed.

(** The number of epics the loop visits, and whether the final milestone is
    created. *)
Lemma length_epicPairs_valid (s : Serializer.t) (o : MapOrders)
    (tickets : list Ticket.t) (c : Z) :
  (Serializer.GroupByEpic s = true → iterationOf (epicOrder o) (epicKeys tickets)) →
  length (epicPairs s o tickets c)
  = if Serializer.GroupByEpic s then length (epicKeys tickets) else 0%nat.
Proof.
  intros Ho. destruct (Serializer.GroupByEpic s) eqn:Hg.
  - rewrite epicPairs_valid by auto. rewrite length_fmap.
    apply Permutation_length, Ho; auto.
  - unfold epicPairs. by rewrite Hg.
Qed.

Lemma length_donePart_valid (s : Serializer.t) (o : MapOrders)
    (tickets : list Ticket.t) (epics : gmap string Ticket.t) (c : Z) :
  (Serializer.GroupByEpic s = true →
   iterationOf (epicOrder o) (epicKeys tickets)
   ∧ iterationOf (milestoneOrder o) (epicKeys tickets)) →
  length (donePart s o tickets epics c)
  = if Serializer.MilestoneDone s
       && bool_decide (0 < length (epicPairs s o tickets c))%nat
    then 1%nat else 0%nat.
Proof.
  intros Ho. pose proof (donePrereqs_perm s o tickets epics c Ho) as Hp.
  apply Permutation_length in Hp. rewrite length_fmap in Hp.
  unfold epicPart in Hp at 2. rewrite milestonesOf_epicBlock in Hp.
  rewrite length_fmap, length_epicTaskPairs in Hp.
  unfold donePart. rewrite Hp.
  by destruct (Serializer.MilestoneDone s && _).
Qed.

(** X2: a run advances the counter by one for the scenario, one per distinct
    assignee, one per ticket, two per epic with a member ticket when grouping
    is on, and one for the final milestone, which exists exactly when both
    switches are on and some ticket has an epic link; the emitted lists have
    the matching lengths. *)
Theorem identifiers_allocated (s : Serializer.t) (o : MapOrders)
    (tickets : list Ticket.t) (epics : gmap string Ticket.t) (w : World) :
  (Serializer.GroupByEpic s = true →
   iterationOf (epicOrder o) (epicKeys tickets)
   ∧ iterationOf (milestoneOrder o) (epicKeys tickets)) →
  let staff := length (assigneeNames tickets) in
  let groups := if Serializer.GroupByEpic s then length (epicKeys tickets) else 0%nat in
  let final := if Serializer.MilestoneDone s && bool_decide (0 < groups)%nat
               then 1%nat else 0%nat in
  let r := buildScenario s o tickets epics w in
  0 ≤ idCounter w →
  idCounter w + Z.of_nat (1 + staff + length tickets + 2 * groups + final) ≤ max_int64 →
  idCounter r.2
  = idCounter w + Z.of_nat (1 + staff + length tickets + 2 * groups + final)
  ∧ length (Scenario.Resources r.1) = (1 + staff)%nat
  ∧ length (Scenario.Tasks r.1) = (1 + length tickets + 2 * groups + final)%nat.
Proof.
  intros Ho staff groups final r H0 Hmax. subst r. rewrite buildScenario_eq.
  cbn [fst snd builtScenario finalWorld idCounter Scenario.Resources Scenario.Tasks].
  set (c := idCounter w) in *. set (c1 := afterStaff tickets c).
  assert (He : length (epicPairs s o tickets c1) = groups).
  { apply length_epicPairs_valid. intros Hg. by apply Ho. }
  assert (Hd : length (donePart s o tickets epics c1) = final).
  { rewrite length_donePart_valid by done. by rewrite He. }
  split_and!.
  - rewrite Hd. unfold afterEpics. rewrite He. unfold afterLeaves, c1, afterStaff.
    change (nextVal c) with (iterNext 1 c). rewrite <-!iterNext_add.
    rewrite iterNext_small; [f_equal; lia|done|].
    etrans; [|apply Hmax]. apply Zplus_le_compat_l. lia.
  - cbn [length]. unfold staffPart, staffIDs.
    rewrite length_zip_with, length_fmap, length_vals. fold staff. lia.
  - cbn [length]. unfold builtTasks, epicPart.
    rewrite !length_app, length_epicBlock, length_leafPart, He, Hd. lia.
Qed.

(** The three sample tickets of two epics and two assignees: eleven
    identifiers, three resources, nine tasks. *)
Lemma identifiers_allocated_witness :
  let r := buildScenario (Serializer.mk "Test Project" true true)
             (mkOrders ["EPIC-2"; "EPIC-1"] ["EPIC-1"; "EPIC-2"])
             twoEpicTickets twoEpics freshWorld in
  idCounter r.2 = 11
  ∧ length (Scenario.Resources r.1) = 3%nat
  ∧ length (Scenario.Tasks r.1) = 9%nat.
Proof.
  apply (identifiers_allocated (Serializer.mk "Test Project" true true)
           (mkOrders ["EPIC-2"; "EPIC-1"] ["EPIC-1"; "EPIC-2"])
           twoEpicTickets twoEpics freshWorld).
  - intros _. split; [apply Permutation_swap|reflexivity].
  - done.
  - vm_compute. discriminate.
Defined.

(** ** The epic map *)

Lemma epicDetails_agree (epics1 epics2 : gmap string Ticket.t) (k : string) :
  detailsOf (epics1 !! k) = detailsOf (epics2 !! k) →
  epicDetails epics1 k = epicDetails epics2 k.
Proof.
  unfold epicDetails, detailsOf.
  destruct (epics1 !! k), (epics2 !! k); cbn; congruence.
Qed.

Lemma epicBlock_agree (epics1 epics2 : gmap string Ticket.t) (v : Z)
    (kvs : list (string * list Reference.t)) :
  Forall (λ kv, detailsOf (epics1 !! kv.1) = detailsOf (epics2 !! kv.1)) kvs →
  epicBlock epics1 v kvs = epicBlock epics2 v kvs
  ∧ epicMilestonesOf epics1 v kvs = epicMilestonesOf epics2 v kvs.
Proof.
  intros H. revert v. induction H as [|kv kvs Hkv _ IH]; intros v; [done|].
  cbn [epicBlock epicMilestonesOf]. destruct (IH (nextVal (nextVal v))) as [-> ->].
  unfold groupTask, milestoneTask, epicSummary.
  by rewrite (epicDetails_agree _ _ _ Hkv).
Qed.

(** The keys the epic loop visits are epic links of tickets. *)
Lemma epicPairs_keys (s : Serializer.t) (o : MapOrders) (tickets : list Ticket.t)
    (c : Z) (kv : string * list Reference.t) :
  kv ∈ epicPairs s o tickets c →
  Serializer.GroupByEpic s = true ∧ kv.1 ≠ ""
  ∧ ∃ t, t ∈ tickets ∧ Ticket.EpicLink t = kv.1.
Proof.
  unfold epicPairs. destruct (Serializer.GroupByEpic s) eqn:Hg; [|by inversion 1].
  destruct kv as [k refs]. intros Hin%elem_of_rangeMap.
  rewrite childMap_lookup, Hg in Hin. cbn [andb fst] in *.
  case_bool_decide as Hk; [|done]. split_and!; [done..|].
  assert (Hm : memberRefs c tickets k ≠ []) by (by destruct (memberRefs c tickets k)).
  apply memberRefs_member, list_elem_of_fmap in Hm as (t & -> & Ht). eauto.
Qed.

Lemma builtScenario_agree (s : Serializer.t) (o : MapOrders)
    (tickets : list Ticket.t) (epics1 epics2 : gmap string Ticket.t) (w : World) :
  (Serializer.GroupByEpic s = true →
   Forall (λ t, Ticket.EpicLink t ≠ "" →
                detailsOf (epics1 !! Ticket.EpicLink t)
                = detailsOf (epics2 !! Ticket.EpicLink t)) tickets) →
  buildScenario s o tickets epics1 w = buildScenario s o tickets epics2 w.
Proof.
  intros H. rewrite !buildScenario_eq.
  set (c := idCounter w). set (c1 := afterStaff tickets c).
  assert (Hb : Forall (λ kv, detailsOf (epics1 !! kv.1) = detailsOf (epics2 !! kv.1))
                 (epicPairs s o tickets c1)).
  { apply Forall_forall. intros kv (Hg & Hne & t & Ht & Hk)%epicPairs_keys.
    specialize (H Hg). rewrite Forall_forall in H. rewrite <-Hk in *. by apply H. }
  destruct (epicBlock_agree _ _ (afterLeaves tickets c1) _ Hb) as [He Hm].
  assert (Hd : donePart s o tickets epics1 c1 = donePart s o tickets epics2 c1).
  { unfold donePart, epicPart, milestoneMap. by rewrite He, Hm. }
  unfold builtScenario, finalWorld, builtTasks, builtRefs, epicPart.
  fold c1. by rewrite He, Hd.
Qed.

(** X3: of the epic map the builder reads only the summary, the link and the
    status of the epics that tickets link to, and only when grouping is on:
    two epic maps that agree in these give the same scenario, the same output
    and the same final state. *)
Theorem epic_details_read_by_link (s : Serializer.t) (o : MapOrders)
    (tickets : list Ticket.t) (epics1 epics2 : gmap string Ticket.t) (w : World) :
  (Serializer.GroupByEpic s = true →
   Forall (λ t, Ticket.EpicLink t ≠ "" →
                detailsOf (epics1 !! Ticket.EpicLink t)
                = detailsOf (epics2 !! Ticket.EpicLink t)) tickets) →
  buildScenario s o tickets epics1 w = buildScenario s o tickets epics2 w
  ∧ Serialize s o tickets epics1 w = Serialize s o tickets epics2 w.
Proof.
  intros H. pose proof (builtScenario_agree s o tickets epics1 epics2 w H) as Heq.
  split; [done|]. unfold Serialize, bind. by rewrite Heq.
Qed.

(** An epic that no ticket links to, and another key, assignee, effort and
    dependency for an epic, change nothing. *)
Lemma epic_details_read_by_link_witness :
  Serialize (Serializer.mk "Epic Project" true true) (mkOrders ["EPIC-1"] ["EPIC-1"])
    groupingTickets groupingEpics freshWorld
  = Serialize (Serializer.mk "Epic Project" true true) (mkOrders ["EPIC-1"] ["EPIC-1"])
      groupingTickets otherEpics freshWorld.
Proof.
  apply (epic_details_read_by_link (Serializer.mk "Epic Project" true true)
           (mkOrders ["EPIC-1"] ["EPIC-1"]) groupingTickets groupingEpics
           otherEpics freshWorld).
  intros _. repeat constructor; intros _; vm_compute; reflexivity.
Defined.

(** ** Every task of a built list *)

Lemma epicBlock_Forall (P : Task.t → Prop) epics v kvs :
  (∀ k gid ch, P (groupTask epics k gid ch)) →
  (∀ k gid mid, P (milestoneTask epics k gid mid)) →
  Forall P (epicBlock epics v kvs).
Proof.
  intros Hg Hm. revert v. induction kvs as [|kv kvs IH]; intros v; [constructor|].
  cbn [epicBlock]. repeat constructor; auto.
Qed.

Lemma donePrereqs_Kind (s : Serializer.t) (o : MapOrders) (tasks : list Task.t)
    (em : gmap string Task.t) :
  Forall (λ p, PrerequisiteTask.Kind p = "") (donePrereqs s o tasks em).
Proof.
  unfold donePrereqs. destruct (Serializer.GroupByEpic s);
    apply Forall_fmap, Forall_true; done.
Qed.

Lemma builtScenario_Forall (P : Task.t → Prop) (s : Serializer.t) (o : MapOrders)
    (tickets : list Ticket.t) (epics : gmap string Ticket.t) (c : Z) :
  (∀ refs, P (topTask refs)) →
  (∀ k gid ch, P (groupTask epics k gid ch)) →
  (∀ k gid mid, P (milestoneTask epics k gid mid)) →
  (∀ id prereqs, prereqs ≠ [] →
                 Forall (λ p, PrerequisiteTask.Kind p = "") prereqs →
                 P (doneTask id prereqs)) →
  (∀ a2r m t id, t ∈ tickets →
     P (Task.appendPrerequisites (resolved m t) (leafTask a2r id t))) →
  Forall P (Scenario.Tasks (builtScenario s o tickets epics c)).
Proof.
  intros Ht Hg Hm Hd Hl. cbn [builtScenario Scenario.Tasks]. constructor; [done|].
  unfold builtTasks. rewrite !Forall_app. split_and!.
  - by apply epicBlock_Forall.
  - destruct (donePart_cases s o tickets epics (afterStaff tickets c))
      as [[-> _]|[-> (_ & Hne)]]; [constructor|].
    repeat constructor. apply Hd; [done|]. apply donePrereqs_Kind.
  - unfold leafPart. apply Forall_fmap, Forall_forall. intros [t id] Hin.
    apply Hl. rewrite <-(fst_numbered (afterStaff tickets c) tickets).
    apply list_elem_of_fmap. by exists (t, id).
Qed.



(** X5: every emitted task has the recalculation "duration", no static cost,
    no note and no leveled start, and its prerequisites carry no kind; an
    annotation block has three items; a task is a leaf (no kind, no children,
    an annotation, at most one assignment), a group (no effort, no
    prerequisite, no assignment) or a milestone (no effort, no children, no
    assignment, no annotation, at least one prerequisite). *)
Theorem tasks_well_kinded (s : Serializer.t) (o : MapOrders)
    (tickets : list Ticket.t) (epics : gmap string Ticket.t) (w : World) :
  Forall wellKinded (Scenario.Tasks (buildScenario s o tickets epics w).1).
Proof.
  rewrite buildScenario_eq. cbn [fst]. apply builtScenario_Forall.
  - intros refs. unfold wellKinded. cbn. split_and!; try done. right. by left.
  - intros k gid ch. unfold wellKinded, groupTask.
    destruct (epicDetails epics k) as [[? ?] ?]. cbn.
    split_and!; try done. right. by left.
  - intros k gid mid. unfold wellKinded. cbn. split_and!; try done.
    + by repeat constructor.
    + right. right. by split_and!.
  - intros id prereqs Hne HK. unfold wellKinded. cbn. split_and!; try done.
    right. right. by split_and!.
  - intros a2r m t id _.
    destruct (appendPrerequisites_fields (resolved m t) (leafTask a2r id t))
      as (_ & _ & Hty & Hch & Hpre & Has).
    destruct (leafTask_fields a2r id t) as (_ & (_ & Hty' & _ & Hch' & Hud) & Hpre' & Has').
    assert (Hud' : Task.UserData (Task.appendPrerequisites (resolved m t)
                     (leafTask a2r id t)) = Task.UserData (leafTask a2r id t)) by done.
    unfold wellKinded. rewrite Hty, Hch, Hpre, Has, Hud', Hty', Hch', Hud, Hpre', Has'.
    split_and!; try done.
    + unfold leafTask. by repeat case_match.
    + unfold leafTask. by repeat case_match.
    + unfold leafTask. by repeat case_match.
    + unfold leafTask. by repeat case_match.
    + cbn. unfold resolved, resolveKeys. apply Forall_forall.
      intros p (d & Hd & Hp)%list_elem_of_omap.
      destruct (m !! d); simplify_eq/=. done.
    + left. split_and!; [done..| |]; [by eexists|].
      repeat case_match; simpl; lia.
Qed.

(** ** A serializer as [NewSerializer] returns it *)

(** X6: a serializer fresh from NewSerializer has both switches off: the task
    list is the root followed by one leaf per ticket in input order, the
    children of the root are these leaves in that order, and the project
    resource is named after the project. *)
Theorem new_serializer_flat_plan (projectName : string) (o : MapOrders)
    (tickets : list Ticket.t) (epics : gmap string Ticket.t) (w : World) :
  let sc := (buildScenario (NewSerializer projectName) o tickets epics w).1 in
  ∃ leaves,
    Scenario.Tasks sc
    = topTask ((λ t, Reference.mk (Task.ID t)) <$> leaves) :: leaves
    ∧ Forall2 leafOf tickets leaves
    ∧ Resource.Name <$> head (Scenario.Resources sc) = Some projectName.
Proof.
  cbn zeta. rewrite buildScenario_eq. cbn [fst builtScenario Scenario.Tasks].
  set (c1 := afterStaff tickets (idCounter w)).
  set (a2r := assigneeMap tickets (idCounter w)).
  exists (leafPart tickets a2r c1). split_and!; [|apply leafPart_leafOf|done].
  unfold builtTasks, builtRefs, epicPart, donePart, epicPairs, topRefs.
  cbn [NewSerializer Serializer.GroupByEpic Serializer.MilestoneDone andb
       epicBlock app fmap list_fmap].
  rewrite app_nil_r. do 2 f_equal.
  rewrite filter_all by done.
  unfold leafPart. rewrite <-list_fmap_compose. apply list_fmap_ext.
  intros i [t id] _. cbn [compose fst snd].
  by rewrite appendPrerequisites_ID, leafTask_ID.
Qed.

(** ** Tickets that share a key *)

Lemma insertAll_last {V} (m : gmap string V) (l : list (string * V)) (k : string) :
  insertAll m l !! k
  = match last (filter (λ p, p.1 = k) l) with
    | Some p => Some p.2
    | None => m !! k
    end.
Proof.
  unfold insertAll. revert m. induction l as [|[k' v] l IH]; intros m; [done|].
  cbn [foldl]. rewrite IH. rewrite filter_cons. cbn [fst snd].
  destruct (decide (k' = k)) as [->|Hne].
  - rewrite last_cons. destruct (last _); [done|]. by rewrite lookup_insert_eq.
  - destruct (last _); [done|]. by rewrite lookup_insert_ne.
Qed.

Lemma keyMap_last (tickets : list Ticket.t) (a2r : gmap string string) (c : Z)
    (k : string) :
  keyMap tickets c !! k = lastWithKey tickets (leafPart tickets a2r c) k.
Proof.
  unfold keyMap, lastWithKey. rewrite insertAll_last, lookup_empty.
  rewrite filter_fmap. cbn [fst].
  assert (Hz : zip tickets (leafPart tickets a2r c)
               = (λ p, (p.1, Task.appendPrerequisites (resolved (keyMap tickets c) p.1)
                              (leafTask a2r p.2 p.1))) <$> numbered c tickets).
  { unfold leafPart, numbered. apply (zip_with_fmap_zip pair). }
  rewrite Hz, filter_fmap. cbn [fst]. rewrite !fmap_last.
  destruct (last _) as [[t id]|]; [|done]. cbn [fmap option_fmap option_map fst snd].
  by rewrite appendPrerequisites_ID, leafTask_ID.
Qed.

(** X7: a dependency key resolves to the leaf of the last ticket that has this
    key: when tickets share a key the earlier ones are never a prerequisite,
    and a ticket that names its own key depends on the last ticket of that
    key, possibly itself. *)
Theorem dependency_on_shared_key (s : Serializer.t) (o : MapOrders)
    (tickets : list Ticket.t) (epics : gmap string Ticket.t) (w : World) :
  let leaves :=
    emittedLeaves tickets (Scenario.Tasks (buildScenario s o tickets epics w).1) in
  Forall2
    (λ t leaf,
       Task.Prerequisites leaf
       = omap (λ depKey, (λ id, PrerequisiteTask.mk id "")
                           <$> lastWithKey tickets leaves depKey)
              (Ticket.DependencyKeys t))
    tickets leaves.
Proof.
  cbn zeta. rewrite emittedLeaves_scenario.
  set (a2r := assigneeMap tickets (idCounter w)).
  set (c1 := afterStaff tickets (idCounter w)).
  apply leafPart_Forall2. intros t id _.
  destruct (appendPrerequisites_fields (resolved (keyMap tickets c1) t)
              (leafTask a2r id t)) as (_ & _ & _ & _ & -> & _).
  destruct (leafTask_fields a2r id t) as (_ & _ & -> & _).
  cbn [app]. unfold resolved, resolveKeys.
  apply list_omap_ext, Forall_Forall2_diag, Forall_true. intros d.
  by rewrite (keyMap_last tickets a2r c1).
Qed.

(** ** The tree of the tasks *)

Lemma filter_ext_elem {A} (P Q : A → Prop) `{∀ x, Decision (P x)}
    `{∀ x, Decision (Q x)} (l : list A) :
  (∀ x, x ∈ l → P x ↔ Q x) → filter P l = filter Q l.
Proof.
  induction l as [|x l IH]; intros HPQ; [done|].
  rewrite !filter_cons. rewrite IH by (intros y Hy; apply HPQ; by right).
  destruct (decide (P x)) as [HP|HP], (decide (Q x)) as [HQ|HQ]; try done.
  - destruct HQ. apply HPQ; [by left|done].
  - destruct HP. apply HPQ; [by left|done].
Qed.

Lemma filter_or_disjoint {A} (P Q : A → Prop) `{∀ x, Decision (P x)}
    `{∀ x, Decision (Q x)} (l : list A) :
  (∀ x, P x → Q x → False) →
  filter P l ++ filter Q l ≡ₚ filter (λ x, P x ∨ Q x) l.
Proof.
  intros Hd. induction l as [|x l IH]; [done|].
  rewrite !filter_cons.
  destruct (decide (P x)) as [HP|HP], (decide (Q x)) as [HQ|HQ].
  - destruct (Hd x HP HQ).
  - rewrite decide_True by tauto. cbn. by rewrite IH.
  - rewrite decide_True by tauto. by rewrite <-Permutation_middle, IH.
  - rewrite decide_False by tauto. done.
Qed.

(** Sorting by key loses nothing: the elements with a key of a list of
    distinct keys, key by key. *)
Lemma flat_map_filter_keys {A} (f : A → string) (l : list A) (keys : list string) :
  NoDup keys →
  flat_map (λ k, filter (λ x, f x = k) l) keys ≡ₚ filter (λ x, f x ∈ keys) l.
Proof.
  induction 1 as [|k keys Hk _ IH]; cbn [flat_map].
  - rewrite (filter_ext_elem _ (λ _, False)); [|intros x _; by rewrite elem_of_nil].
    by induction l.
  - rewrite IH, filter_or_disjoint by (intros x <-; done).
    rewrite (list_filter_iff _ (λ x, f x ∈ k :: keys)); [done|].
    intros x. rewrite elem_of_cons. naive_solver.
Qed.

Lemma flat_map_Permutation {A B} (f : A → list B) (l1 l2 : list A) :
  l1 ≡ₚ l2 → flat_map f l1 ≡ₚ flat_map f l2.
Proof.
  induction 1 as [|x l1 l2 _ IH|x y l|l1 l2 l3 _ IH1 _ IH2]; cbn [flat_map].
  - done.
  - by rewrite IH.
  - by rewrite !(assoc_L (++)), (comm (++) (f y)).
  - by etrans.
Qed.

Lemma epicBlock_children epics v kvs :
  flat_map (λ t, Reference.IDRef <$> Task.ChildTasks t) (epicBlock epics v kvs)
  = flat_map (λ kv, Reference.IDRef <$> kv.2) kvs.
Proof.
  revert v. induction kvs as [|kv kvs IH]; intros v; [done|].
  cbn [epicBlock flat_map]. rewrite IH.
  destruct (groupTask_fields epics kv.1 (taskID (nextVal v)) kv.2)
    as (_ & _ & -> & _).
  cbn [milestoneTask Task.ChildTasks fmap list_fmap app]. done.
Qed.

Lemma flat_map_nil {A B} (f : A → list B) (l : list A) :
  Forall (λ x, f x = []) l → flat_map f l = [].
Proof. induction 1 as [|x l Hx _ IH]; [done|]. cbn. by rewrite Hx, IH. Qed.

Lemma flat_map_fmap {A B C} (f : B → list C) (g : A → B) (l : list A) :
  flat_map f (g <$> l) = flat_map (λ x, f (g x)) l.
Proof. induction l as [|x l IH]; [done|]. cbn. by rewrite IH. Qed.

Lemma fmap_flat_map {A B C} (f : A → list B) (g : B → C) (l : list A) :
  g <$> flat_map f l = flat_map (λ x, g <$> f x) l.
Proof. induction l as [|x l IH]; [done|]. cbn. by rewrite fmap_app, IH. Qed.

(** X8: the child references of the emitted tasks are, up to order, the ids of
    all tasks but the root, each once: every task other than the root is the
    child of exactly one group, the root or the group of its epic. *)
Theorem every_task_has_one_parent (s : Serializer.t) (o : MapOrders)
    (tickets : list Ticket.t) (epics : gmap string Ticket.t) (w : World) :
  (Serializer.GroupByEpic s = true → iterationOf (epicOrder o) (epicKeys tickets)) →
  let tasks := Scenario.Tasks (buildScenario s o tickets epics w).1 in
  flat_map (λ t, Reference.IDRef <$> Task.ChildTasks t) tasks
  ≡ₚ Task.ID <$> drop 1 tasks.
Proof.
  intros Ho. cbn zeta. rewrite buildScenario_eq.
  cbn [fst builtScenario Scenario.Tasks drop flat_map topTask Task.ChildTasks].
  set (c1 := afterStaff tickets (idCounter w)).
  set (a2r := assigneeMap tickets (idCounter w)).
  unfold builtTasks, builtRefs. rewrite !flat_map_app, !fmap_app.
  rewrite (flat_map_nil _ (leafPart _ _ _)); last first.
  { apply Forall_forall. intros t (-> & _)%leafPart_refs. done. }
  rewrite (flat_map_nil _ (donePart _ _ _ _ _)); last first.
  { apply Forall_forall. intros t (-> & _)%donePart_refs. done. }
  rewrite !app_nil_r, drop_0, !fmap_app, <-!list_fmap_compose.
  rewrite (list_fmap_ext _ Task.ID (epicPart s o tickets epics c1)) by done.
  rewrite (list_fmap_ext _ Task.ID (donePart s o tickets epics c1)) by done.
  rewrite leafPart_IDs. unfold topRefs. rewrite <-list_fmap_compose.
  rewrite (list_fmap_ext _ snd (filter _ _)) by done.
  set (E := Task.ID <$> epicPart s o tickets epics c1).
  set (D := Task.ID <$> donePart s o tickets epics c1).
  unfold epicPart. rewrite epicBlock_children.
  set (nb := numbered c1 tickets).
  assert (Hm : (filter (λ p, grouped s p.1 = false) nb).*2
               ++ flat_map (λ kv, Reference.IDRef <$> kv.2) (epicPairs s o tickets c1)
               ≡ₚ nb.*2).
  { destruct (Serializer.GroupByEpic s) eqn:Hg.
    - rewrite epicPairs_valid by auto. rewrite flat_map_fmap. cbn [snd].
      rewrite (flat_map_Permutation _ _ _ (Ho eq_refl)).
      erewrite flat_map_ext; last first.
      { intros k. unfold memberRefs. rewrite <-list_fmap_compose.
        apply (list_fmap_ext _ snd). by intros i p _. }
      rewrite <-(fmap_flat_map (λ k, filter (λ p, Ticket.EpicLink p.1 = k) nb) snd).
      rewrite flat_map_filter_keys by apply NoDup_distinct.
      rewrite <-fmap_app. apply fmap_Permutation.
      rewrite (filter_ext_elem _ (λ p, ¬ Ticket.EpicLink p.1 ∈ epicKeys tickets) nb).
      + rewrite (comm (++)). apply filter_app_complement.
      + intros [t id] Hin. cbn [fst]. unfold grouped. rewrite Hg. cbn [andb].
        rewrite elem_of_epicKeys. rewrite bool_decide_eq_false.
        assert (Ht : t ∈ tickets).
        { rewrite <-(fst_numbered c1 tickets). apply list_elem_of_fmap.
          by exists (t, id). }
        split; [tauto|]. intros Hnn Hne. apply Hnn. split; [done|].
        apply list_elem_of_fmap. by exists t.
    - unfold epicPairs. rewrite Hg. cbn [flat_map]. rewrite app_nil_r.
      rewrite filter_all; [done|]. intros p _. unfold grouped. by rewrite Hg. }
  rewrite <-Hm, <-!(assoc_L (++)), !(assoc_L (++) E D).
  apply Permutation_app_swap_app.
Qed.

(** The sample tickets of two epics, the epics visited in the order EPIC-2,
    EPIC-1. *)
Lemma every_task_has_one_parent_witness :
  let tasks :=
    Scenario.Tasks
      (buildScenario (Serializer.mk "Test Project" true true)
         (mkOrders ["EPIC-2"; "EPIC-1"] ["EPIC-1"; "EPIC-2"])
         twoEpicTickets twoEpics freshWorld).1 in
  flat_map (λ t, Reference.IDRef <$> Task.ChildTasks t) tasks
  ≡ₚ Task.ID <$> drop 1 tasks.
Proof.
  apply (every_task_has_one_parent (Serializer.mk "Test Project" true true)
           (mkOrders ["EPIC-2"; "EPIC-1"] ["EPIC-1"; "EPIC-2"])
           twoEpicTickets twoEpics freshWorld).
  intros _. apply Permutation_swap.
Defined.

(** ** Documents of one process *)

Lemma allocations_le (s : Serializer.t) (o : MapOrders) (tickets : list Ticket.t)
    (epics : gmap string Ticket.t) (c : Z) :
  (allocations s o tickets epics c
   ≤ 2 * length tickets + 2 * length (epicOrder o) + 2)%nat.
Proof.
  unfold allocations.
  pose proof (length_assigneeNames tickets).
  pose proof (length_epicPairs s o tickets (afterStaff tickets c)).
  pose proof (length_donePart s o tickets epics (afterStaff tickets c)). lia.
Qed.

Lemma finalWorld_counter (s : Serializer.t) (o : MapOrders) (tickets : list Ticket.t)
    (epics : gmap string Ticket.t) (c : Z) (w : World) :
  idCounter (finalWorld s o tickets epics c w)
  = iterNext (allocations s o tickets epics c) c.
Proof.
  unfold finalWorld, allocations, afterEpics, afterLeaves, afterStaff.
  cbn [idCounter]. change (nextVal c) with (iterNext 1 c).
  rewrite <-!iterNext_add. f_equal. lia.
Qed.

Lemma documentIDs_generated (s : Serializer.t) (o : MapOrders)
    (tickets : list Ticket.t) (epics : gmap string Ticket.t) (c : Z) :
  Forall (λ id, id = "t-1" ∨ id = "r-1"
                ∨ generatedFrom (vals c (allocations s o tickets epics c)) id)
    (documentIDs (builtScenario s o tickets epics c)).
Proof.
  unfold documentIDs, allocations.
  rewrite (scenario_vals s o tickets epics c).
  cbn [builtScenario Scenario.ID Scenario.Tasks Scenario.Resources].
  set (c1 := afterStaff tickets c).
  rewrite !fmap_cons, staffPart_IDs. unfold builtTasks, epicPart.
  rewrite !fmap_app, epicBlock_IDs, donePart_IDs, leafPart_IDs, snd_numbered.
  cbn [Task.ID topTask Resource.ID projectResource]. unfold staffIDs, scenarioID.
  set (Vs := vals (nextVal c) _). set (Vl := vals c1 _).
  set (Ve := vals (afterLeaves tickets c1) _).
  set (Vd := vals (afterEpics s o tickets c1) _).
  assert (Hgen : ∀ (f : Z → string) V,
            (∀ v, f v = "gen" +:+ fmt_d v ∨ f v = taskID v ∨ f v = resourceID v) →
            (∀ v, v ∈ V → v ∈ [nextVal c] ++ Vs ++ Vl ++ Ve ++ Vd) →
            Forall (λ id, id = "t-1" ∨ id = "r-1"
                          ∨ generatedFrom ([nextVal c] ++ Vs ++ Vl ++ Ve ++ Vd) id)
                   (f <$> V)).
  { intros f V Hf HV. apply Forall_fmap, Forall_forall. intros v Hv.
    right. right. exists v. split; [by apply HV|apply Hf]. }
  constructor; [|rewrite !Forall_app; split_and!].
  - right. right. exists (nextVal c). split; [by left|by left].
  - constructor; [by left|]. rewrite !Forall_app. split_and!.
    + apply Hgen; [tauto|]. intros v Hv. rewrite !elem_of_app. tauto.
    + apply Hgen; [tauto|]. intros v Hv. rewrite !elem_of_app. tauto.
    + apply Hgen; [tauto|]. intros v Hv. rewrite !elem_of_app. tauto.
  - constructor; [right; by left|].
    apply Hgen; [tauto|]. intros v Hv. rewrite !elem_of_app. tauto.
Qed.

Lemma generated_inj (v1 v2 : Z) (id : string) :
  (id = "gen" +:+ fmt_d v1 ∨ id = taskID v1 ∨ id = resourceID v1) →
  (id = "gen" +:+ fmt_d v2 ∨ id = taskID v2 ∨ id = resourceID v2) →
  v1 = v2.
Proof.
  unfold taskID, resourceID.
  intros [-> | [-> | ->]] [H|[H|H]]; try discriminate H;
    cbn in H; injection H as H; change (pretty v1 = pretty v2) in H;
    by apply (inj pretty) in H.
Qed.

(** X9: the counter is never reset, so two documents built one after the other
    in a process share no generated identifier: their scenario ids differ, and
    an identifier of both is one of the fixed roots "t-1" and "r-1". *)
Theorem successive_documents (s1 s2 : Serializer.t) (o1 o2 : MapOrders)
    (tickets1 tickets2 : list Ticket.t) (epics1 epics2 : gmap string Ticket.t)
    (w : World) :
  0 ≤ idCounter w →
  idCounter w
    + Z.of_nat (2 * length tickets1 + 2 * length (epicOrder o1) + 2
                + (2 * length tickets2 + 2 * length (epicOrder o2) + 2))
    ≤ max_int64 →
  let r1 := buildScenario s1 o1 tickets1 epics1 w in
  let r2 := buildScenario s2 o2 tickets2 epics2 r1.2 in
  Scenario.ID r1.1 ≠ Scenario.ID r2.1
  ∧ Forall (λ id, id ∈ documentIDs r1.1 → id = "t-1" ∨ id = "r-1")
      (documentIDs r2.1).
Proof.
  intros H0 Hmax. cbn zeta. rewrite !buildScenario_eq. cbn [fst snd].
  rewrite finalWorld_counter.
  set (c := idCounter w) in *.
  set (n1 := allocations s1 o1 tickets1 epics1 c).
  pose proof (allocations_le s1 o1 tickets1 epics1 c) as Hn1. fold n1 in Hn1.
  rewrite (iterNext_small n1 c) by lia.
  set (c2 := c + Z.of_nat n1).
  set (n2 := allocations s2 o2 tickets2 epics2 c2).
  pose proof (allocations_le s2 o2 tickets2 epics2 c2) as Hn2. fold n2 in Hn2.
  destruct (vals_range c n1) as [_ Hr1]; [done|lia|].
  destruct (vals_range c2 n2) as [_ Hr2]; [lia|unfold c2; lia|].
  pose proof (documentIDs_generated s1 o1 tickets1 epics1 c) as Hg1.
  pose proof (documentIDs_generated s2 o2 tickets2 epics2 c2) as Hg2.
  fold n1 in Hg1. fold n2 in Hg2. rewrite Forall_forall in Hg1.
  assert (Hfresh : ∀ id, generatedFrom (vals c n1) id →
                         generatedFrom (vals c2 n2) id → False).
  { intros id (v1 & Hv1 & Hid1) (v2 & Hv2 & Hid2).
    pose proof (generated_inj v1 v2 id Hid1 Hid2) as ->.
    apply Hr1 in Hv1. apply Hr2 in Hv2. unfold c2 in Hv2. lia. }
  split.
  - intros Heq. change (scenarioID c = scenarioID c2) in Heq.
    apply (Hfresh (scenarioID c)).
    + exists (nextVal c). split; [|by left].
      unfold n1, allocations. rewrite <-!Nat.add_assoc. cbn [vals Nat.add]. by left.
    + rewrite Heq. exists (nextVal c2). split; [|by left].
      unfold n2, allocations. rewrite <-!Nat.add_assoc. cbn [vals Nat.add]. by left.
  - eapply Forall_impl; [apply Hg2|]. cbn beta.
    intros id [-> | [-> | Hid2]] Hin; [by left|by right|].
    destruct (Hg1 id Hin) as [-> | [-> | Hid1]]; [by left|by right|].
    destruct (Hfresh id Hid1 Hid2).
Qed.

(** Two documents of a process that starts. *)
Lemma successive_documents_witness :
  let r1 := buildScenario (Serializer.mk "Test Project" true true)
              (mkOrders ["EPIC-2"; "EPIC-1"] ["EPIC-1"; "EPIC-2"])
              twoEpicTickets twoEpics freshWorld in
  let r2 := buildScenario (NewSerializer "Test Project") (mkOrders [] [])
              testTickets ∅ r1.2 in
  Scenario.ID r1.1 ≠ Scenario.ID r2.1
  ∧ Forall (λ id, id ∈ documentIDs r1.1 → id = "t-1" ∨ id = "r-1")
      (documentIDs r2.1).
Proof.
  apply (successive_documents (Serializer.mk "Test Project" true true)
           (NewSerializer "Test Project")
           (mkOrders ["EPIC-2"; "EPIC-1"] ["EPIC-1"; "EPIC-2"]) (mkOrders [] [])
           twoEpicTickets testTickets twoEpics ∅ freshWorld);
    vm_compute; discriminate.
Defined.

(** ** Writers *)

Lemma string_app_nil_r (s : string) : s +:+ "" = s.
Proof.
  induction s as [|a s IH]; [done|].
  change (String a (s +:+ "") = String a s). by rewrite IH.
Qed.

Lemma string_app_assoc (s1 s2 s3 : string) : s1 +:+ (s2 +:+ s3) = (s1 +:+ s2) +:+ s3.
Proof.
  induction s1 as [|a s1 IH]; [done|].
  change (String a (s1 +:+ (s2 +:+ s3)) = String a ((s1 +:+ s2) +:+ s3)).
  by rewrite IH.
Qed.

Lemma Encode_byteSliceWriter (buf : string) (ps : list string) :
  ToWriter.Encode ToWriter.byteSliceWriter_Write buf ps
  = (buf +:+ concatStrings ps, None).
Proof.
  revert buf. induction ps as [|p ps IH]; intros buf.
  - cbn. by rewrite string_app_nil_r.
  - cbn [ToWriter.Encode ToWriter.byteSliceWriter_Write]. rewrite IH.
    cbn [concatStrings foldr]. by rewrite string_app_assoc.
Qed.

(** X10: over the byte slice writer, whose Write appends and never fails,
    Serialize cannot fail: however the encoder cuts the document into writes,
    SerializeToString returns no error and the header, the document and the
    final newline in this order. *)
Theorem serialize_to_string_buffer (chunks : string → list string)
    (s : Serializer.t) (o : MapOrders) (tickets : list Ticket.t) (w : World) :
  (∀ document, concatStrings (chunks document) = document) →
  ToWriter.SerializeToString chunks s o tickets w
  = (((SerializeToString s o tickets w).1, None), (SerializeToString s o tickets w).2).
Proof.
  intros Hchunks.
  unfold ToWriter.SerializeToString, ToWriter.Serialize, SerializeToString, Serialize.
  unfold bind. destruct (buildScenario s o tickets ∅ w) as [sc w'].
  cbn [ToWriter.byteSliceWriter_Write]. rewrite Encode_byteSliceWriter, Hchunks.
  unfold ret. cbn [fst snd]. by rewrite <-!string_app_assoc.
Qed.

Lemma firstByteApart_concat (document : string) :
  concatStrings (firstByteApart document) = document.
Proof.
  destruct document as [|a rest]; [reflexivity|].
  apply (f_equal (String a)), string_app_nil_r.
Qed.

(** An encoder that writes the first byte on its own. *)
Lemma serialize_to_string_buffer_witness :
  ToWriter.SerializeToString firstByteApart
    (NewSerializer "Test Project") (mkOrders [] []) testTickets freshWorld
  = (((SerializeToString (NewSerializer "Test Project") (mkOrders [] []) testTickets
         freshWorld).1, None),
     (SerializeToString (NewSerializer "Test Project") (mkOrders [] []) testTickets
        freshWorld).2).
Proof.
  apply (serialize_to_string_buffer firstByteApart (NewSerializer "Test Project")
           (mkOrders [] []) testTickets freshWorld).
  intros [|a rest]; [reflexivity|]. apply (f_equal (String a)), string_app_nil_r.
Defined.

Lemma Encode_appends {W : Type} (Write : W → string → W * option string)
    (content : W → string) (wr : W) (ps : list string) :
  appends Write content →
  ∃ accepted rest,
    concatStrings ps = accepted +:+ rest
    ∧ content (ToWriter.Encode Write wr ps).1 = content wr +:+ accepted
    ∧ ((ToWriter.Encode Write wr ps).2 = None → rest = "").
Proof.
  intros Ha. revert wr. induction ps as [|p ps IH]; intros wr.
  - exists "", "". cbn [ToWriter.Encode fst snd].
    split_and!; [done|by rewrite string_app_nil_r|done].
  - cbn [ToWriter.Encode concatStrings foldr].
    destruct (Ha wr p) as (a & rest & Hp & Hc & Hn).
    destruct (Write wr p) as [wr' [err|]]; cbn [fst snd] in *.
    + exists a, (rest +:+ concatStrings ps). split_and!; [|done..].
      by rewrite Hp, string_app_assoc.
    + rewrite (Hn eq_refl), string_app_nil_r in Hp. subst a.
      destruct (IH wr') as (a' & rest' & Hps & Hc' & Hn').
      exists (p +:+ a'), rest'. split_and!; [| |done].
      * unfold concatStrings in Hps. by rewrite Hps, string_app_assoc.
      * by rewrite Hc', Hc, string_app_assoc.
Qed.

(** X11: Serialize builds the scenario before it writes, so the identifiers it
    allocates and the warnings it prints are those of buildScenario whether or
    not a write fails. For a writer that appends, what the writer has taken is
    a beginning of header, document and final newline, and all of it when
    Serialize returns no error; an error is returned as a header, encoding or
    final newline error. *)
Theorem serialize_writes_in_order {W : Type}
    (Write : W → string → W * option string) (content : W → string)
    (chunks : string → list string)
    (s : Serializer.t) (o : MapOrders) (wr : W) (tickets : list Ticket.t)
    (epics : gmap string Ticket.t) (w : World) :
  appends Write content →
  (∀ document, concatStrings (chunks document) = document) →
  let built := buildScenario s o tickets epics w in
  let r := ToWriter.Serialize Write chunks s o wr tickets epics w in
  r.2 = built.2
  ∧ (∃ accepted rest,
       xmlHeader +:+ encodeNode 0 (ScenarioXml built.1) +:+ newline
       = accepted +:+ rest
       ∧ content r.1.1 = content wr +:+ accepted
       ∧ (r.1.2 = None → rest = ""))
  ∧ match r.1.2 with
    | None => True
    | Some err =>
        ∃ cause, err = "writing XML header: " +:+ cause
                 ∨ err = "encoding scenario: " +:+ cause
                 ∨ err = "writing final newline: " +:+ cause
    end.
Proof.
  intros Ha Hchunks. cbn zeta. unfold ToWriter.Serialize, bind, ret.
  destruct (buildScenario s o tickets epics w) as [sc w']. cbn [fst snd].
  set (doc := encodeNode 0 (ScenarioXml sc)).
  destruct (Ha wr xmlHeader) as (a1 & r1 & H1 & Hc1 & Hn1).
  destruct (Write wr xmlHeader) as [wr1 [e1|]]; cbn [fst snd] in *.
  { split_and!; [done| |by exists e1; left].
    exists a1, (r1 +:+ doc +:+ newline). split_and!; [|done..].
    by rewrite H1, <-!string_app_assoc. }
  rewrite (Hn1 eq_refl), string_app_nil_r in H1. subst a1.
  destruct (Encode_appends Write content wr1 (chunks doc) Ha)
    as (a2 & r2 & H2 & Hc2 & Hn2). rewrite Hchunks in H2.
  destruct (ToWriter.Encode Write wr1 (chunks doc)) as [wr2 [e2|]];
    cbn [fst snd] in *.
  { split_and!; [done| |by exists e2; right; left].
    exists (xmlHeader +:+ a2), (r2 +:+ newline). split_and!; [| |done].
    - by rewrite H2, <-!string_app_assoc.
    - by rewrite Hc2, Hc1, string_app_assoc. }
  rewrite (Hn2 eq_refl), string_app_nil_r in H2. subst a2.
  destruct (Ha wr2 newline) as (a3 & r3 & H3 & Hc3 & Hn3).
  destruct (Write wr2 newline) as [wr3 [e3|]]; cbn [fst snd] in *.
  - split_and!; [done| |by exists e3; right; right].
    exists (xmlHeader +:+ doc +:+ a3), r3. split_and!; [| |done].
    + by rewrite H3, <-!string_app_assoc.
    + by rewrite Hc3, Hc2, Hc1, <-!string_app_assoc.
  - split_and!; [done| |done].
    exists (xmlHeader +:+ doc +:+ newline), "". split_and!; [|  |done].
    + by rewrite string_app_nil_r.
    + rewrite (Hn3 eq_refl), string_app_nil_r in H3. subst a3.
      by rewrite Hc3, Hc2, Hc1, <-!string_app_assoc.
Qed.

Lemma substring_all (p : string) : String.substring 0 (String.length p) p = p.
Proof. induction p as [|a p IH]; [done|]. cbn. by rewrite IH. Qed.

Lemma substring_split (n : nat) (p : string) :
  p = String.substring 0 n p
      +:+ String.substring n (String.length p - n) p.
Proof.
  revert n. induction p as [|a p IH]; intros [|n]; [done..| |].
  - cbn [String.substring String.length Nat.sub]. by rewrite substring_all.
  - cbn [String.substring String.length Nat.sub].
    change (String a p = String a (String.substring 0 n p
                                     +:+ String.substring n (String.length p - n) p)).
    f_equal. apply IH.
Qed.

Lemma boundedWrite_appends : appends boundedWrite fst.
Proof.
  intros [buf n] p. unfold boundedWrite. cbn [fst snd].
  destruct (String.length p <=? n)%nat.
  - exists p, "". by rewrite string_app_nil_r.
  - exists (String.substring 0 n p),
           (String.substring n (String.length p - n) p).
    split_and!; [apply substring_split|done|done].
Qed.

(** A writer with room for a hundred bytes. *)
Lemma serialize_writes_in_order_witness :
  let built := buildScenario (NewSerializer "Test Project") (mkOrders [] [])
                 testTickets ∅ freshWorld in
  let r := ToWriter.Serialize boundedWrite firstByteApart
             (NewSerializer "Test Project") (mkOrders [] []) ("", 100%nat)
             testTickets ∅ freshWorld in
  r.2 = built.2
  ∧ (∃ accepted rest,
       xmlHeader +:+ encodeNode 0 (ScenarioXml built.1) +:+ newline
       = accepted +:+ rest
       ∧ r.1.1.1 = "" +:+ accepted
       ∧ (r.1.2 = None → rest = ""))
  ∧ match r.1.2 with
    | None => True
    | Some err =>
        ∃ cause, err = "writing XML header: " +:+ cause
                 ∨ err = "encoding scenario: " +:+ cause
                 ∨ err = "writing final newline: " +:+ cause
    end.
Proof.
  exact (serialize_writes_in_order boundedWrite fst firstByteApart
           (NewSerializer "Test Project") (mkOrders [] []) ("", 100%nat)
           testTickets ∅ freshWorld boundedWrite_appends firstByteApart_concat).
Defined.

(** ** The annotation block in XML *)



(** ** The field ids of the client *)

Lemma HasPrefix_customfield (id : string) :
  HasPrefix ("customfield_" +:+ id) "customfield_" = true.
Proof. by destruct id. Qed.

Lemma withPrefix_prefixed (id : string) :
  id ≠ "" → HasPrefix (withPrefix id) "customfield_" = true.
Proof.
  intros Hne. unfold withPrefix. rewrite bool_decide_eq_true_2 by done.
  cbn [andb]. destruct (HasPrefix id "customfield_") eqn:Hp; [done|].
  apply HasPrefix_customfield.
Qed.

Lemma withPrefix_eq_empty (id : string) : withPrefix id = "" ↔ id = "".
Proof.
  split; [|by intros ->]. unfold withPrefix.
  destruct (bool_decide (id ≠ "") && _); [discriminate|done].
Qed.

Lemma withPrefix_idem (id : string) : withPrefix (withPrefix id) = withPrefix id.
Proof.
  destruct (decide (id = "")) as [->|Hne]; [done|].
  unfold withPrefix at 1. by rewrite (withPrefix_prefixed id Hne), andb_false_r.
Qed.

Lemma withPrefix_bare (id : string) :
  id ≠ "" → HasPrefix id "customfield_" = false →
  withPrefix id = "customfield_" +:+ id.
Proof.
  intros Hne Hp. unfold withPrefix. by rewrite Hp, bool_decide_eq_true_2.
Qed.

Lemma withPrefix_kept (id : string) :
  HasPrefix id "customfield_" = true → withPrefix id = id.
Proof. intros Hp. unfold withPrefix. by rewrite Hp, andb_false_r. Qed.

(** X13: NewClient fails exactly when the library client cannot be made;
    otherwise the client is initialized, each field id is kept as given when
    it is empty or begins with "customfield_" and gets this prefix when it is
    a bare id, so a configured id always begins with it; making a client from
    the ids of a client changes nothing. *)
Theorem new_client_field_ids {Handle : Type}
    (onpremise_NewClient : string → string → string + Handle)
    (endpoint pat effort epic : string) :
  match NewClient onpremise_NewClient endpoint pat effort epic with
  | inl err => onpremise_NewClient endpoint pat = inl err
  | inr c =>
      is_Some (Client.onpremiseClient c)
      ∧ Forall (λ ids : string * string,
                  let (given, kept) := ids in
                  (kept = "" ↔ given = "")
                  ∧ (given ≠ "" → HasPrefix kept "customfield_" = true)
                  ∧ (HasPrefix given "customfield_" = true → kept = given)
                  ∧ (given ≠ "" → HasPrefix given "customfield_" = false →
                     kept = "customfield_" +:+ given))
          [(effort, Client.effortCustomFieldID c);
           (epic, Client.epicLinkCustomFieldID c)]
      ∧ NewClient onpremise_NewClient endpoint pat
          (Client.effortCustomFieldID c) (Client.epicLinkCustomFieldID c) = inr c
  end.
Proof.
  unfold NewClient. destruct (onpremise_NewClient endpoint pat) as [err|client]; [done|].
  cbn [Client.onpremiseClient Client.effortCustomFieldID Client.epicLinkCustomFieldID].
  split_and!.
  - by eexists.
  - repeat constructor;
      auto using withPrefix_eq_empty, withPrefix_prefixed, withPrefix_kept,
                 withPrefix_bare;
      apply withPrefix_eq_empty.
  - by rewrite !withPrefix_idem.
Qed.

(** ** The loops of [GetTickets] *)

Section ClientLoops.
Context {Handle : Type}.
Variable Sscanf_f : string → option float64.
Variable Search : Handle → list Request → string + list Issue.t.

Lemma extractEffortDays_not_found (unknowns : option (gmap string Value))
    (effortFieldID : string) :
  (extractEffortDays Sscanf_f unknowns effortFieldID).2 = false →
  (extractEffortDays Sscanf_f unknowns effortFieldID).1 = float64_zero.
Proof.
  unfold extractEffortDays. destruct unknowns as [unknowns|]; [|done].
  destruct (unknowns !! effortFieldID) as [[| | |v|]|]; try done.
  by destruct (Sscanf_f v).
Qed.

Lemma link_loop (links : list (option IssueLink.t)) (acc : list string) (p : Process) :
  Forall is_Some links →
  forRangeJ links linkBody acc p = (Returns (acc ++ dependencyKeysOf links), p).
Proof.
  intros H. revert acc. induction H as [|link links [l ->] _ IH]; intros acc.
  - cbn. unfold retJ. by rewrite app_nil_r.
  - cbn [forRangeJ]. unfold bindJ, linkBody. unfold dependencyKeysOf.
    cbn [omap list_omap mbind option_bind]. fold (dependencyKeysOf links).
    destruct (decide (IssueLink.TypeName l = "Dependent")).
    + destruct (IssueLink.OutwardIssue l) as [key|]; unfold retJ; rewrite IH;
        [by rewrite <-(assoc_L (++))|done].
    + unfold retJ. by rewrite IH.
Qed.

Lemma printed_more_nil (p : Process) : printed_more [] p = p.
Proof.
  destruct p as [[c out] sent]. unfold printed_more. cbn. by rewrite app_nil_r.
Qed.

Lemma printed_more_app (l1 l2 : list string) (p : Process) :
  printed_more l2 (printed_more l1 p) = printed_more (l1 ++ l2) p.
Proof. unfold printed_more. cbn. by rewrite (assoc_L (++)). Qed.

Lemma ticketBody_wellFormed (c : Client.t Handle) (tickets : list Ticket.t)
    (i : Issue.t) (p : Process) :
  wellFormed i →
  ticketBody Sscanf_f c tickets i p
  = (Returns (tickets ++ [ticketOf Sscanf_f c i]),
     printed_more (effortWarnings [ticketOf Sscanf_f c i]) p).
Proof.
  unfold wellFormed, ticketBody, ticketOf.
  destruct (Issue.Fields i) as [fields|]; [|done]. intros [[status Hst] Hlinks].
  cbn [fmap option_fmap option_map mbind option_bind default].
  pose proof (extractEffortDays_not_found (IssueFields.Unknowns fields)
                (Client.effortCustomFieldID c)) as Hnf.
  destruct (extractEffortDays _ _ _) as [effortDays found]. cbn [fst snd] in *.
  rewrite Hst. cbn [default].
  assert (Hc : negb found || float64_eq effortDays float64_zero
               = float64_eq effortDays float64_zero).
  { destruct found; [done|]. by rewrite Hnf. }
  rewrite Hc. unfold effortWarnings. rewrite filter_cons, filter_nil.
  cbn [Ticket.EffortDays Ticket.Key Ticket.Summary].
  unfold bindJ at 1.
  destruct (float64_eq effortDays float64_zero) eqn:Hz.
  - rewrite decide_True by done. unfold PrintfJ at 1. unfold bindJ.
    rewrite link_loop by done. cbn [app]. unfold retJ. done.
  - rewrite decide_False by done. unfold retJ at 1. unfold bindJ.
    rewrite link_loop by done. cbn [app fmap list_fmap]. unfold retJ.
    by rewrite printed_more_nil.
Qed.

Lemma ticket_loop (c : Client.t Handle) (issues : list Issue.t)
    (acc : list Ticket.t) (p : Process) :
  Forall wellFormed issues →
  forRangeJ issues (ticketBody Sscanf_f c) acc p
  = (Returns (acc ++ (ticketOf Sscanf_f c <$> issues)),
     printed_more (effortWarnings (ticketOf Sscanf_f c <$> issues)) p).
Proof.
  intros H. revert acc p. induction H as [|i issues Hi _ IH]; intros acc p.
  - cbn. unfold retJ. by rewrite app_nil_r, printed_more_nil.
  - cbn [forRangeJ]. unfold bindJ. rewrite ticketBody_wellFormed by done.
    rewrite IH, printed_more_app, <-(assoc_L (++)). do 2 f_equal.
    unfold effortWarnings. rewrite fmap_cons, !filter_cons, filter_nil.
    by destruct (decide _).
Qed.

Lemma epicEntry_loop (epics : list Issue.t) (epicMap : gmap string Ticket.t)
    (p : Process) :
  Forall wellFormed epics →
  forRangeJ epics epicEntry epicMap p
  = (Returns (insertAll epicMap ((λ e, (Issue.Key e, epicTicket e)) <$> epics)), p).
Proof.
  intros H. revert epicMap. induction H as [|e epics He _ IH]; intros epicMap; [done|].
  cbn [forRangeJ]. unfold bindJ, epicEntry, wellFormed in *.
  destruct (Issue.Fields e) as [fields|] eqn:Hf; [|done].
  destruct He as [[status Hst] _].
  rewrite Hst. unfold retJ. rewrite IH, fmap_cons. unfold insertAll.
  cbn [foldl fst snd]. do 4 f_equal. unfold epicTicket. rewrite Hf. cbn.
  by rewrite Hst.
Qed.

Lemma forChunks_batches {St} (fuel i : nat) (epicKeys : list string)
    (body : St → list string → J St) (s : St) (p : Process) :
  forChunks fuel i epicKeys body s p
  = forRangeJ (batchesFrom fuel i epicKeys) body s p.
Proof.
  revert i s p. induction fuel as [|fuel IH]; intros i s p; [done|].
  cbn [forChunks batchesFrom]. destruct (i <? length epicKeys)%nat; [|done].
  cbn [forRangeJ]. unfold bindJ. destruct (body s _ p) as [[|s'] p']; [done|].
  apply IH.
Qed.

Lemma epicBatch_loop (client : Handle) (bs : list (list string))
    (epicMap : gmap string Ticket.t) (p : Process) :
  answersWellFormed Search client →
  forRangeJ bs (epicBatch Search client) epicMap p
  = let '(m, ws, sent) := epicPhase Search client bs (requests p) epicMap in
    (Returns m,
     mkProcess (mkWorld (idCounter (world p)) (stdout (world p) ++ ws)) sent).
Proof.
  intros Hwf. revert epicMap p. induction bs as [|b bs IH]; intros epicMap p.
  - cbn. unfold retJ. destruct p as [[c out] sent]. cbn. by rewrite app_nil_r.
  - cbn [forRangeJ epicPhase]. unfold bindJ at 1. unfold epicBatch at 1.
    unfold bindJ at 1. unfold IssueSearch at 1.
    pose proof (Hwf (requests p ++ [(epicQuery b, epicFields)])) as Hb.
    destruct (Search client (requests p ++ [(epicQuery b, epicFields)]))
      as [err|epics].
    + unfold bindJ, PrintfJ, retJ. rewrite IH. cbn.
      destruct (epicPhase _ _ _ _ _) as [[m ws] sent].
      by rewrite <-(assoc_L (++)).
    + rewrite epicEntry_loop by done. rewrite IH. cbn. done.
Qed.

Lemma GetTickets_eq (order : list string) (c : Client.t Handle) (jql : string)
    (client : Handle) (issues : list Issue.t) (p : Process) :
  Client.onpremiseClient c = Some client →
  Search client (requests p ++ [(jql, ticketFields c)]) = inr issues →
  answersWellFormed Search client →
  let tickets := ticketOf Sscanf_f c <$> issues in
  let keys := if decide (Client.epicLinkCustomFieldID c ≠ "")
              then (rangeMap order (uniqueEpicsOf tickets)).*1 else [] in
  GetTickets Sscanf_f Search order c jql p
  = let '(m, ws, sent) :=
      epicPhase Search client (batches keys)
        (requests p ++ [(jql, ticketFields c)]) ∅ in
    (Returns (inr (tickets, m)),
     mkProcess (mkWorld (idCounter (world p))
                  (stdout (world p) ++ effortWarnings tickets ++ ws)) sent).
Proof.
  intros Hc Hs Hwf tickets keys. unfold GetTickets. rewrite Hc.
  unfold bindJ at 1. unfold IssueSearch at 1. rewrite Hs.
  unfold bindJ at 1. rewrite ticket_loop; [|by specialize (Hwf (requests p ++ [(jql, ticketFields c)])); rewrite Hs in Hwf].
  cbn [app]. fold tickets. unfold bindJ, retJ.
  subst keys. destruct (decide (Client.epicLinkCustomFieldID c ≠ "")) as [Hepic|Hepic].
  - case_bool_decide as Hsize.
    + rewrite forChunks_batches. fold (batches (rangeMap order (uniqueEpicsOf tickets)).*1).
      rewrite epicBatch_loop by done. cbn [requests printed_more world idCounter stdout].
      destruct (epicPhase _ _ _ _ _) as [[m ws] sent]. by rewrite (assoc_L (++)).
    + assert (Hempty : uniqueEpicsOf tickets = ∅).
      { apply map_size_empty_iff. lia. }
      rewrite Hempty, rangeMap_empty. cbn. by rewrite !app_nil_r.
  - cbn. by rewrite !app_nil_r.
Qed.
End ClientLoops.

(** ** The batches of epic keys *)

Lemma batchesFrom_concat (fuel i : nat) (epicKeys : list string) :
  (length epicKeys - i ≤ fuel)%nat →
  concat (batchesFrom fuel i epicKeys) = drop i epicKeys.
Proof.
  revert i. induction fuel as [|fuel IH]; intros i Hf.
  - cbn. symmetry. apply drop_ge. lia.
  - cbn [batchesFrom]. destruct (Nat.ltb_spec i (length epicKeys)) as [Hi|Hi].
    + cbn [concat]. rewrite IH by (unfold chunkSize; lia).
      rewrite <-(take_drop chunkSize (drop i epicKeys)) at 2.
      rewrite drop_drop. f_equal.
      destruct (Nat.ltb_spec (length epicKeys) (i + chunkSize)) as [He|He].
      * rewrite !take_ge; [done|rewrite length_drop; lia..].
      * f_equal. lia.
    + symmetry. apply drop_ge. lia.
Qed.

Lemma batchesFrom_sizes (fuel i : nat) (epicKeys : list string) :
  Forall (λ b, (0 < length b ≤ chunkSize)%nat) (batchesFrom fuel i epicKeys).
Proof.
  revert i. induction fuel as [|fuel IH]; intros i; [constructor|].
  cbn [batchesFrom]. destruct (Nat.ltb_spec i (length epicKeys)) as [Hi|Hi];
    [|constructor].
  constructor; [|apply IH]. rewrite length_take, length_drop.
  destruct (Nat.ltb_spec (length epicKeys) (i + chunkSize)); unfold chunkSize in *; lia.
Qed.

Lemma batchesFrom_length (fuel i : nat) (epicKeys : list string) :
  (length epicKeys - i ≤ fuel)%nat →
  length (batchesFrom fuel i epicKeys) = ((length epicKeys - i + 49) / 50)%nat.
Proof.
  revert i. induction fuel as [|fuel IH]; intros i Hf.
  - cbn [batchesFrom length]. symmetry. apply Nat.div_small. lia.
  - cbn [batchesFrom]. destruct (Nat.ltb_spec i (length epicKeys)) as [Hi|Hi].
    + cbn [length]. rewrite IH by (unfold chunkSize; lia). unfold chunkSize.
      destruct (decide (length epicKeys - i ≤ 50)%nat) as [Hle|Hgt].
      * replace (length epicKeys - (i + 50))%nat with 0%nat by lia.
        rewrite (Nat.div_small (0 + 49) 50) by lia.
        apply (Nat.div_unique _ 50 1 (length epicKeys - i - 1)); lia.
      * replace (length epicKeys - i + 49)%nat
          with (length epicKeys - (i + 50) + 49 + 1 * 50)%nat by lia.
        rewrite Nat.div_add by lia. lia.
    + cbn [length]. symmetry. apply Nat.div_small. lia.
Qed.

(** The batches hold every key once, in order; none is empty and none holds
    more than fifty keys. *)
Lemma batches_spec (epicKeys : list string) :
  concat (batches epicKeys) = epicKeys
  ∧ Forall (λ b, (0 < length b ≤ chunkSize)%nat) (batches epicKeys)
  ∧ length (batches epicKeys) = ((length epicKeys + 49) / 50)%nat.
Proof.
  unfold batches. split_and!.
  - rewrite batchesFrom_concat by lia. apply drop_0.
  - apply batchesFrom_sizes.
  - rewrite batchesFrom_length by lia. by rewrite Nat.sub_0_r.
Qed.

(** ** The epics of the tickets *)

Lemma uniqueEpicsOf_lookup (tickets : list Ticket.t) (k : string) :
  uniqueEpicsOf tickets !! k
  = if decide (k ∈ epicKeys tickets) then Some true else None.
Proof.
  unfold uniqueEpicsOf.
  assert (H : ∀ m : gmap string bool,
            foldl (λ uniqueEpics t,
                     if decide (Ticket.EpicLink t ≠ "")
                     then <[Ticket.EpicLink t := true]> uniqueEpics else uniqueEpics)
                  m tickets !! k
            = if decide (k ∈ epicKeys tickets) then Some true else m !! k).
  { induction tickets as [|t tickets IH]; intros m.
    - cbn [foldl]. rewrite decide_False; [done|].
      intros [_ Hin]%elem_of_epicKeys. by apply elem_of_nil in Hin.
    - cbn [foldl]. rewrite IH.
      destruct (decide (k ∈ epicKeys tickets)) as [Hin|Hnin].
      + rewrite decide_True; [done|]. apply elem_of_epicKeys in Hin as [? ?].
        apply elem_of_epicKeys. split; [done|]. rewrite fmap_cons. by right.
      + destruct (decide (Ticket.EpicLink t ≠ "")) as [Hne|He].
        * destruct (decide (Ticket.EpicLink t = k)) as [<-|Hk].
          -- rewrite lookup_insert_eq. rewrite decide_True; [done|].
             apply elem_of_epicKeys. split; [done|]. rewrite fmap_cons. by left.
          -- rewrite lookup_insert_ne by done. rewrite decide_False; [done|].
             rewrite elem_of_epicKeys, fmap_cons, elem_of_cons.
             rewrite elem_of_epicKeys in Hnin.
             intros [Hk' [->|Hin]]; [done|]. by apply Hnin.
        * rewrite decide_False; [done|].
          rewrite elem_of_epicKeys, fmap_cons, elem_of_cons.
          rewrite elem_of_epicKeys in Hnin.
          intros [Hk [->|Hin]]; [|tauto]. by destruct He. }
  rewrite H. by rewrite lookup_empty.
Qed.

Lemma uniqueEpicsOf_range (order : list string) (tickets : list Ticket.t) :
  iterationOf order (epicKeys tickets) →
  (rangeMap order (uniqueEpicsOf tickets)).*1 = order.
Proof.
  intros Ho. rewrite (rangeMap_total order _ (λ _, true)).
  - rewrite <-list_fmap_compose. apply list_fmap_id.
  - intros k Hk. rewrite uniqueEpicsOf_lookup, decide_True; [done|].
    by rewrite <-Ho.
Qed.

(** ** What [GetTickets] returns *)

Lemma epicPhase_requests {Handle : Type}
    (Search : Handle → list Request → string + list Issue.t) (client : Handle)
    (bs : list (list string)) (sent : list Request) (m : gmap string Ticket.t) :
  (epicPhase Search client bs sent m).2
  = sent ++ ((λ b, (epicQuery b, epicFields)) <$> bs).
Proof.
  revert sent m. induction bs as [|b bs IH]; intros sent m.
  - cbn. by rewrite app_nil_r.
  - cbn [epicPhase]. destruct (Search client _) as [err|epics].
    + specialize (IH (sent ++ [(epicQuery b, epicFields)]) m).
      destruct (epicPhase _ _ _ _ _) as [[m' ws] sent']. cbn [snd] in *.
      by rewrite IH, <-(assoc_L (++)).
    + by rewrite IH, <-(assoc_L (++)).
Qed.

Lemma epicPhase_warnings {Handle : Type}
    (Search : Handle → list Request → string + list Issue.t) (client : Handle)
    (bs : list (list string)) (sent : list Request) (m : gmap string Ticket.t) :
  Forall (λ line, ∃ err, line = epicWarning err)
    (epicPhase Search client bs sent m).1.2.
Proof.
  revert sent m. induction bs as [|b bs IH]; intros sent m; [constructor|].
  cbn [epicPhase]. destruct (Search client _) as [err|epics]; [|apply IH].
  specialize (IH (sent ++ [(epicQuery b, epicFields)]) m).
  destruct (epicPhase _ _ _ _ _) as [[m' ws] sent']. cbn [fst snd] in *.
  constructor; [by exists err|done].
Qed.

Lemma epicPhase_entries {Handle : Type}
    (Search : Handle → list Request → string + list Issue.t) (client : Handle)
    (bs : list (list string)) (sent : list Request) (m : gmap string Ticket.t) :
  map_Forall (epicEntryOf Search client) m →
  map_Forall (epicEntryOf Search client) (epicPhase Search client bs sent m).1.1.
Proof.
  revert sent m. induction bs as [|b bs IH]; intros sent m Hm; [done|].
  cbn [epicPhase]. destruct (Search client _) as [err|epics] eqn:Hs.
  - specialize (IH (sent ++ [(epicQuery b, epicFields)]) m Hm).
    by destruct (epicPhase _ _ _ _ _) as [[m' ws] sent'].
  - apply IH. intros k t Hk. rewrite insertAll_eq in Hk.
    apply lookup_union_Some_raw in Hk as [Hk|[_ Hk]]; [|by apply Hm].
    apply elem_of_list_to_map_2 in Hk. rewrite elem_of_reverse in Hk.
    apply list_elem_of_fmap in Hk as (e & [= -> ->] & He).
    by exists sent, b, epics, e.
Qed.

Lemma sampleSearch_wellFormed : answersWellFormed sampleSearch tt.
Proof.
  intros sent. unfold sampleSearch.
  destruct sent as [|r1 [|r2 [|r3 sent]]]; [done| | |done];
    repeat constructor; by eexists.
Qed.

(** X14: GetTickets on a client that is not initialized returns the error
    "client not initialized" without sending a request; when the search for
    the tickets fails it returns the error of the search after this one
    request; in both cases nothing is printed and no ticket is returned. *)
Theorem get_tickets_errors {Handle : Type} (Sscanf_f : string → option float64)
    (Search : Handle → list Request → string + list Issue.t)
    (order : list string) (c : Client.t Handle) (jql : string) (p : Process) :
  match Client.onpremiseClient c with
  | None =>
      GetTickets Sscanf_f Search order c jql p
      = (Returns (inl "client not initialized"), p)
  | Some client =>
      match Search client (requests p ++ [(jql, ticketFields c)]) with
      | inl err =>
          GetTickets Sscanf_f Search order c jql p
          = (Returns (inl err),
             mkProcess (world p) (requests p ++ [(jql, ticketFields c)]))
      | inr _ => True
      end
  end.
Proof.
  unfold GetTickets. destruct (Client.onpremiseClient c) as [client|]; [|done].
  unfold bindJ, IssueSearch.
  by destruct (Search client (requests p ++ [(jql, ticketFields c)])).
Qed.

Lemma elem_of_dependencyKeysOf (links : list (option IssueLink.t)) (k : string) :
  k ∈ dependencyKeysOf links
  ↔ ∃ link, Some link ∈ links ∧ IssueLink.TypeName link = "Dependent"
            ∧ IssueLink.OutwardIssue link = Some k.
Proof.
  unfold dependencyKeysOf. rewrite list_elem_of_omap. split.
  - intros ([link|] & Hin & Hk); [|done]. cbn in Hk.
    destruct (decide _); [|done]. by exists link.
  - intros (link & Hin & Hty & Hout). exists (Some link). split; [done|].
    cbn. by rewrite decide_True.
Qed.

(** X15: when the search for the tickets succeeds (and the issues of every
    answer have their fields, their status and no nil link), GetTickets
    returns, whatever happens to the searches for the epics: one ticket per
    issue, in the order of the answer, with the key, the link, the summary and
    the status of the issue, the display name of the assignee or else the
    name, and as dependency keys the keys of the outward issues of the links
    of type "Dependent". *)
Theorem one_ticket_per_issue {Handle : Type} (Sscanf_f : string → option float64)
    (Search : Handle → list Request → string + list Issue.t)
    (order : list string) (c : Client.t Handle) (jql : string) (p : Process)
    (client : Handle) (issues : list Issue.t) :
  Client.onpremiseClient c = Some client →
  Search client (requests p ++ [(jql, ticketFields c)]) = inr issues →
  answersWellFormed Search client →
  ∃ tickets epicMap p',
    GetTickets Sscanf_f Search order c jql p = (Returns (inr (tickets, epicMap)), p')
    ∧ idCounter (world p') = idCounter (world p)
    ∧ Forall2
        (λ i t,
           Ticket.Key t = Issue.Key i ∧ Ticket.Link t = Issue.Self i
           ∧ ∃ fields,
               Issue.Fields i = Some fields
               ∧ Ticket.Summary t = IssueFields.Summary fields
               ∧ IssueFields.Status fields = Some (Ticket.Status t)
               ∧ Ticket.Assignee t
                 = match IssueFields.Assignee fields with
                   | Some user =>
                       if decide (User.DisplayName user = "") then User.Name user
                       else User.DisplayName user
                   | None => ""
                   end
               ∧ (∀ k, k ∈ Ticket.DependencyKeys t
                       ↔ ∃ link, Some link ∈ IssueFields.IssueLinks fields
                                 ∧ IssueLink.TypeName link = "Dependent"
                                 ∧ IssueLink.OutwardIssue link = Some k))
        issues tickets.
Proof.
  intros Hc Hs Hwf.
  pose proof (GetTickets_eq Sscanf_f Search order c jql client issues p Hc Hs Hwf) as Heq.
  cbn zeta in Heq. destruct (epicPhase _ _ _ _ _) as [[m ws] sent].
  eexists _, _, _. split; [exact Heq|]. split; [done|].
  apply Forall2_fmap_r, Forall_Forall2_diag.
  specialize (Hwf (requests p ++ [(jql, ticketFields c)])). rewrite Hs in Hwf.
  eapply Forall_impl; [exact Hwf|]. intros i Hi. unfold wellFormed in Hi.
  destruct (Issue.Fields i) as [fields|] eqn:Hf; [|done].
  destruct Hi as [[status Hst] _].
  unfold ticketOf. cbn. rewrite Hf. cbn. rewrite Hst.
  split_and!; [done..|]. exists fields. split_and!; try done.
  intros k. apply elem_of_dependencyKeysOf.
Qed.

(** The two sample issues. *)
Lemma one_ticket_per_issue_witness :
  ∃ tickets epicMap p',
    GetTickets (λ _, None) sampleSearch ["EPIC-1"] sampleClient "project = PROJ"
      freshProcess
    = (Returns (inr (tickets, epicMap)), p')
    ∧ length tickets = 2%nat.
Proof.
  destruct (one_ticket_per_issue (λ _, None) sampleSearch ["EPIC-1"] sampleClient
              "project = PROJ" freshProcess tt sampleIssues eq_refl eq_refl
              sampleSearch_wellFormed)
    as (tickets & epicMap & p' & Heq & _ & HF).
  exists tickets, epicMap, p'. split; [exact Heq|].
  symmetry. exact (Forall2_length _ _ _ HF).
Defined.

(** ** Effort *)

(** An effort that equals zero is not greater than zero. *)
Lemma float64_eq_zero_not_gt (x : float64) :
  float64_eq x float64_zero = true → float64_gt x float64_zero = false.
Proof. by destruct x as [[]|[]| |[] m e]. Qed.

(** X16: the effort of a ticket is the number in the effort field, the number
    a string in it scans to, and zero when the field is missing, nil, of
    another type or not a number. GetTickets prints, in the order of the
    tickets, one warning for each ticket whose effort equals zero, and then
    only warnings about epics; every ticket with such a warning gets the
    default effort of 28800 seconds in the plan. *)
Theorem effort_warnings {Handle : Type} (Sscanf_f : string → option float64)
    (Search : Handle → list Request → string + list Issue.t)
    (order : list string) (c : Client.t Handle) (jql : string) (p : Process)
    (client : Handle) (issues : list Issue.t) :
  Client.onpremiseClient c = Some client →
  Search client (requests p ++ [(jql, ticketFields c)]) = inr issues →
  answersWellFormed Search client →
  ∃ tickets epicMap p' epicWarnings,
    GetTickets Sscanf_f Search order c jql p = (Returns (inr (tickets, epicMap)), p')
    ∧ stdout (world p')
      = stdout (world p)
        ++ ((λ t, effortWarning (Ticket.Key t) (Ticket.Summary t))
              <$> filter (λ t, float64_eq (Ticket.EffortDays t) float64_zero = true)
                         tickets)
        ++ epicWarnings
    ∧ Forall (λ line, ∃ err, line = epicWarning err) epicWarnings
    ∧ Forall (λ t, float64_eq (Ticket.EffortDays t) float64_zero = true →
                   effort t = 28800)
        tickets
    ∧ Forall2 (λ i t, ∀ fields,
                 Issue.Fields i = Some fields →
                 match IssueFields.Unknowns fields
                       ≫= (.!! Client.effortCustomFieldID c) with
                 | Some (VFloat64 v) => Ticket.EffortDays t = v
                 | Some (VInt v) => Ticket.EffortDays t = float64_of_Z v
                 | Some (VString v) =>
                     Ticket.EffortDays t = default float64_zero (Sscanf_f v)
                 | _ => Ticket.EffortDays t = float64_zero
                 end)
        issues tickets.
Proof.
  intros Hc Hs Hwf.
  pose proof (GetTickets_eq Sscanf_f Search order c jql client issues p Hc Hs Hwf) as Heq.
  cbn zeta in Heq.
  pose proof (epicPhase_warnings Search client
                (batches (if decide (Client.epicLinkCustomFieldID c ≠ "")
                          then (rangeMap order
                                  (uniqueEpicsOf (ticketOf Sscanf_f c <$> issues))).*1
                          else []))
                (requests p ++ [(jql, ticketFields c)]) ∅) as Hws.
  destruct (epicPhase _ _ _ _ _) as [[m ws] sent]. cbn [fst snd] in Hws.
  eexists _, _, _, ws. split; [exact Heq|]. split_and!; [done|done| |].
  - apply Forall_forall. intros t _ Hz. apply effort_default.
    by apply float64_eq_zero_not_gt.
  - apply Forall2_fmap_r, Forall_Forall2_diag, Forall_true. intros i fields Hf.
    unfold ticketOf. cbn. rewrite Hf. cbn. unfold extractEffortDays.
    destruct (IssueFields.Unknowns fields) as [unknowns|]; [|done]. cbn.
    destruct (unknowns !! Client.effortCustomFieldID c) as [[| | |v|]|]; try done.
    by destruct (Sscanf_f v).
Qed.

(** The second sample issue has a nil effort. *)
Lemma effort_warnings_witness :
  ∃ tickets epicMap p',
    GetTickets (λ _, None) sampleSearch ["EPIC-1"] sampleClient "project = PROJ"
      freshProcess
    = (Returns (inr (tickets, epicMap)), p')
    ∧ stdout (world p') = [effortWarning "PROJ-2" "Second Task"].
Proof.
  destruct (effort_warnings (λ _, None) sampleSearch ["EPIC-1"] sampleClient
              "project = PROJ" freshProcess tt sampleIssues eq_refl eq_refl
              sampleSearch_wellFormed)
    as (tickets & epicMap & p' & ws & Heq & Hout & _).
  exists tickets, epicMap, p'. split; [exact Heq|].
  vm_compute in Heq. injection Heq as <- <- <-. reflexivity.
Defined.

(** ** Epics *)

(** X17: without an epic link field the client asks for five fields in one
    request and sends no other; no ticket has an epic link and the epic map is
    empty. *)
Theorem without_epic_link_field {Handle : Type} (Sscanf_f : string → option float64)
    (Search : Handle → list Request → string + list Issue.t)
    (order : list string) (c : Client.t Handle) (jql : string) (p : Process)
    (client : Handle) (issues : list Issue.t) :
  Client.onpremiseClient c = Some client →
  Client.epicLinkCustomFieldID c = "" →
  Search client
    (requests p
       ++ [(jql, ["summary"; "assignee"; "status"; "issuelinks";
                  Client.effortCustomFieldID c])])
  = inr issues →
  Forall wellFormed issues →
  ∃ tickets p',
    GetTickets Sscanf_f Search order c jql p = (Returns (inr (tickets, ∅)), p')
    ∧ length tickets = length issues
    ∧ Forall (λ t, Ticket.EpicLink t = "") tickets
    ∧ requests p'
      = requests p
        ++ [(jql, ["summary"; "assignee"; "status"; "issuelinks";
                   Client.effortCustomFieldID c])].
Proof.
  intros Hc He Hs Hwf. unfold GetTickets. rewrite Hc.
  unfold bindJ at 1. unfold IssueSearch at 1. unfold ticketFields.
  rewrite He. rewrite decide_False by (by intros []). rewrite app_nil_r, Hs.
  unfold bindJ at 1. rewrite ticket_loop by done.
  unfold bindJ, retJ. rewrite decide_False by (by intros []). cbn [app].
  eexists _, _. split; [reflexivity|]. split_and!.
  - by rewrite length_fmap.
  - apply Forall_fmap, Forall_true. intros i. unfold ticketOf.
    cbn [Ticket.EpicLink compose]. destruct (Issue.Fields i) as [fields|]; [|done].
    cbn. unfold epicLinkOf. by rewrite He.
  - done.
Qed.

(** The sample client without its epic link field. *)
Lemma without_epic_link_field_witness :
  ∃ tickets p',
    GetTickets (λ _, None) sampleSearch [] (Client.mk (Some tt) "customfield_10105" "")
      "project = PROJ" freshProcess
    = (Returns (inr (tickets, ∅)), p')
    ∧ length (requests p') = 1%nat.
Proof.
  destruct (without_epic_link_field (λ _, None) sampleSearch []
              (Client.mk (Some tt) "customfield_10105" "") "project = PROJ"
              freshProcess tt sampleIssues eq_refl eq_refl eq_refl)
    as (tickets & p' & Heq & _ & _ & Hreq).
  - repeat constructor; by eexists.
  - exists tickets, p'. split; [exact Heq|]. by rewrite Hreq.
Defined.

(** X18: with an epic link field, the requests after the search for the
    tickets ask for the epics by key, batch by batch: the batches hold the
    distinct epic links of the tickets, each once, in the order of the
    iteration over the map; no batch is empty, none holds more than fifty
    keys, and there are as many as fifty goes into the number of keys, rounded
    up. *)
Theorem epic_batches {Handle : Type} (Sscanf_f : string → option float64)
    (Search : Handle → list Request → string + list Issue.t)
    (order : list string) (c : Client.t Handle) (jql : string) (p : Process)
    (client : Handle) (issues : list Issue.t) :
  Client.onpremiseClient c = Some client →
  Client.epicLinkCustomFieldID c ≠ "" →
  Search client (requests p ++ [(jql, ticketFields c)]) = inr issues →
  answersWellFormed Search client →
  ∃ tickets epicMap p',
    GetTickets Sscanf_f Search order c jql p = (Returns (inr (tickets, epicMap)), p')
    ∧ (iterationOf order (epicKeys tickets) →
       ∃ bs : list (list string),
         requests p'
         = requests p ++ (jql, ticketFields c)
             :: ((λ b, ("key in (" +:+ Join b "," +:+ ")",
                        ["summary"; "status"; "issuelinks"])) <$> bs)
         ∧ concat bs = order
         ∧ Forall (λ b, (0 < length b ≤ 50)%nat) bs
         ∧ length bs = ((length order + 49) / 50)%nat).
Proof.
  intros Hc He Hs Hwf.
  pose proof (GetTickets_eq Sscanf_f Search order c jql client issues p Hc Hs Hwf) as Heq.
  cbn zeta in Heq. rewrite decide_True in Heq by done.
  set (tickets := ticketOf Sscanf_f c <$> issues) in *.
  pose proof (epicPhase_requests Search client
                (batches (rangeMap order (uniqueEpicsOf tickets)).*1)
                (requests p ++ [(jql, ticketFields c)]) ∅) as Hreq.
  destruct (epicPhase _ _ _ _ _) as [[m ws] sent]. cbn [snd] in Hreq.
  eexists _, _, _. split; [exact Heq|]. intros Ho.
  rewrite (uniqueEpicsOf_range order tickets Ho) in Hreq.
  exists (batches order). destruct (batches_spec order) as (Hcat & Hsz & Hlen).
  split_and!; [|done..]. cbn [requests]. by rewrite Hreq, <-(assoc_L (++)).
Qed.

(** One epic, one batch. *)
Lemma epic_batches_witness :
  ∃ tickets epicMap p',
    GetTickets (λ _, None) sampleSearch ["EPIC-1"] sampleClient "project = PROJ"
      freshProcess
    = (Returns (inr (tickets, epicMap)), p')
    ∧ snd <$> requests p'
      = [["summary"; "assignee"; "status"; "issuelinks"; "customfield_10105";
          "customfield_10106"];
         ["summary"; "status"; "issuelinks"]].
Proof.
  destruct (epic_batches (λ _, None) sampleSearch ["EPIC-1"] sampleClient
              "project = PROJ" freshProcess tt sampleIssues eq_refl)
    as (tickets & epicMap & p' & Heq & _).
  - discriminate.
  - reflexivity.
  - exact sampleSearch_wellFormed.
  - exists tickets, epicMap, p'. split; [exact Heq|].
    vm_compute in Heq. injection Heq as <- <- <-. reflexivity.
Defined.

(** X19: every entry of the epic map is the ticket of an epic that an answer
    to a query for epics holds, under the key of that epic: it has the
    summary, the link and the status of the epic, and no assignee, effort,
    epic link or dependency. A failed query leaves the map as it is. Without
    an epic link field, or when no ticket has an epic link, the map is empty
    and no query for epics is sent. *)
Theorem epic_map_entries {Handle : Type} (Sscanf_f : string → option float64)
    (Search : Handle → list Request → string + list Issue.t)
    (order : list string) (c : Client.t Handle) (jql : string) (p : Process)
    (client : Handle) (issues : list Issue.t) :
  Client.onpremiseClient c = Some client →
  Search client (requests p ++ [(jql, ticketFields c)]) = inr issues →
  answersWellFormed Search client →
  ∃ tickets epicMap p',
    GetTickets Sscanf_f Search order c jql p = (Returns (inr (tickets, epicMap)), p')
    ∧ map_Forall
        (λ k t,
           Ticket.Key t = k ∧ Ticket.Assignee t = ""
           ∧ Ticket.EffortDays t = float64_zero ∧ Ticket.EpicLink t = ""
           ∧ Ticket.DependencyKeys t = []
           ∧ ∃ sent b epics e fields,
               Search client (sent ++ [(epicQuery b, epicFields)]) = inr epics
               ∧ e ∈ epics ∧ Issue.Key e = k ∧ Issue.Fields e = Some fields
               ∧ Ticket.Summary t = IssueFields.Summary fields
               ∧ Ticket.Link t = Issue.Self e
               ∧ IssueFields.Status fields = Some (Ticket.Status t))
        epicMap
    ∧ ((Client.epicLinkCustomFieldID c = "" ∨ Forall (λ t, Ticket.EpicLink t = "") tickets) →
       epicMap = ∅ ∧ requests p' = requests p ++ [(jql, ticketFields c)]).
Proof.
  intros Hc Hs Hwf.
  pose proof (GetTickets_eq Sscanf_f Search order c jql client issues p Hc Hs Hwf) as Heq.
  cbn zeta in Heq. set (tickets := ticketOf Sscanf_f c <$> issues) in *.
  set (keys := if decide (Client.epicLinkCustomFieldID c ≠ "")
               then (rangeMap order (uniqueEpicsOf tickets)).*1 else []) in *.
  pose proof (epicPhase_entries Search client (batches keys)
                (requests p ++ [(jql, ticketFields c)]) ∅ (map_Forall_empty _)) as Hm.
  assert (Hnone : Client.epicLinkCustomFieldID c = ""
                  ∨ Forall (λ t, Ticket.EpicLink t = "") tickets → keys = []).
  { intros [He|Hno]; unfold keys.
    - rewrite decide_False; [done|]. by intros [].
    - destruct (decide _); [|done].
      assert (Hempty : uniqueEpicsOf tickets = ∅).
      { apply map_eq. intros k. rewrite uniqueEpicsOf_lookup, lookup_empty.
        rewrite decide_False; [done|].
        intros [Hk (t & -> & Ht)%list_elem_of_fmap]%elem_of_epicKeys.
        rewrite Forall_forall in Hno. by apply Hk, Hno. }
      by rewrite Hempty, rangeMap_empty. }
  destruct (epicPhase Search client (batches keys) _ _) as [[m ws] sent] eqn:Hph.
  cbn [fst] in Hm. eexists _, _, _. split; [exact Heq|]. split.
  - intros k t Hk. destruct (Hm k t Hk) as (sent0 & b & epics & e & Hse & He & Hke & ->).
    pose proof (Hwf (sent0 ++ [(epicQuery b, epicFields)])) as Hw. rewrite Hse in Hw.
    rewrite Forall_forall in Hw. specialize (Hw e He). unfold wellFormed in Hw.
    destruct (Issue.Fields e) as [fields|] eqn:Hf; [|done].
    destruct Hw as [[status Hst] _]. unfold epicTicket. rewrite Hf. cbn. rewrite Hst.
    split_and!; try done. by exists sent0, b, epics, e, fields.
  - intros Hn. rewrite (Hnone Hn) in Hph. cbn in Hph. by injection Hph as <- <- <-.
Qed.

(** The epic of the first sample issue. *)
Lemma epic_map_entries_witness :
  ∃ tickets epicMap p',
    GetTickets (λ _, None) sampleSearch ["EPIC-1"] sampleClient "project = PROJ"
      freshProcess
    = (Returns (inr (tickets, epicMap)), p')
    ∧ Ticket.Summary <$> epicMap !! "EPIC-1" = Some "Big Project Epic".
Proof.
  destruct (epic_map_entries (λ _, None) sampleSearch ["EPIC-1"] sampleClient
              "project = PROJ" freshProcess tt sampleIssues eq_refl eq_refl
              sampleSearch_wellFormed)
    as (tickets & epicMap & p' & Heq & _).
  exists tickets, epicMap, p'. split; [exact Heq|].
  vm_compute in Heq. injection Heq as <- <- <-. reflexivity.
Defined.

(** ** From the issues to the plan *)

(** X20: the tickets that GetTickets returns, given to the builder with the
    epic map, become the leaves of the plan: the leaf tasks are one per issue,
    in the order of the answer, each titled by the summary of its issue and
    annotated with its key, link and status. *)
Theorem fetched_issues_become_leaves {Handle : Type}
    (Sscanf_f : string → option float64)
    (Search : Handle → list Request → string + list Issue.t)
    (order : list string) (c : Client.t Handle) (jql : string) (p : Process)
    (client : Handle) (issues : list Issue.t) (s : Serializer.t) (o : MapOrders) :
  Client.onpremiseClient c = Some client →
  Search client (requests p ++ [(jql, ticketFields c)]) = inr issues →
  answersWellFormed Search client →
  ∃ tickets epicMap p',
    GetTickets Sscanf_f Search order c jql p = (Returns (inr (tickets, epicMap)), p')
    ∧ Forall2
        (λ i leaf,
           ∃ fields status,
             Issue.Fields i = Some fields
             ∧ IssueFields.Status fields = Some status
             ∧ Task.Title leaf = IssueFields.Summary fields
             ∧ Task.Type_ leaf = ""
             ∧ Task.UserData leaf = jiraUserData (Issue.Key i) (Issue.Self i) status)
        issues
        (emittedLeaves tickets
           (Scenario.Tasks (buildScenario s o tickets epicMap (world p')).1)).
Proof.
  intros Hc Hs Hwf.
  pose proof (GetTickets_eq Sscanf_f Search order c jql client issues p Hc Hs Hwf) as Heq.
  cbn zeta in Heq. destruct (epicPhase _ _ _ _ _) as [[m ws] sent].
  eexists _, _, _. split; [exact Heq|].
  rewrite emittedLeaves_scenario.
  set (leaves := leafPart _ _ _).
  assert (Hleaves : Forall2 leafOf (ticketOf Sscanf_f c <$> issues) leaves)
    by apply leafPart_leafOf.
  clearbody leaves. rewrite Forall2_fmap_l in Hleaves.
  specialize (Hwf (requests p ++ [(jql, ticketFields c)])). rewrite Hs in Hwf.
  clear Hs Heq. revert Hwf.
  induction Hleaves as [|i leaf issues' leaves' Hl _ IH]; intros Hwf; [constructor|].
  apply Forall_cons in Hwf as [Hi Hwf]. constructor; [|by apply IH].
  unfold wellFormed in Hi. destruct (Issue.Fields i) as [fields|] eqn:Hf; [|done].
  destruct Hi as [[status Hst] _]. exists fields, status.
  destruct Hl as (Ht & Hty & _ & _ & Hud). revert Ht Hud.
  unfold ticketOf. cbn. rewrite Hf. cbn. rewrite Hst. cbn. by intros -> ->.
Qed.

(** The two sample issues, with grouping and the final milestone. *)
Lemma fetched_issues_become_leaves_witness :
  ∃ tickets epicMap p',
    GetTickets (λ _, None) sampleSearch ["EPIC-1"] sampleClient "project = PROJ"
      freshProcess
    = (Returns (inr (tickets, epicMap)), p')
    ∧ length
        (emittedLeaves tickets
           (Scenario.Tasks
              (buildScenario (Serializer.mk "Test Project" true true)
                 (mkOrders ["EPIC-1"] ["EPIC-1"]) tickets epicMap (world p')).1))
      = 2%nat.
Proof.
  destruct (fetched_issues_become_leaves (λ _, None) sampleSearch ["EPIC-1"]
              sampleClient "project = PROJ" freshProcess tt sampleIssues
              (Serializer.mk "Test Project" true true)
              (mkOrders ["EPIC-1"] ["EPIC-1"]) eq_refl eq_refl
              sampleSearch_wellFormed)
    as (tickets & epicMap & p' & Heq & HF).
  exists tickets, epicMap, p'. split; [exact Heq|].
  symmetry. exact (Forall2_length _ _ _ HF).
Defined.

Lemma Forall2_Forall_impl {A B} (P R : A → B → Prop) (Q : A → Prop)
    (l : list A) (k : list B) :
  Forall2 P l k → Forall Q l → (∀ x y, P x y → Q x → R x y) → Forall2 R l k.
Proof.
  intros HP HQ HR. induction HP as [|x y l k Hxy _ IH]; [constructor|].
  apply Forall_cons in HQ as [Hx HQ]. constructor; auto.
Qed.

(** X21: with distinct issue keys, the prerequisites of the leaf of an issue
    are exactly the leaves of the issues of the answer that a link of type
    Dependent of the issue names as its outward issue; a link to an issue
    outside the answer gives no prerequisite. *)
Theorem dependent_links_become_prerequisites {Handle : Type}
    (Sscanf_f : string → option float64)
    (Search : Handle → list Request → string + list Issue.t)
    (order : list string) (c : Client.t Handle) (jql : string) (p : Process)
    (client : Handle) (issues : list Issue.t) (s : Serializer.t) (o : MapOrders) :
  Client.onpremiseClient c = Some client →
  Search client (requests p ++ [(jql, ticketFields c)]) = inr issues →
  answersWellFormed Search client →
  NoDup (Issue.Key <$> issues) →
  ∃ tickets epicMap p',
    GetTickets Sscanf_f Search order c jql p = (Returns (inr (tickets, epicMap)), p')
    ∧ let leaves :=
        emittedLeaves tickets
          (Scenario.Tasks (buildScenario s o tickets epicMap (world p')).1) in
      Forall2
        (λ i leaf,
           ∀ prerequisite,
             prerequisite ∈ Task.Prerequisites leaf
             ↔ ∃ fields link n target targetLeaf,
                 Issue.Fields i = Some fields
                 ∧ Some link ∈ IssueFields.IssueLinks fields
                 ∧ IssueLink.TypeName link = "Dependent"
                 ∧ IssueLink.OutwardIssue link = Some (Issue.Key target)
                 ∧ issues !! n = Some target
                 ∧ leaves !! n = Some targetLeaf
                 ∧ prerequisite = PrerequisiteTask.mk (Task.ID targetLeaf) "")
        issues leaves.
Proof.
  intros Hc Hs Hwf Hnd.
  pose proof (GetTickets_eq Sscanf_f Search order c jql client issues p Hc Hs Hwf) as Heq.
  cbn zeta in Heq. destruct (epicPhase _ _ _ _ _) as [[m ws] sent].
  eexists _, _, _. split; [exact Heq|]. cbn zeta.
  rewrite emittedLeaves_scenario.
  set (tickets := ticketOf Sscanf_f c <$> issues).
  set (a2r := assigneeMap tickets _). set (c1 := afterStaff tickets _).
  specialize (Hwf (requests p ++ [(jql, ticketFields c)])). rewrite Hs in Hwf.
  clear Heq Hs.
  assert (Hkeys : Ticket.Key <$> tickets = Issue.Key <$> issues).
  { unfold tickets. rewrite <-list_fmap_compose. by apply list_fmap_ext. }
  (* the key map sends the key of the n-th issue to the id of the n-th leaf *)
  assert (Hmap : ∀ k id, keyMap tickets c1 !! k = Some id
                 ↔ ∃ n target targetLeaf,
                     issues !! n = Some target ∧ Issue.Key target = k
                     ∧ leafPart tickets a2r c1 !! n = Some targetLeaf
                     ∧ Task.ID targetLeaf = id).
  { intros k id. split.
    - intros (n & t & Hn & Hk)%keyMap_lookup_Some.
      destruct (numbered_lookup tickets a2r c1 n t id Hn) as (Ht & leaf & Hl & Hid).
      unfold tickets in Ht. rewrite list_lookup_fmap in Ht.
      destruct (issues !! n) as [target|] eqn:Hi; [|done]. injection Ht as <-.
      by exists n, target, leaf.
    - intros (n & target & leaf & Hi & Hk & Hl & Hid).
      apply insertAll_lookup_NoDup.
      + rewrite <-list_fmap_compose.
        rewrite (list_fmap_ext _ (Ticket.Key ∘ fst) (numbered c1 tickets))
          by done.
        rewrite list_fmap_compose, fst_numbered. by rewrite Hkeys.
      + apply list_elem_of_fmap. exists (ticketOf Sscanf_f c target, id).
        split; [by rewrite <-Hk|]. apply list_elem_of_lookup. exists n.
        assert (Hids : (numbered c1 tickets).*2 !! n = Some id).
        { rewrite <-leafPart_IDs with (a2r := a2r), list_lookup_fmap, Hl. by cbn; f_equal. }
        assert (Hts : (numbered c1 tickets).*1 !! n = Some (ticketOf Sscanf_f c target)).
        { rewrite fst_numbered. unfold tickets. by rewrite list_lookup_fmap, Hi. }
        rewrite list_lookup_fmap in Hids. rewrite list_lookup_fmap in Hts.
        destruct (numbered c1 tickets !! n) as [[t' id']|]; [|done].
        cbn in Hids, Hts. congruence. }
  assert (HF : Forall2 (λ i leaf,
                 Task.Prerequisites leaf
                 = resolveKeys (keyMap tickets c1)
                     (Ticket.DependencyKeys (ticketOf Sscanf_f c i)))
               issues (leafPart tickets a2r c1)).
  { rewrite <-(Forall2_fmap_l (ticketOf Sscanf_f c)
                 (λ t leaf, Task.Prerequisites leaf
                            = resolveKeys (keyMap tickets c1) (Ticket.DependencyKeys t))).
    apply leafPart_Forall2. intros t id _.
    destruct (appendPrerequisites_fields (resolved (keyMap tickets c1) t)
                (leafTask a2r id t)) as (_ & _ & _ & _ & -> & _).
    by destruct (leafTask_fields a2r id t) as (_ & _ & -> & _). }
  apply (Forall2_Forall_impl _ _ _ _ _ HF Hwf). intros i leaf Hpre Hi.
  intros pr. rewrite Hpre. unfold resolveKeys. rewrite list_elem_of_omap.
  unfold wellFormed in Hi. destruct (Issue.Fields i) as [fields|] eqn:Hf; [|done].
  unfold ticketOf. cbn [Ticket.DependencyKeys]. rewrite Hf.
  cbn [fmap option_fmap option_map default]. split.
  - intros (d & (link & Hin & Hty & Hout)%elem_of_dependencyKeysOf & Hd).
    destruct (keyMap tickets c1 !! d) as [id|] eqn:Hk; [|done].
    injection Hd as <-.
    apply Hmap in Hk as (n & target & targetLeaf & Hn & <- & Hl & <-).
    by exists fields, link, n, target, targetLeaf.
  - intros (fields' & link & n & target & targetLeaf
            & [= <-] & Hin & Hty & Hout & Hn & Hl & ->).
    exists (Issue.Key target). split.
    + apply elem_of_dependencyKeysOf. by exists link.
    + assert (Hk : keyMap tickets c1 !! Issue.Key target = Some (Task.ID targetLeaf)).
      { apply Hmap. by exists n, target, targetLeaf. }
      by rewrite Hk.
Qed.

(** The second sample issue depends on the first. *)
Lemma dependent_links_become_prerequisites_witness :
  ∃ tickets epicMap p',
    GetTickets (λ _, None) sampleSearch ["EPIC-1"] sampleClient "project = PROJ"
      freshProcess
    = (Returns (inr (tickets, epicMap)), p')
    ∧ PrerequisiteTask.IDRef
        <$> (emittedLeaves tickets
               (Scenario.Tasks
                  (buildScenario (NewSerializer "Test Project") (mkOrders [] [])
                     tickets epicMap (world p')).1)
               ≫= Task.Prerequisites)
      = ["t5"].
Proof.
  destruct (dependent_links_become_prerequisites (λ _, None) sampleSearch ["EPIC-1"]
              sampleClient "project = PROJ" freshProcess tt sampleIssues
              (NewSerializer "Test Project") (mkOrders [] []) eq_refl eq_refl
              sampleSearch_wellFormed)
    as (tickets & epicMap & p' & Heq & _).
  - apply (bool_decide_eq_true_1 (NoDup (Issue.Key <$> sampleIssues))).
    vm_compute. reflexivity.
  - exists tickets, epicMap, p'. split; [exact Heq|].
    vm_compute in Heq. injection Heq as <- <- <-. reflexivity.
Defined.


